(** * Request resilience layer of mcp-anchor: cache, timeout budget, manager

    A shallow embedding of [src/performance/cache.ts] ([ResponseCache]),
    [src/performance/timeout.ts] ([TimeoutManager]) and
    [src/performance/manager.ts] ([PerformanceManager]), followed by the
    properties of the specification that concern them.

    Conventions of the embedding.
    - A JavaScript [number] that the code uses as a counter, a timestamp or
      a seed is an integer of [Z]; strings are byte strings ([string]), which
      agrees with JavaScript on ASCII text, percent-escapes that decode to
      bytes outside ASCII included in what is left out.
    - The JavaScript [Map] of the cache is an association list in insertion
      order: [Map.prototype.set] on a present key keeps its position, on a
      fresh key appends; iteration follows the list.
    - Every [Date.now()] is an input: each function takes the readings of
      the clock at the program points where its source reads it, and
      consecutive readings are unrelated unless a theorem assumes otherwise.
    - A caller-supplied asynchronous operation is described by how its
      promise settles; [Promise.race] against the budget timer is described
      by which side settles first. An awaited fallback is taken to settle:
      one that never does leaves the call pending for ever and has no
      counterpart here.
    - Calls of the supplied operations, console output and the manager's
      calls on its cache are recorded, in order, in a trace.
    - A method is run from entry to its end with nothing else touching its
      object meanwhile; where a property depends on what falls between the
      [await]s of [fetchWithTimeout], the call is taken step by step
      ([TimeoutSteps]). *)

From Stdlib Require Import ZArith String Ascii List Bool Lia QArith.
From Stdlib Require Import DecimalString DecimalZ.
From stdpp Require Import base list sorting.

Close Scope Q_scope.
Open Scope Z_scope.

(** ** JavaScript values and strings *)

Module JS.

(** Payloads are opaque to the layer apart from comparison with [null];
    [JObj] stands for an object, identified by a reference. *)
Inductive value : Type :=
| JNull
| JUndefined
| JBool (b : bool)
| JNum (n : Z)
| JStr (s : string)
| JObj (ref : nat).

(** What a [throw] or a rejection carries: an [Error] instance with its
    [message], or any other value. *)
Inductive thrown : Type :=
| ErrorObj (message : string)
| ThrownValue (v : value).

(** How an awaited promise settles. *)
Inductive settled : Type :=
| Fulfilled (v : value)
| Rejected (e : thrown).

Definition value_eqb (a b : value) : bool :=
  match a, b with
  | JNull, JNull => true
  | JUndefined, JUndefined => true
  | JBool x, JBool y => Bool.eqb x y
  | JNum x, JNum y => Z.eqb x y
  | JStr x, JStr y => String.eqb x y
  | JObj x, JObj y => Nat.eqb x y
  | _, _ => false
  end.

(** [x !== null] *)
Definition not_null (v : value) : bool :=
  match v with JNull => false | _ => true end.

(** [s.includes(sub)] *)
Definition includes (s sub : string) : bool :=
  match String.index 0 sub s with
  | Some _ => true
  | None => false
  end.

(** [`${n}`] for an integer [n]. *)
Definition number_to_string (n : Z) : string :=
  NilEmpty.string_of_int (Z.to_int n).

(** [s || d] on strings: the empty string is falsy. *)
Definition str_or (s d : string) : string :=
  if String.eqb s "" then d else s.

(** [n || d] on integers: zero is falsy. *)
Definition num_or (n d : Z) : Z :=
  if Z.eqb n 0 then d else n.

(** [n || d] where [n] may be [undefined]. *)
Definition opt_num_or (n : option Z) (d : Z) : Z :=
  match n with
  | Some x => num_or x d
  | None => d
  end.

Fixpoint has_char (c : ascii) (s : string) : bool :=
  match s with
  | EmptyString => false
  | String a s' => Ascii.eqb a c || has_char c s'
  end.

(** [s.split(c)] for a one-character separator. *)
Fixpoint split_on (c : ascii) (s : string) : list string :=
  match s with
  | EmptyString => [EmptyString]
  | String a s' =>
      if Ascii.eqb a c then EmptyString :: split_on c s'
      else match split_on c s' with
           | h :: t => String a h :: t
           | [] => [String a EmptyString]
           end
  end.

(** [s.split(c)[0]] *)
Fixpoint before_first (c : ascii) (s : string) : string :=
  match s with
  | EmptyString => EmptyString
  | String a s' => if Ascii.eqb a c then EmptyString else String a (before_first c s')
  end.

(** The text after the first occurrence of [c], when there is one. *)
Fixpoint after_first (c : ascii) (s : string) : option string :=
  match s with
  | EmptyString => None
  | String a s' => if Ascii.eqb a c then Some s' else after_first c s'
  end.

Definition lower_char (a : ascii) : ascii :=
  let n := N_of_ascii a in
  if (N.leb 65 n && N.leb n 90)%bool then ascii_of_N (n + 32) else a.

(** [s.toLowerCase()] on ASCII text. *)
Fixpoint toLowerCase (s : string) : string :=
  match s with
  | EmptyString => EmptyString
  | String a s' => String (lower_char a) (toLowerCase s')
  end.

(** [s.replace(/\/+/g, '/')]: every run of slashes becomes one slash. *)
Fixpoint collapse_slashes (s : string) : string :=
  match s with
  | EmptyString => EmptyString
  | String a s' =>
      if Ascii.eqb a "/" then
        match s' with
        | String b _ => if Ascii.eqb b "/" then collapse_slashes s'
                        else String a (collapse_slashes s')
        | EmptyString => String a EmptyString
        end
      else String a (collapse_slashes s')
  end.

Fixpoint join (sep : string) (l : list string) : string :=
  match l with
  | [] => EmptyString
  | [x] => x
  | x :: rest => String.append x (String.append sep (join sep rest))
  end.

End JS.

(** ** The platform's [URLSearchParams]

    The WHATWG [application/x-www-form-urlencoded] parser and serializer on
    byte strings. The parser keeps the percent-decoded bytes as they are.
    The platform goes on to decode them as UTF-8, which leaves a well-formed
    sequence as it is and puts U+FFFD for an ill-formed one ("%FF", or a
    sequence cut short): that replacement has no counterpart here, so for
    a parameter string with such escapes the normal form computed here is
    not the platform's. The two agree on strings whose escapes decode to
    ASCII. *)

Module URLSearchParams.

Definition t : Type := list (string * string).

Definition hex_val (a : ascii) : option N :=
  let n := N_of_ascii a in
  if (N.leb 48 n && N.leb n 57)%bool then Some (n - 48)%N
  else if (N.leb 65 n && N.leb n 70)%bool then Some (n - 55)%N
  else if (N.leb 97 n && N.leb n 102)%bool then Some (n - 87)%N
  else None.

Definition hex_digit (n : N) : ascii :=
  if N.ltb n 10 then ascii_of_N (48 + n) else ascii_of_N (55 + n).

Fixpoint percent_decode (s : string) : string :=
  match s with
  | EmptyString => EmptyString
  | String a s1 =>
      if Ascii.eqb a "%" then
        match s1 with
        | String h (String l rest) =>
            match hex_val h, hex_val l with
            | Some x, Some y => String (ascii_of_N (16 * x + y)) (percent_decode rest)
            | _, _ => String a (percent_decode s1)
            end
        | _ => String a (percent_decode s1)
        end
      else String a (percent_decode s1)
  end.

Fixpoint plus_to_space (s : string) : string :=
  match s with
  | EmptyString => EmptyString
  | String a s' =>
      String (if Ascii.eqb a "+" then " "%char else a) (plus_to_space s')
  end.

Definition decode_component (s : string) : string :=
  percent_decode (plus_to_space s).

Definition parse_pair (seq : string) : string * string :=
  match JS.after_first "=" seq with
  | Some v => (decode_component (JS.before_first "=" seq), decode_component v)
  | None => (decode_component seq, EmptyString)
  end.

Definition parse (input : string) : t :=
  flat_map (fun seq => if String.eqb seq "" then [] else [parse_pair seq])
           (JS.split_on "&" input).

Definition strip_question (init : string) : string :=
  match init with
  | String a rest => if Ascii.eqb a "?" then rest else init
  | EmptyString => init
  end.

(** [new URLSearchParams(init)] for a string [init]; the constructor does
    not throw on strings, which [Some] records. *)
Definition construct (init : string) : option t :=
  Some (parse (strip_question init)).

Definition keys (p : t) : list string := map fst p.

(** [p.get(name)]: the first value under [name], or [null]. *)
Fixpoint get (p : t) (name : string) : option string :=
  match p with
  | [] => None
  | (k, v) :: rest => if String.eqb k name then Some v else get rest name
  end.

Definition remove (p : t) (name : string) : t :=
  List.filter (fun kv => negb (String.eqb (fst kv) name)) p.

(** [p.set(name, value)]: overwrite the first pair under [name] and drop
    the others, or append. *)
Fixpoint set (p : t) (name value : string) : t :=
  match p with
  | [] => [(name, value)]
  | (k, v) :: rest =>
      if String.eqb k name then (name, value) :: remove rest name
      else (k, v) :: set rest name value
  end.

Definition unreserved (a : ascii) : bool :=
  let n := N_of_ascii a in
  ((N.leb 48 n && N.leb n 57) || (N.leb 65 n && N.leb n 90)
   || (N.leb 97 n && N.leb n 122)
   || N.eqb n 42 || N.eqb n 45 || N.eqb n 46 || N.eqb n 95)%bool.

Definition encode_byte (a : ascii) (k : string) : string :=
  if unreserved a then String a k
  else if Ascii.eqb a " " then String "+" k
  else let n := N_of_ascii a in
       String "%" (String (hex_digit (n / 16)) (String (hex_digit (n mod 16)) k)).

Fixpoint encode_component (s : string) : string :=
  match s with
  | EmptyString => EmptyString
  | String a s' => encode_byte a (encode_component s')
  end.

Definition encode_pair (kv : string * string) : string :=
  String.append (encode_component (fst kv))
                (String "=" (encode_component (snd kv))).

(** [p.toString()] *)
Definition toString (p : t) : string :=
  JS.join "&" (map encode_pair p).

End URLSearchParams.


(** ** [types.ts] *)

Module CacheKey.
Record t : Type := mk {
  route : string;
  params : string;
  scenario : string;
  seed : Z
}.
End CacheKey.

Module CacheEntry.
Record t : Type := mk {
  data : JS.value;
  timestamp : Z;
  ttl : Z;
  route : string;
  params : string;
  scenario : string;
  seed : Z;
  hitCount : Z;
  lastAccess : Z
}.
End CacheEntry.

Module PerformanceMetrics.
(** [averageResponseTime] is a JavaScript number; no code path computes
    it, so the integer it is initialised with is all it ever holds. The
    two rates are quotients, kept exact here. *)
Record t : Type := mk {
  cacheHits : Z;
  cacheMisses : Z;
  timeoutHits : Z;
  passthroughCount : Z;
  averageResponseTime : Z;
  totalRequests : Z;
  cacheHitRate : Q;
  timeoutRate : Q
}.

Definition zero : t := mk 0 0 0 0 0 0 0%Q 0%Q.

(** [Partial<PerformanceMetrics>] *)
Record partial : Type := mkPartial {
  p_cacheHits : option Z;
  p_cacheMisses : option Z;
  p_timeoutHits : option Z;
  p_passthroughCount : option Z;
  p_averageResponseTime : option Z;
  p_totalRequests : option Z;
  p_cacheHitRate : option Q;
  p_timeoutRate : option Q
}.

(** [Object.assign(m, update)] *)
Definition assign (m : t) (u : partial) : t :=
  mk (default (cacheHits m) (p_cacheHits u))
     (default (cacheMisses m) (p_cacheMisses u))
     (default (timeoutHits m) (p_timeoutHits u))
     (default (passthroughCount m) (p_passthroughCount u))
     (default (averageResponseTime m) (p_averageResponseTime u))
     (default (totalRequests m) (p_totalRequests u))
     (default (cacheHitRate m) (p_cacheHitRate u))
     (default (timeoutRate m) (p_timeoutRate u)).
End PerformanceMetrics.

Module TimeoutBudget.
Record t : Type := mk {
  fixtureTimeoutMs : Z;
  enablePassthrough : bool;
  logTimeouts : bool
}.
End TimeoutBudget.

(** [a / b] when [b > 0], else [0]: the guard of every rate in the code. *)
Definition rate (a b : Z) : Q :=
  if Z.ltb 0 b then (inject_Z a / inject_Z b)%Q else 0%Q.

(** ** The JavaScript [Map] with string keys, in insertion order *)

Module JsMap.
Section WithValue.
Context {V : Type}.

Definition t : Type := list (string * V).

Fixpoint get (m : t) (k : string) : option V :=
  match m with
  | [] => None
  | (k', v) :: rest => if String.eqb k' k then Some v else get rest k
  end.

Definition delete (m : t) (k : string) : t :=
  List.filter (fun kv => negb (String.eqb (fst kv) k)) m.

Fixpoint set (m : t) (k : string) (v : V) : t :=
  match m with
  | [] => [(k, v)]
  | (k', v') :: rest =>
      if String.eqb k' k then (k, v) :: rest
      else (k', v') :: set rest k v
  end.

Definition size (m : t) : Z := Z.of_nat (length m).

Definition has (m : t) (k : string) : bool :=
  match get m k with Some _ => true | None => false end.
End WithValue.
Arguments t : clear implicits.
End JsMap.

(** ** [cache.ts]: [ResponseCache] *)

Definition key_le (a b : string) : Prop := String.leb a b = true.

#[global] Instance key_le_dec : RelDecision key_le.
Proof. intros a b. unfold key_le. apply _. Defined.

Module ResponseCache.

Record t : Type := mk {
  cache : JsMap.t CacheEntry.t;
  maxEntries : Z;
  defaultTtlMs : Z;
  metrics : PerformanceMetrics.t
}.

(** The constructor, without the cleanup timer it may start. *)
Definition new (opt_maxEntries opt_defaultTtlMs : option Z) : t :=
  mk [] (JS.opt_num_or opt_maxEntries 1000)
        (JS.opt_num_or opt_defaultTtlMs (5 * 60 * 1000))
        PerformanceMetrics.zero.

Definition with_cache (c : t) (m : JsMap.t CacheEntry.t) : t :=
  mk m (maxEntries c) (defaultTtlMs c) (metrics c).

Definition with_metrics (c : t) (m : PerformanceMetrics.t) : t :=
  mk (cache c) (maxEntries c) (defaultTtlMs c) m.

Definition count_miss (m : PerformanceMetrics.t) : PerformanceMetrics.t :=
  PerformanceMetrics.mk
    (PerformanceMetrics.cacheHits m) (PerformanceMetrics.cacheMisses m + 1)
    (PerformanceMetrics.timeoutHits m) (PerformanceMetrics.passthroughCount m)
    (PerformanceMetrics.averageResponseTime m) (PerformanceMetrics.totalRequests m)
    (PerformanceMetrics.cacheHitRate m) (PerformanceMetrics.timeoutRate m).

Definition count_hit (m : PerformanceMetrics.t) : PerformanceMetrics.t :=
  PerformanceMetrics.mk
    (PerformanceMetrics.cacheHits m + 1) (PerformanceMetrics.cacheMisses m)
    (PerformanceMetrics.timeoutHits m) (PerformanceMetrics.passthroughCount m)
    (PerformanceMetrics.averageResponseTime m) (PerformanceMetrics.totalRequests m)
    (PerformanceMetrics.cacheHitRate m) (PerformanceMetrics.timeoutRate m).

Definition normalizeRoute (route : string) : string :=
  JS.collapse_slashes (JS.toLowerCase (JS.before_first "?" route)).

(** The body of [normalizeParams] over the constructor it calls inside
    [try]; [None] is the constructor throwing, which [catch] turns into the
    raw text. [Array.prototype.sort] without a comparator orders strings by
    code unit; any sort computes that order, a merge sort here. *)
Definition normalizeParams_with
    (ctor : string -> option URLSearchParams.t) (params : string) : string :=
  if String.eqb params "" then ""%string
  else
    match ctor params with
    | Some urlParams =>
        let sortedParams :=
          fold_left
            (fun acc key =>
               URLSearchParams.set acc key
                 (match URLSearchParams.get urlParams key with
                  | Some v => JS.str_or v ""
                  | None => ""%string
                  end))
            (merge_sort key_le (URLSearchParams.keys urlParams))
            [] in
        URLSearchParams.toString sortedParams
    | None => params
    end.

Definition normalizeParams : string -> string :=
  normalizeParams_with URLSearchParams.construct.

Definition colon : string := ":"%string.

Definition generateKey (cacheKey : CacheKey.t) : string :=
  let n_route := normalizeRoute (CacheKey.route cacheKey) in
  let n_params := normalizeParams (CacheKey.params cacheKey) in
  let n_scenario := JS.str_or (CacheKey.scenario cacheKey) "baseline" in
  let n_seed := JS.num_or (CacheKey.seed cacheKey) 42 in
  String.append n_route
    (String.append colon
       (String.append n_params
          (String.append colon
             (String.append n_scenario
                (String.append colon (JS.number_to_string n_seed)))))).

Definition expired (entry : CacheEntry.t) (now : Z) : bool :=
  Z.gtb (now - CacheEntry.timestamp entry) (CacheEntry.ttl entry).

Definition touch (entry : CacheEntry.t) (now : Z) : CacheEntry.t :=
  CacheEntry.mk
    (CacheEntry.data entry) (CacheEntry.timestamp entry) (CacheEntry.ttl entry)
    (CacheEntry.route entry) (CacheEntry.params entry)
    (CacheEntry.scenario entry) (CacheEntry.seed entry)
    (CacheEntry.hitCount entry + 1) now.

(** [get(cacheKey)] at clock reading [now]; [JNull] is the miss. *)
Definition get (c : t) (cacheKey : CacheKey.t) (now : Z) : JS.value * t :=
  let key := generateKey cacheKey in
  match JsMap.get (cache c) key with
  | None => (JS.JNull, with_metrics c (count_miss (metrics c)))
  | Some entry =>
      if expired entry now then
        (JS.JNull,
         mk (JsMap.delete (cache c) key) (maxEntries c) (defaultTtlMs c)
            (count_miss (metrics c)))
      else
        let entry' := touch entry now in
        (CacheEntry.data entry',
         mk (JsMap.set (JsMap.delete (cache c) key) key entry')
            (maxEntries c) (defaultTtlMs c) (count_hit (metrics c)))
  end.

(** The loop of [evictLRU]: the first key whose [lastAccess] is strictly
    below everything seen so far, starting from the clock reading. *)
Definition oldest_step (acc : option string * Z) (kv : string * CacheEntry.t)
    : option string * Z :=
  if Z.ltb (CacheEntry.lastAccess (snd kv)) (snd acc)
  then (Some (fst kv), CacheEntry.lastAccess (snd kv))
  else acc.

Definition oldest (m : JsMap.t CacheEntry.t) (now : Z) : option string * Z :=
  fold_left oldest_step m (None, now).

Definition evictLRU (c : t) (now : Z) : t :=
  match fst (oldest (cache c) now) with
  | Some oldestKey =>
      if String.eqb oldestKey "" then c
      else with_cache c (JsMap.delete (cache c) oldestKey)
  | None => c
  end.

(** [set(cacheKey, data, ttlMs)]; [now] is the reading taken by [set],
    [evictNow] the one taken by [evictLRU] when it runs. *)
Definition set (c : t) (cacheKey : CacheKey.t) (data : JS.value)
    (ttlMs : option Z) (now evictNow : Z) : t :=
  let key := generateKey cacheKey in
  let entry :=
    CacheEntry.mk data now (JS.opt_num_or ttlMs (defaultTtlMs c))
      (CacheKey.route cacheKey) (CacheKey.params cacheKey)
      (CacheKey.scenario cacheKey) (CacheKey.seed cacheKey) 0 now in
  let c1 :=
    if Z.geb (JsMap.size (cache c)) (maxEntries c) then evictLRU c evictNow
    else c in
  with_cache c1 (JsMap.set (cache c1) key entry).

Definition cleanup (c : t) (now : Z) : t :=
  let toDelete :=
    map fst (List.filter (fun kv => expired (snd kv) now) (cache c)) in
  with_cache c (fold_left JsMap.delete toDelete (cache c)).

Record stats : Type := mkStats {
  s_metrics : PerformanceMetrics.t;
  cacheSize : Z;
  s_maxEntries : Z
}.

Definition getStats (c : t) : stats :=
  let m := metrics c in
  let totalRequests :=
    PerformanceMetrics.cacheHits m + PerformanceMetrics.cacheMisses m in
  mkStats
    (PerformanceMetrics.mk
       (PerformanceMetrics.cacheHits m) (PerformanceMetrics.cacheMisses m)
       (PerformanceMetrics.timeoutHits m) (PerformanceMetrics.passthroughCount m)
       (PerformanceMetrics.averageResponseTime m) totalRequests
       (rate (PerformanceMetrics.cacheHits m) totalRequests)
       (rate (PerformanceMetrics.timeoutHits m) totalRequests))
    (JsMap.size (cache c)) (maxEntries c).

Definition updateMetrics (c : t) (update : PerformanceMetrics.partial) : t :=
  with_metrics c (PerformanceMetrics.assign (metrics c) update).

Definition clear (c : t) : t :=
  mk [] (maxEntries c) (defaultTtlMs c) PerformanceMetrics.zero.

Definition getEntries (c : t) : list CacheEntry.t := map snd (cache c).

Definition has (c : t) (cacheKey : CacheKey.t) (now : Z) : bool * t :=
  let key := generateKey cacheKey in
  match JsMap.get (cache c) key with
  | None => (false, c)
  | Some entry =>
      if expired entry now then (false, with_cache c (JsMap.delete (cache c) key))
      else (true, c)
  end.

End ResponseCache.


(** ** Effects: state, exceptions and a trace of observable calls *)

Module Effect.

Inductive console : Type :=
| SlowFixtureRequest
| FixtureTimeoutFallingBack
| PassthroughFallbackFailed
| FixtureRequestFailed.

(** What a run does that its caller can observe besides the result: the
    calls of the two supplied operations, console output, and the calls
    the manager makes on its cache (with the key they address). *)
Inductive event : Type :=
| InvokeFixture
| InvokePassthrough
| ConsoleWarn (m : console)
| ConsoleError (m : console)
| CacheGet (key : string)
| CacheSet (key : string).

Definition event_eqb (a b : event) : bool :=
  match a, b with
  | InvokeFixture, InvokeFixture => true
  | InvokePassthrough, InvokePassthrough => true
  | CacheGet x, CacheGet y => String.eqb x y
  | CacheSet x, CacheSet y => String.eqb x y
  | ConsoleWarn x, ConsoleWarn y | ConsoleError x, ConsoleError y =>
      match x, y with
      | SlowFixtureRequest, SlowFixtureRequest
      | FixtureTimeoutFallingBack, FixtureTimeoutFallingBack
      | PassthroughFallbackFailed, PassthroughFallbackFailed
      | FixtureRequestFailed, FixtureRequestFailed => true
      | _, _ => false
      end
  | _, _ => false
  end.

(** How a call of an [async] function ends. *)
Inductive completion (A : Type) : Type :=
| Returned (a : A)
| Threw (e : JS.thrown).
Arguments Returned {A} a.
Arguments Threw {A} e.

(** A computation over an object of state [S]; the trace lists events in
    the order they happen. *)
Definition M (S A : Type) : Type :=
  S -> list event -> completion A * S * list event.

Definition ret {S A} (a : A) : M S A := fun s tr => (Returned a, s, tr).

Definition throw {S A} (e : JS.thrown) : M S A := fun s tr => (Threw e, s, tr).

Definition bind {S A B} (m : M S A) (k : A -> M S B) : M S B :=
  fun s tr =>
    match m s tr with
    | (Returned a, s', tr') => k a s' tr'
    | (Threw e, s', tr') => (Threw e, s', tr')
    end.

(** [try { m } catch (e) { h e }] *)
Definition try_catch {S A} (m : M S A) (h : JS.thrown -> M S A) : M S A :=
  fun s tr =>
    match m s tr with
    | (Returned a, s', tr') => (Returned a, s', tr')
    | (Threw e, s', tr') => h e s' tr'
    end.

(** The settled state of a promise, as [Promise.allSettled] reports it. *)
Definition settle {S A} (m : M S A) : M S (completion A) :=
  fun s tr => let '(r, s', tr') := m s tr in (Returned r, s', tr').

Definition gets {S A} (f : S -> A) : M S A := fun s tr => (Returned (f s), s, tr).

Definition modify {S} (f : S -> S) : M S unit := fun s tr => (Returned tt, f s, tr).

Definition emit {S} (ev : event) : M S unit :=
  fun s tr => (Returned tt, s, tr ++ [ev]).

Definition when {S} (b : bool) (m : M S unit) : M S unit :=
  if b then m else ret tt.

(** [await p] for a promise that settles as [p]. *)
Definition await {S} (p : JS.settled) : M S JS.value :=
  match p with
  | JS.Fulfilled v => ret v
  | JS.Rejected e => throw e
  end.

(** Run a computation of a component inside the object that owns it. *)
Definition zoom {S T A} (proj : T -> S) (put : T -> S -> T) (m : M S A) : M T A :=
  fun t tr => let '(r, s', tr') := m (proj t) tr in (r, put t s', tr').

End Effect.

Notation "'let!' x ':=' m 'in' k" :=
  (Effect.bind m (fun x => k))
  (at level 10, x pattern, m at level 100, k at level 200).

(** ** [timeout.ts]: [TimeoutManager] *)

Module TimeoutManager.
Import Effect.

Record t : Type := mk {
  config : TimeoutBudget.t;
  timeoutHits : Z;
  totalRequests : Z
}.

Definition new (config : TimeoutBudget.t) : t := mk config 0 0.

Inductive origin : Type := fixture | passthrough.

Record outcome : Type := mkOutcome {
  result : JS.value;
  timedOut : bool;
  source : origin
}.

(** What [Promise.race([fetchFn(), timeoutPromise])] observes of the
    primary operation: its promise settles before the budget timer fires
    (a synchronous throw of [fetchFn] counts as a rejection, both reach the
    [catch]), or the timer fires first. *)
Inductive primary : Type :=
| SettlesFirst (p : JS.settled)
| TimerFirst.

(** The two clock readings of one call: at entry, and after the race
    (line 47 or line 56, whichever branch runs). *)
Record readings : Type := mkReadings {
  startTime : Z;
  afterRace : Z
}.

Definition timeout_error (timeoutMs : Z) : JS.thrown :=
  JS.ErrorObj
    (String.append "Fixture timeout after "
       (String.append (JS.number_to_string timeoutMs) "ms")).

Definition race (timeoutMs : Z) (fetchFn : primary) : M t JS.value :=
  match fetchFn with
  | SettlesFirst p => await p
  | TimerFirst => throw (timeout_error timeoutMs)
  end.

(** [error instanceof Error && error.message.includes('timeout')] *)
Definition isTimeout (error : JS.thrown) : bool :=
  match error with
  | JS.ErrorObj message => JS.includes message "timeout"
  | JS.ThrownValue _ => false
  end.

(** [duration > timeoutMs * 0.8], compared exactly. *)
Definition slow (duration timeoutMs : Z) : bool :=
  Z.ltb (8 * timeoutMs) (10 * duration).

Definition bump_totalRequests (m : t) : t :=
  mk (config m) (timeoutHits m) (totalRequests m + 1).

Definition bump_timeoutHits (m : t) : t :=
  mk (config m) (timeoutHits m + 1) (totalRequests m).

(** [fetchWithTimeout], for a call during which nothing else touches the
    manager: the call runs from entry to its end in one piece. What may
    fall between its [await]s is the matter of [TimeoutSteps] below. *)
Definition fetchWithTimeout
    (fetchFn : primary) (fallbackFn : option JS.settled) (clk : readings)
    : M t outcome :=
  let! _ := modify bump_totalRequests in
  let! cfg := gets config in
  let timeoutMs := TimeoutBudget.fixtureTimeoutMs cfg in
  try_catch
    (let! _ := emit InvokeFixture in
     let! result := race timeoutMs fetchFn in
     let duration := afterRace clk - startTime clk in
     let! _ := when (TimeoutBudget.logTimeouts cfg && slow duration timeoutMs)
                    (emit (ConsoleWarn SlowFixtureRequest)) in
     ret (mkOutcome result false fixture))
    (fun error =>
       if isTimeout error then
         let! _ := modify bump_timeoutHits in
         let! _ := when (TimeoutBudget.logTimeouts cfg)
                        (emit (ConsoleWarn FixtureTimeoutFallingBack)) in
         match TimeoutBudget.enablePassthrough cfg, fallbackFn with
         | true, Some fallback =>
             try_catch
               (let! _ := emit InvokePassthrough in
                let! fallbackResult := await fallback in
                ret (mkOutcome fallbackResult true passthrough))
               (fun fallbackError =>
                  let! _ := when (TimeoutBudget.logTimeouts cfg)
                                 (emit (ConsoleError PassthroughFallbackFailed)) in
                  throw fallbackError)
         | _, _ => throw error
         end
       else throw error).

(** The marker that stands for a rejected call in the batch result. *)
Definition failed_marker : outcome := mkOutcome JS.JNull true passthrough.

(** [fallbacks?.[index]] *)
Definition fallback_at (fallbacks : option (list JS.settled)) (index : nat)
    : option JS.settled :=
  match fallbacks with
  | Some l => nth_error l index
  | None => None
  end.

(** The calls that [requests.map] starts, each brought to its settled
    state. The calls run concurrently in the source; here one runs after
    the other. A call's result depends on its own pair and on the
    configuration only, and the counters the calls bump commute, so the
    settled results and the final counters are those of any interleaving
    (the order of the trace is not). *)
Fixpoint settle_all
    (requests : list primary) (fallbacks : option (list JS.settled))
    (clks : nat -> readings) (index : nat)
    : M t (list (completion outcome)) :=
  match requests with
  | [] => ret []
  | fetchFn :: rest =>
      let! r := settle (fetchWithTimeout fetchFn (fallback_at fallbacks index)
                                         (clks index)) in
      let! rs := settle_all rest fallbacks clks (S index) in
      ret (r :: rs)
  end.

Definition fetchMultipleWithTimeout
    (requests : list primary) (fallbacks : option (list JS.settled))
    (clks : nat -> readings)
    : M t (list outcome) :=
  let! results := settle_all requests fallbacks clks 0%nat in
  ret (map (fun r => match r with
                     | Returned value => value
                     | Threw _ => failed_marker
                     end) results).

Record stats : Type := mkStats {
  s_timeoutHits : Z;
  s_totalRequests : Z;
  s_timeoutRate : Q;
  timeoutBudgetMs : Z;
  passthroughEnabled : bool
}.

Definition getStats (m : t) : stats :=
  mkStats (timeoutHits m) (totalRequests m)
          (rate (timeoutHits m) (totalRequests m))
          (TimeoutBudget.fixtureTimeoutMs (config m))
          (TimeoutBudget.enablePassthrough (config m)).

Definition reset (m : t) : t := mk (config m) 0 0.

End TimeoutManager.


(** ** [manager.ts]: [PerformanceManager] *)

Module ScenarioConfig.
Record t : Type := mk {
  name : string;
  seed : Z
}.
End ScenarioConfig.

Module PerformanceConfig.
Record cache_t : Type := mkCache {
  enabled : bool;
  maxEntries : Z;
  defaultTtlMs : Z;
  cleanupIntervalMs : Z
}.
Record metrics_t : Type := mkMetrics {
  enableCollection : bool;
  reportingIntervalMs : Z
}.
Record t : Type := mk {
  cache : cache_t;
  timeout : TimeoutBudget.t;
  metrics : metrics_t
}.
End PerformanceConfig.

Module PerformanceManager.
Import Effect.

Record t : Type := mk {
  cache : ResponseCache.t;
  timeoutManager : TimeoutManager.t;
  config : PerformanceConfig.t;
  startTime : Z
}.

(** The constructor, from a complete configuration (the defaults read from
    the environment are the caller's business here). *)
Definition new (config : PerformanceConfig.t) (now : Z) : t :=
  mk (ResponseCache.new
        (Some (PerformanceConfig.maxEntries (PerformanceConfig.cache config)))
        (Some (PerformanceConfig.defaultTtlMs (PerformanceConfig.cache config))))
     (TimeoutManager.new (PerformanceConfig.timeout config))
     config now.

Definition with_cache (m : t) (c : ResponseCache.t) : t :=
  mk c (timeoutManager m) (config m) (startTime m).

Definition with_timeoutManager (m : t) (tm : TimeoutManager.t) : t :=
  mk (cache m) tm (config m) (startTime m).

Record options : Type := mkOptions {
  url : string;
  method : option string;
  params : option string;
  enableCache : option bool;
  ttlMs : option Z
}.

Inductive origin : Type := from_cache | fixture | passthrough.

Record response : Type := mkResponse {
  result : JS.value;
  fromCache : bool;
  timedOut : bool;
  source : origin;
  latencyMs : Z
}.

(** The clock readings of one call, by program point: entry (line 66),
    inside [cache.get] (line 94), after a hit (line 82), the two of
    [fetchWithTimeout], after it returned or threw (line 101 or 125),
    inside [cache.set] (line 120) and inside [evictLRU] (line 147). *)
Record readings : Type := mkReadings {
  atEntry : Z;
  atGet : Z;
  atHit : Z;
  atFetch : TimeoutManager.readings;
  atDone : Z;
  atSet : Z;
  atEvict : Z
}.

(** [options.enableCache !== false] *)
Definition not_false (b : option bool) : bool :=
  match b with
  | Some false => false
  | _ => true
  end.

Definition cacheKey_of (scenario : ScenarioConfig.t) (opts : options) : CacheKey.t :=
  CacheKey.mk (url opts)
              (match params opts with Some p => JS.str_or p "" | None => ""%string end)
              (ScenarioConfig.name scenario)
              (JS.num_or (ScenarioConfig.seed scenario) 42).

Definition cache_get (cacheKey : CacheKey.t) (now : Z) : M t JS.value :=
  let! _ := emit (CacheGet (ResponseCache.generateKey cacheKey)) in
  fun m tr =>
    let '(v, c') := ResponseCache.get (cache m) cacheKey now in
    (Returned v, with_cache m c', tr).

Definition cache_set (cacheKey : CacheKey.t) (data : JS.value)
    (ttlMs : option Z) (now evictNow : Z) : M t unit :=
  let! _ := emit (CacheSet (ResponseCache.generateKey cacheKey)) in
  modify (fun m =>
    with_cache m (ResponseCache.set (cache m) cacheKey data ttlMs now evictNow)).

Definition timeout_hit_update (c : ResponseCache.t) : PerformanceMetrics.partial :=
  PerformanceMetrics.mkPartial None None
    (Some (PerformanceMetrics.timeoutHits
             (ResponseCache.s_metrics (ResponseCache.getStats c)) + 1))
    None None None None None.

Definition widen (s : TimeoutManager.origin) : origin :=
  match s with
  | TimeoutManager.fixture => fixture
  | TimeoutManager.passthrough => passthrough
  end.

(** [executeFixtureRequest]; [scenario] is what
    [scenarioEngine.getCurrentScenario()] returns at the call. *)
Definition executeFixtureRequest
    (fixtureRequestFn : TimeoutManager.primary) (passthroughFn : JS.settled)
    (opts : options) (scenario : ScenarioConfig.t) (clk : readings)
    : M t response :=
  let cacheKey := cacheKey_of scenario opts in
  let! cfg := gets config in
  let useCache :=
    PerformanceConfig.enabled (PerformanceConfig.cache cfg)
    && not_false (enableCache opts) in
  let! cachedResult :=
    (if useCache then cache_get cacheKey (atGet clk) else ret JS.JNull) in
  if useCache && JS.not_null cachedResult then
    ret (mkResponse cachedResult true false from_cache (atHit clk - atEntry clk))
  else
    try_catch
      (let! o := zoom timeoutManager with_timeoutManager
                   (TimeoutManager.fetchWithTimeout
                      fixtureRequestFn (Some passthroughFn) (atFetch clk)) in
       let latencyMs := atDone clk - atEntry clk in
       let! _ :=
         when (PerformanceConfig.enabled (PerformanceConfig.cache cfg)
               && match TimeoutManager.source o with
                  | TimeoutManager.fixture => true
                  | TimeoutManager.passthrough => false
                  end
               && negb (TimeoutManager.timedOut o)
               && not_false (enableCache opts))
              (cache_set cacheKey (TimeoutManager.result o) (ttlMs opts)
                         (atSet clk) (atEvict clk)) in
       let! _ :=
         when (TimeoutManager.timedOut o)
              (modify (fun m =>
                 with_cache m
                   (ResponseCache.updateMetrics (cache m)
                      (timeout_hit_update (cache m))))) in
       ret (mkResponse (TimeoutManager.result o) false
                       (TimeoutManager.timedOut o)
                       (widen (TimeoutManager.source o)) latencyMs))
      (fun error =>
         let! _ :=
           when (TimeoutBudget.logTimeouts (PerformanceConfig.timeout cfg))
                (emit (ConsoleError FixtureRequestFailed)) in
         throw error).

Record cache_summary : Type := mkCacheSummary {
  size : Z;
  cs_maxEntries : Z;
  cs_hitRate : Q
}.

Record timeout_summary : Type := mkTimeoutSummary {
  budgetMs : Z;
  ts_hitRate : Q;
  ts_passthroughEnabled : bool
}.

Record metrics : Type := mkMetrics {
  counters : PerformanceMetrics.t;
  m_cache : cache_summary;
  m_timeout : timeout_summary;
  uptime : Z
}.

Definition getMetrics (m : t) (now : Z) : metrics :=
  let cacheStats := ResponseCache.getStats (cache m) in
  let cm := ResponseCache.s_metrics cacheStats in
  let timeoutStats := TimeoutManager.getStats (timeoutManager m) in
  mkMetrics
    (PerformanceMetrics.mk
       (PerformanceMetrics.cacheHits cm)
       (PerformanceMetrics.cacheMisses cm)
       (TimeoutManager.s_timeoutHits timeoutStats)
       (PerformanceMetrics.passthroughCount cm)
       (PerformanceMetrics.averageResponseTime cm)
       (TimeoutManager.s_totalRequests timeoutStats)
       (PerformanceMetrics.cacheHitRate cm)
       (TimeoutManager.s_timeoutRate timeoutStats))
    (mkCacheSummary (ResponseCache.cacheSize cacheStats)
                    (ResponseCache.s_maxEntries cacheStats)
                    (PerformanceMetrics.cacheHitRate cm))
    (mkTimeoutSummary (TimeoutManager.timeoutBudgetMs timeoutStats)
                      (TimeoutManager.s_timeoutRate timeoutStats)
                      (TimeoutManager.passthroughEnabled timeoutStats))
    (now - startTime m).

Definition reset (m : t) (now : Z) : t :=
  mk (ResponseCache.clear (cache m)) (TimeoutManager.reset (timeoutManager m))
     (config m) now.

Definition cleanup (m : t) (now : Z) : t :=
  with_cache m (ResponseCache.cleanup (cache m) now).

End PerformanceManager.



(** ** The rest of [cache.ts], [timeout.ts] and [manager.ts] *)

Module CacheLifecycle.

(** [ResponseCache.destroy]: the cleanup timer is stopped and the [Map] is
    emptied ([Map.prototype.clear], not the [clear] method of the cache:
    the counters stay). *)
Definition destroy (c : ResponseCache.t) : ResponseCache.t :=
  ResponseCache.with_cache c [].

End CacheLifecycle.

Module TimeoutConfig.

(** [Partial<TimeoutBudget>] *)
Record partial : Type := mkPartial {
  p_fixtureTimeoutMs : option Z;
  p_enablePassthrough : option bool;
  p_logTimeouts : option bool
}.

(** A complete [TimeoutBudget] passed where a partial one is expected. *)
Definition complete (b : TimeoutBudget.t) : partial :=
  mkPartial (Some (TimeoutBudget.fixtureTimeoutMs b))
            (Some (TimeoutBudget.enablePassthrough b))
            (Some (TimeoutBudget.logTimeouts b)).

(** [{ ...base, ...update }] *)
Definition merge (base : TimeoutBudget.t) (update : partial) : TimeoutBudget.t :=
  TimeoutBudget.mk
    (default (TimeoutBudget.fixtureTimeoutMs base) (p_fixtureTimeoutMs update))
    (default (TimeoutBudget.enablePassthrough base) (p_enablePassthrough update))
    (default (TimeoutBudget.logTimeouts base) (p_logTimeouts update)).

(** [TimeoutManager.updateConfig] *)
Definition updateConfig (m : TimeoutManager.t) (config : partial) : TimeoutManager.t :=
  TimeoutManager.mk (merge (TimeoutManager.config m) config)
                    (TimeoutManager.timeoutHits m) (TimeoutManager.totalRequests m).

(** [TimeoutManager.getConfig] *)
Definition getConfig (m : TimeoutManager.t) : TimeoutBudget.t :=
  TimeoutManager.config m.

End TimeoutConfig.

(** The functions that [timeout.ts] exports beside the class. *)
Module TimeoutUtil.

(** The rejection of [createTimeoutPromise(timeoutMs, message)];
    [message || ...] takes the default for a missing or empty message. *)
Definition timeout_rejection (timeoutMs : Z) (message : option string) : JS.thrown :=
  JS.ErrorObj
    (match message with
     | Some text =>
         JS.str_or text
           (String.append "Operation timed out after "
              (String.append (JS.number_to_string timeoutMs) "ms"))
     | None =>
         String.append "Operation timed out after "
           (String.append (JS.number_to_string timeoutMs) "ms")
     end).

(** [withTimeout(fn, timeoutMs, timeoutMessage)]: how the promise it
    returns settles, [fn] being described by whether it settles before this
    timer. *)
Definition withTimeout (fn : TimeoutManager.primary) (timeoutMs : Z)
    (timeoutMessage : option string) : JS.settled :=
  match fn with
  | TimeoutManager.SettlesFirst p => p
  | TimeoutManager.TimerFirst => JS.Rejected (timeout_rejection timeoutMs timeoutMessage)
  end.

(** [isTimeoutError(error)]; [name] is [error.name], which [JS.ErrorObj]
    does not carry (it is "Error" for what [new Error] builds). *)
Definition isTimeoutError (name : string) (error : JS.thrown) : bool :=
  match error with
  | JS.ErrorObj message =>
      JS.includes message "timeout" || JS.includes message "timed out"
      || String.eqb name "TimeoutError"
  | JS.ThrownValue _ => false
  end.

End TimeoutUtil.

(** [fetchWithTimeout] by the steps it takes between its [await]s, for
    what happens to the manager while calls are pending. The manager is
    shared by the calls in flight and by whoever calls [reset]; a step runs
    without interruption, anything may run between two steps. *)
Module TimeoutSteps.
Import Effect TimeoutManager.

(** Lines 28-43, up to [await Promise.race]: the request is counted, the
    budget is read and the primary operation is called. The call keeps the
    budget it has read. *)
Definition enter : M t Z :=
  let! _ := modify bump_totalRequests in
  let! cfg := gets config in
  let! _ := emit InvokeFixture in
  ret (TimeoutBudget.fixtureTimeoutMs cfg).

(** Lines 43-81, from the settled race to the end of the call;
    [this.config] is read again where the source reads it. The second
    [await], of the fallback, is followed by console output only, so the
    call is run through it. *)
Definition resume (timeoutMs : Z) (fetchFn : primary)
    (fallbackFn : option JS.settled) (clk : readings) : M t outcome :=
  try_catch
    (let! result := race timeoutMs fetchFn in
     let duration := afterRace clk - startTime clk in
     let! cfg := gets config in
     let! _ := when (TimeoutBudget.logTimeouts cfg && slow duration timeoutMs)
                    (emit (ConsoleWarn SlowFixtureRequest)) in
     ret (mkOutcome result false fixture))
    (fun error =>
       if isTimeout error then
         let! _ := modify bump_timeoutHits in
         let! cfg := gets config in
         let! _ := when (TimeoutBudget.logTimeouts cfg)
                        (emit (ConsoleWarn FixtureTimeoutFallingBack)) in
         match TimeoutBudget.enablePassthrough cfg, fallbackFn with
         | true, Some fallback =>
             try_catch
               (let! _ := emit InvokePassthrough in
                let! fallbackResult := await fallback in
                ret (mkOutcome fallbackResult true passthrough))
               (fun fallbackError =>
                  let! cfg := gets config in
                  let! _ := when (TimeoutBudget.logTimeouts cfg)
                                 (emit (ConsoleError PassthroughFallbackFailed)) in
                  throw fallbackError)
         | _, _ => throw error
         end
       else throw error).

(** What can happen to a manager: a call starts and runs up to its race;
    the race of the [i]-th pending call (oldest first) settles and the call
    runs to its end; [reset] is called. *)
Inductive action : Type :=
| Enter
| RaceSettles (i : nat) (fetchFn : primary) (fallbackFn : option JS.settled)
              (clk : readings)
| Reset.

(** The manager, the budgets kept by the calls that await their race,
    and the trace so far. *)
Record world : Type := mkWorld {
  manager : t;
  pending : list Z;
  trace : list event
}.

Definition start (config : TimeoutBudget.t) : world := mkWorld (new config) [] [].

Definition step (w : world) (a : action) : world :=
  match a with
  | Enter =>
      let '(r, m', tr') := enter (manager w) (trace w) in
      match r with
      | Returned timeoutMs => mkWorld m' (pending w ++ [timeoutMs]) tr'
      | Threw _ => mkWorld m' (pending w) tr'
      end
  | RaceSettles i fetchFn fallbackFn clk =>
      match pending w !! i with
      | Some timeoutMs =>
          let '(_, m', tr') := resume timeoutMs fetchFn fallbackFn clk
                                 (manager w) (trace w) in
          mkWorld m' (delete i (pending w)) tr'
      | None => w
      end
  | Reset => mkWorld (reset (manager w)) (pending w) (trace w)
  end.

Definition run (schedule : list action) (w : world) : world :=
  fold_left step schedule w.

(** Every [Reset] of the schedule comes at a moment when no call awaits
    its race, [n] calls doing so at the start. *)
Fixpoint resets_at_rest (n : nat) (schedule : list action) : bool :=
  match schedule with
  | [] => true
  | Enter :: rest => resets_at_rest (S n) rest
  | RaceSettles i _ _ _ :: rest =>
      resets_at_rest (if Nat.ltb i n then Nat.pred n else n) rest
  | Reset :: rest => Nat.eqb n 0 && resets_at_rest n rest
  end.

End TimeoutSteps.

(** [scenario/engine.ts]: the part of [ScenarioEngine] that holds the
    current scenario. The registry is filled by the constructor and never
    changed; its keys are all that [setScenario] looks at. *)
Module ScenarioEngine.

Record t : Type := mk {
  currentScenario : ScenarioConfig.t;
  scenarios : list string
}.

Definition new : t :=
  mk (ScenarioConfig.mk "baseline" 42) ["baseline"; "heavyTail"; "fraudSpike"]%string.

Definition registered (e : t) (name : string) : bool :=
  existsb (String.eqb name) (scenarios e).

Definition setScenario (e : t) (config : ScenarioConfig.t) : bool * t :=
  if registered e (ScenarioConfig.name config)
  then (true, mk config (scenarios e))
  else (false, e).

Definition getCurrentScenario (e : t) : ScenarioConfig.t := currentScenario e.

End ScenarioEngine.

Module ManagerConfig.

(** [Partial<PerformanceConfig>]: whole sections, as the spread is shallow. *)
Record partial : Type := mkPartial {
  p_cache : option PerformanceConfig.cache_t;
  p_timeout : option TimeoutBudget.t;
  p_metrics : option PerformanceConfig.metrics_t
}.

(** [PerformanceManager.updateConfig] *)
Definition updateConfig (m : PerformanceManager.t) (config : partial)
    : PerformanceManager.t :=
  let merged :=
    PerformanceConfig.mk
      (default (PerformanceConfig.cache (PerformanceManager.config m)) (p_cache config))
      (default (PerformanceConfig.timeout (PerformanceManager.config m)) (p_timeout config))
      (default (PerformanceConfig.metrics (PerformanceManager.config m)) (p_metrics config)) in
  PerformanceManager.mk
    (PerformanceManager.cache m)
    (match p_timeout config with
     | Some timeout =>
         TimeoutConfig.updateConfig (PerformanceManager.timeoutManager m)
                                    (TimeoutConfig.complete timeout)
     | None => PerformanceManager.timeoutManager m
     end)
    merged
    (PerformanceManager.startTime m).

(** [PerformanceManager.getConfig] *)
Definition getConfig (m : PerformanceManager.t) : PerformanceConfig.t :=
  PerformanceManager.config m.

(** [PerformanceManager.destroy] *)
Definition destroy (m : PerformanceManager.t) : PerformanceManager.t :=
  PerformanceManager.with_cache m (CacheLifecycle.destroy (PerformanceManager.cache m)).

End ManagerConfig.

(** ** Vocabulary of the statements *)

Module Spec.
Import Effect.

(** The failures that the [catch] block of [fetchWithTimeout] takes for an
    exhausted budget. *)
Definition timeout_like (fetchFn : TimeoutManager.primary) : bool :=
  match fetchFn with
  | TimeoutManager.TimerFirst => true
  | TimeoutManager.SettlesFirst (JS.Rejected e) => TimeoutManager.isTimeout e
  | TimeoutManager.SettlesFirst (JS.Fulfilled _) => false
  end.

(** The completion of one [fetchWithTimeout] call run on its own, from an
    empty trace. *)
Definition alone (tm : TimeoutManager.t) (fetchFn : TimeoutManager.primary)
    (fallbackFn : option JS.settled) (clk : TimeoutManager.readings)
    : completion TimeoutManager.outcome :=
  fst (fst (TimeoutManager.fetchWithTimeout fetchFn fallbackFn clk tm [])).

Definition invoked (ev : event) (tr : list event) : bool :=
  existsb (event_eqb ev) tr.

(** The store of a cache as its own methods build it: no key twice, no
    empty key. *)
Definition wf_store {V} (m : JsMap.t V) : Prop :=
  NoDup (map fst m) /\ Forall (fun k => k <> ""%string) (map fst m).

(** [e], standing between [before] and [after] in insertion order, is
    the first of the entries with the least [lastAccess]. *)
Definition first_oldest (before : JsMap.t CacheEntry.t) (e : CacheEntry.t)
    (after : JsMap.t CacheEntry.t) : Prop :=
  Forall (fun kv => CacheEntry.lastAccess e < CacheEntry.lastAccess (snd kv)) before
  /\ Forall (fun kv => CacheEntry.lastAccess e <= CacheEntry.lastAccess (snd kv)) after.

(** Some entry was last accessed strictly before [now]. *)
Definition some_older (m : JsMap.t CacheEntry.t) (now : Z) : Prop :=
  Exists (fun kv => CacheEntry.lastAccess (snd kv) < now) m.

(** Whether a call of [executeFixtureRequest] consults the cache. *)
Definition useCache (m : PerformanceManager.t) (opts : PerformanceManager.options)
    : bool :=
  PerformanceConfig.enabled (PerformanceConfig.cache (PerformanceManager.config m))
  && PerformanceManager.not_false (PerformanceManager.enableCache opts).

(** What the initial lookup of a call returns ([null] when the call does
    not look up) and the cache it leaves. *)
Definition lookup (m : PerformanceManager.t) (opts : PerformanceManager.options)
    (scenario : ScenarioConfig.t) (clk : PerformanceManager.readings)
    : JS.value * ResponseCache.t :=
  if useCache m opts then
    ResponseCache.get (PerformanceManager.cache m)
      (PerformanceManager.cacheKey_of scenario opts)
      (PerformanceManager.atGet clk)
  else (JS.JNull, PerformanceManager.cache m).

Definition request_key (scenario : ScenarioConfig.t)
    (opts : PerformanceManager.options) : string :=
  ResponseCache.generateKey (PerformanceManager.cacheKey_of scenario opts).

(** The condition under which [executeFixtureRequest] stores an outcome. *)
Definition stores (m : PerformanceManager.t) (opts : PerformanceManager.options)
    (o : TimeoutManager.outcome) : bool :=
  PerformanceConfig.enabled (PerformanceConfig.cache (PerformanceManager.config m))
  && match TimeoutManager.source o with
     | TimeoutManager.fixture => true
     | TimeoutManager.passthrough => false
     end
  && negb (TimeoutManager.timedOut o)
  && PerformanceManager.not_false (PerformanceManager.enableCache opts).

(** The store holds, under [key], an entry that has not expired at
    [now]. *)
Definition valid_entry (c : ResponseCache.t) (key : string) (now : Z) : Prop :=
  exists entry,
    JsMap.get (ResponseCache.cache c) key = Some entry
    /\ ResponseCache.expired entry now = false.

(** What a lookup that returns [null] leaves under the key: nothing, or
    an entry whose data is [null]. *)
Definition null_under (c : ResponseCache.t) (key : string) : Prop :=
  match JsMap.get (ResponseCache.cache c) key with
  | Some entry => CacheEntry.data entry = JS.JNull
  | None => True
  end.

(** The four components that [generateKey] joins with colons. *)
Definition route_of (k : CacheKey.t) : string :=
  ResponseCache.normalizeRoute (CacheKey.route k).
Definition params_of (k : CacheKey.t) : string :=
  ResponseCache.normalizeParams (CacheKey.params k).
Definition scenario_of (k : CacheKey.t) : string :=
  JS.str_or (CacheKey.scenario k) "baseline".
Definition seed_of (k : CacheKey.t) : Z :=
  JS.num_or (CacheKey.seed k) 42.

Definition colon_free (s : string) : Prop := JS.has_char ":" s = false.

(** The entry that [ResponseCache.set] builds. *)
Definition fresh_entry (c : ResponseCache.t) (cacheKey : CacheKey.t)
    (data : JS.value) (ttlMs : option Z) (now : Z) : CacheEntry.t :=
  CacheEntry.mk data now (JS.opt_num_or ttlMs (ResponseCache.defaultTtlMs c))
    (CacheKey.route cacheKey) (CacheKey.params cacheKey)
    (CacheKey.scenario cacheKey) (CacheKey.seed cacheKey) 0 now.

End Spec.

(** ** Invariants *)

Module Inv.

(** The counters of a [TimeoutManager]: every timeout belongs to a
    request. *)
Definition timeout_counters (m : TimeoutManager.t) : Prop :=
  0 <= TimeoutManager.timeoutHits m <= TimeoutManager.totalRequests m.

(** The manager and its [TimeoutManager] hold the same timeout budget. *)
Definition budget_in_sync (m : PerformanceManager.t) : Prop :=
  PerformanceConfig.timeout (PerformanceManager.config m)
  = TimeoutManager.config (PerformanceManager.timeoutManager m).

(** The store holds no entry that has expired at [now]. *)
Definition none_expired (m : JsMap.t CacheEntry.t) (now : Z) : Prop :=
  Forall (fun kv => ResponseCache.expired (snd kv) now = false) m.

(** No entry was last accessed after [now]: what a clock that does not
    run backwards gives. *)
Definition accessed_by (m : JsMap.t CacheEntry.t) (now : Z) : Prop :=
  Forall (fun kv => CacheEntry.lastAccess (snd kv) <= now) m.

(** The number of requests of a batch that the [catch] block takes for a
    timeout. *)
Definition timeouts_among (requests : list TimeoutManager.primary) : Z :=
  Z.of_nat (length (List.filter Spec.timeout_like requests)).

(** The pairs that [normalizeParams] serializes: one [set] per key of the
    parsed pairs, keys taken in sorted order. *)
Definition sorted_pairs (pairs : URLSearchParams.t) : URLSearchParams.t :=
  fold_left
    (fun acc key =>
       URLSearchParams.set acc key
         (match URLSearchParams.get pairs key with
          | Some v => JS.str_or v ""
          | None => ""%string
          end))
    (merge_sort key_le (URLSearchParams.keys pairs)) [].

(** One ASCII upper-case letter. *)
Definition is_upper (a : ascii) : bool :=
  (N.leb 65 (N_of_ascii a) && N.leb (N_of_ascii a) 90)%bool.

Fixpoint has_upper (s : string) : bool :=
  match s with
  | EmptyString => false
  | String a s' => is_upper a || has_upper s'
  end.

(** Two slashes in a row. *)
Fixpoint has_double_slash (s : string) : bool :=
  match s with
  | EmptyString => false
  | String a s' =>
      match s' with
      | String b _ => (Ascii.eqb a "/" && Ascii.eqb b "/") || has_double_slash s'
      | EmptyString => false
      end
  end.

End Inv.

(** * Properties *)

(** ** The timeout executor *)

Section TimeoutExecutor.
Import Effect TimeoutManager.

(** The rejection produced by the budget timer is always classified as a
    timeout by the test in the [catch] block. *)
Lemma timeout_error_isTimeout (timeoutMs : Z) :
  isTimeout (timeout_error timeoutMs) = true.
Proof. reflexivity. Qed.

(** A run only appends to the trace. *)
Lemma fetchWithTimeout_trace tm fetchFn fallbackFn clk tr :
  snd (fetchWithTimeout fetchFn fallbackFn clk tm tr)
  = tr ++ snd (fetchWithTimeout fetchFn fallbackFn clk tm []).
Proof.
  destruct tm as [[ms pass logs] hits total].
  destruct fetchFn as [[v|e]|]; cbn.
  - destruct (logs && _); cbn; rewrite <- ?app_assoc; reflexivity.
  - destruct (isTimeout e); cbn; [|reflexivity].
    destruct logs, pass, fallbackFn as [[w|fe]|]; cbn;
      rewrite <- ?app_assoc; reflexivity.
  - destruct logs, pass, fallbackFn as [[w|fe]|]; cbn;
      rewrite <- ?app_assoc; reflexivity.
Qed.

(** The result of a call does not depend on the counters, on the clock
    or on the trace it starts from. *)
Lemma fetchWithTimeout_result_indep tm tm' fetchFn fallbackFn clk clk' tr tr' :
  config tm = config tm' ->
  fst (fst (fetchWithTimeout fetchFn fallbackFn clk tm tr))
  = fst (fst (fetchWithTimeout fetchFn fallbackFn clk' tm' tr')).
Proof.
  destruct tm as [[ms pass logs] hits total], tm' as [cfg' hits' total'].
  cbn. intros <-.
  destruct fetchFn as [[v|e]|]; cbn.
  - do 2 destruct (logs && _); reflexivity.
  - destruct (isTimeout e); cbn; [|reflexivity].
    destruct logs, pass, fallbackFn as [[w|fe]|]; reflexivity.
  - destruct logs, pass, fallbackFn as [[w|fe]|]; reflexivity.
Qed.

Lemma fetchWithTimeout_frame tm fetchFn fallbackFn clk tr :
  fetchWithTimeout fetchFn fallbackFn clk tm tr
  = (fst (fetchWithTimeout fetchFn fallbackFn clk tm []),
     tr ++ snd (fetchWithTimeout fetchFn fallbackFn clk tm [])).
Proof.
  destruct tm as [[ms pass logs] hits total].
  destruct fetchFn as [[v|e]|]; cbn.
  - destruct (logs && _); cbn; rewrite <- ?app_assoc; reflexivity.
  - destruct (isTimeout e); cbn; [|reflexivity].
    destruct logs, pass, fallbackFn as [[w|fe]|]; cbn;
      rewrite <- ?app_assoc; reflexivity.
  - destruct logs, pass, fallbackFn as [[w|fe]|]; cbn;
      rewrite <- ?app_assoc; reflexivity.
Qed.

Lemma fetchWithTimeout_config tm fetchFn fallbackFn clk tr :
  config (snd (fst (fetchWithTimeout fetchFn fallbackFn clk tm tr))) = config tm.
Proof.
  destruct tm as [[ms pass logs] hits total].
  destruct fetchFn as [[v|e]|]; cbn.
  - destruct (logs && _); reflexivity.
  - destruct (isTimeout e); cbn; [|reflexivity].
    destruct logs, pass, fallbackFn as [[w|fe]|]; reflexivity.
  - destruct logs, pass, fallbackFn as [[w|fe]|]; reflexivity.
Qed.

(** C1, as the code has it. A primary operation that settles first and
    is not taken for a timeout (it fulfils, or it rejects with something
    other than an [Error] whose message contains "timeout") never leads to
    a call of the fallback and never counts as a timeout; when it rejects,
    the rejection is what the caller gets, after the single call of the
    primary. Put the other way round, the fallback runs only when the
    timer fired first or the rejection looked like a timeout. *)
Theorem fetchWithTimeout_fallback_only_when_timeout_like
    tm fetchFn fallbackFn clk :
  Spec.timeout_like fetchFn = false ->
  let run := fetchWithTimeout fetchFn fallbackFn clk tm [] in
  Spec.invoked InvokePassthrough (snd run) = false
  /\ timeoutHits (snd (fst run)) = timeoutHits tm
  /\ forall e, fetchFn = SettlesFirst (JS.Rejected e) ->
       run = (Threw e, bump_totalRequests tm, [InvokeFixture]).
Proof.
  destruct tm as [[ms pass logs] hits total].
  destruct fetchFn as [[v|e]|]; cbn; intros Hlike; try discriminate.
  - destruct (logs && _); cbn; repeat split; intros; discriminate.
  - rewrite Hlike. cbn. repeat split. intros e' [= <-]. reflexivity.
Qed.

Lemma fetchWithTimeout_fallback_only_when_timeout_like_witness :
  Spec.timeout_like (SettlesFirst (JS.Rejected (JS.ErrorObj "ECONNREFUSED"))) = false
  /\ fetchWithTimeout (SettlesFirst (JS.Rejected (JS.ErrorObj "ECONNREFUSED")))
       (Some (JS.Fulfilled (JS.JStr "live"))) (mkReadings 0 5)
       (new (TimeoutBudget.mk 35 true true)) []
     = (Threw (JS.ErrorObj "ECONNREFUSED"),
        mk (TimeoutBudget.mk 35 true true) 0 1, [InvokeFixture]).
Proof.
  split; [reflexivity|].
  destruct (fetchWithTimeout_fallback_only_when_timeout_like
              (new (TimeoutBudget.mk 35 true true))
              (SettlesFirst (JS.Rejected (JS.ErrorObj "ECONNREFUSED")))
              (Some (JS.Fulfilled (JS.JStr "live"))) (mkReadings 0 5)
              eq_refl) as (_ & _ & Hpropagates).
  apply Hpropagates. reflexivity.
Defined.

(** C1, as the specification words it, fails: a primary operation that
    rejects well before the timer, with an [Error] whose message happens
    to contain "timeout", is counted as a timeout and answered by the
    fallback. *)
Lemma fetchWithTimeout_rejection_mentioning_timeout_falls_back :
  fetchWithTimeout
    (SettlesFirst (JS.Rejected (JS.ErrorObj "upstream gateway timeout")))
    (Some (JS.Fulfilled (JS.JStr "live"))) (mkReadings 0 5)
    (new (TimeoutBudget.mk 35 true true)) []
  = (Returned (mkOutcome (JS.JStr "live") true passthrough),
     mk (TimeoutBudget.mk 35 true true) 1 1,
     [InvokeFixture; ConsoleWarn FixtureTimeoutFallingBack; InvokePassthrough]).
Proof. reflexivity. Qed.

Lemma map_imap {A B C} (f : nat -> A -> B) (g : B -> C) (l : list A) :
  map g (imap f l) = imap (fun i x => g (f i x)) l.
Proof.
  revert f. induction l as [|x l IH]; intros f; [reflexivity|].
  cbn. f_equal. apply IH.
Qed.

Lemma settle_all_spec requests : forall fallbacks clks index tm tr,
  exists tm' tr',
    settle_all requests fallbacks clks index tm tr
    = (Returned
         (imap (fun i fetchFn =>
                  Spec.alone tm fetchFn (fallback_at fallbacks (index + i))
                             (clks (index + i)%nat))
               requests),
       tm', tr')
    /\ config tm' = config tm.
Proof.
  induction requests as [|fetchFn rest IH]; intros fallbacks clks index tm tr.
  - exists tm, tr. split; reflexivity.
  - cbn [settle_all]. unfold bind at 1. unfold settle at 1.
    destruct (fetchWithTimeout fetchFn (fallback_at fallbacks index)
                (clks index) tm tr) as [[r tm1] tr1] eqn:Hrun.
    unfold bind at 1.
    destruct (IH fallbacks clks (S index) tm1 tr1) as (tm2 & tr2 & Hrest & Hcfg).
    rewrite Hrest. exists tm2, tr2.
    assert (Hc1 : config tm1 = config tm).
    { change tm1 with (snd (fst (r, tm1, tr1))). rewrite <- Hrun.
      apply fetchWithTimeout_config. }
    split; [|congruence].
    unfold ret. rewrite imap_cons.
    assert (Hr : r = Spec.alone tm fetchFn (fallback_at fallbacks (index + 0))
                                (clks (index + 0)%nat)).
    { unfold Spec.alone. rewrite Nat.add_0_r.
      change r with (fst (fst (r, tm1, tr1))). rewrite <- Hrun.
      apply fetchWithTimeout_result_indep. reflexivity. }
    rewrite <- Hr. do 2 f_equal. f_equal. f_equal.
    apply imap_ext. intros i x _. cbn.
    rewrite Nat.add_succ_r.
    unfold Spec.alone. apply fetchWithTimeout_result_indep. exact Hc1.
Qed.

(** C9. The batch never throws; its result has one outcome per request,
    at the request's index. When the call of a pair, run on its own,
    returns, the outcome at its index is the one it returns; when it
    throws, the outcome at its index is the marker
    [{ result: null, timedOut: true, source: 'passthrough' }], whatever was
    thrown, and the outcomes at the other indices are as they would be
    without it. *)
Theorem fetchMultipleWithTimeout_per_index tm requests fallbacks clks :
  let at_index i fetchFn :=
    match Spec.alone tm fetchFn (fallback_at fallbacks i) (clks i) with
    | Returned value => value
    | Threw _ => mkOutcome JS.JNull true passthrough
    end in
  exists outcomes,
    fst (fst (fetchMultipleWithTimeout requests fallbacks clks tm []))
    = Returned outcomes
    /\ length outcomes = length requests
    /\ outcomes = imap at_index requests
    /\ (forall i fetchFn value,
          requests !! i = Some fetchFn ->
          Spec.alone tm fetchFn (fallback_at fallbacks i) (clks i) = Returned value ->
          outcomes !! i = Some value)
    /\ (forall i fetchFn error,
          requests !! i = Some fetchFn ->
          Spec.alone tm fetchFn (fallback_at fallbacks i) (clks i) = Threw error ->
          exists marker,
            outcomes !! i = Some marker
            /\ result marker = JS.JNull
            /\ timedOut marker = true
            /\ source marker = passthrough).
Proof.
  cbn zeta.
  set (at_index := fun (i : nat) fetchFn =>
         match Spec.alone tm fetchFn (fallback_at fallbacks i) (clks i) with
         | Returned value => value
         | Threw _ => mkOutcome JS.JNull true passthrough
         end).
  exists (imap at_index requests).
  split.
  { unfold fetchMultipleWithTimeout, bind.
    destruct (settle_all_spec requests fallbacks clks 0%nat tm [])
      as (tm' & tr' & Hall & _).
    rewrite Hall. cbn. f_equal. rewrite map_imap. reflexivity. }
  split; [apply length_imap|]. split; [reflexivity|].
  split.
  - intros i fetchFn value Hi Halone.
    rewrite list_lookup_imap, Hi. cbn. unfold at_index. rewrite Halone.
    reflexivity.
  - intros i fetchFn error Hi Halone.
    exists (mkOutcome JS.JNull true passthrough).
    rewrite list_lookup_imap, Hi. cbn. unfold at_index. rewrite Halone.
    repeat split.
Qed.

Lemma fetchMultipleWithTimeout_per_index_witness :
  fst (fst (fetchMultipleWithTimeout
              [SettlesFirst (JS.Fulfilled (JS.JStr "a"));
               SettlesFirst (JS.Rejected (JS.ErrorObj "boom"));
               TimerFirst]
              (Some [JS.Fulfilled (JS.JStr "live a");
                     JS.Fulfilled (JS.JStr "live b");
                     JS.Fulfilled (JS.JStr "live c")])
              (fun _ => mkReadings 0 10)
              (new (TimeoutBudget.mk 35 true true)) []))
  = Returned [mkOutcome (JS.JStr "a") false fixture;
              mkOutcome JS.JNull true passthrough;
              mkOutcome (JS.JStr "live c") true passthrough].
Proof.
  destruct (fetchMultipleWithTimeout_per_index
              (new (TimeoutBudget.mk 35 true true))
              [SettlesFirst (JS.Fulfilled (JS.JStr "a"));
               SettlesFirst (JS.Rejected (JS.ErrorObj "boom"));
               TimerFirst]
              (Some [JS.Fulfilled (JS.JStr "live a");
                     JS.Fulfilled (JS.JStr "live b");
                     JS.Fulfilled (JS.JStr "live c")])
              (fun _ => mkReadings 0 10))
    as (outcomes & Hrun & _ & Hall & _).
  rewrite Hrun, Hall. vm_compute. reflexivity.
Defined.

End TimeoutExecutor.

(** ** The insertion-ordered map *)

Section JsMapFacts.
Context {V : Type}.
Implicit Types (m : JsMap.t V) (k : string) (v : V).

Lemma JsMap_get_delete_eq m k : JsMap.get (JsMap.delete m k) k = None.
Proof.
  unfold JsMap.delete.
  induction m as [|[k' v'] m IH]; [reflexivity|].
  cbn. destruct (String.eqb_spec k' k); cbn; [exact IH|].
  destruct (String.eqb_spec k' k); [contradiction|exact IH].
Qed.

Lemma JsMap_get_delete_ne m k k' :
  k' <> k -> JsMap.get (JsMap.delete m k) k' = JsMap.get m k'.
Proof.
  intros Hne. unfold JsMap.delete.
  induction m as [|[k1 v1] m IH]; [reflexivity|].
  cbn. destruct (String.eqb_spec k1 k) as [->|Hk]; cbn.
  - destruct (String.eqb_spec k k'); [congruence|exact IH].
  - rewrite IH. reflexivity.
Qed.

Lemma JsMap_get_set_eq m k v : JsMap.get (JsMap.set m k v) k = Some v.
Proof.
  induction m as [|[k1 v1] m IH]; cbn.
  - rewrite String.eqb_refl. reflexivity.
  - destruct (String.eqb_spec k1 k) as [->|Hk]; cbn.
    + rewrite String.eqb_refl. reflexivity.
    + destruct (String.eqb_spec k1 k); [contradiction|exact IH].
Qed.

Lemma JsMap_get_set_ne m k k' v :
  k' <> k -> JsMap.get (JsMap.set m k v) k' = JsMap.get m k'.
Proof.
  intros Hne. induction m as [|[k1 v1] m IH]; cbn.
  - destruct (String.eqb_spec k k'); [congruence|reflexivity].
  - destruct (String.eqb_spec k1 k) as [->|Hk]; cbn.
    + destruct (String.eqb_spec k k'); [congruence|reflexivity].
    + rewrite IH. reflexivity.
Qed.

Lemma JsMap_get_None_notin m k :
  JsMap.get m k = None -> ~ In k (map fst m).
Proof.
  induction m as [|[k1 v1] m IH]; cbn; [tauto|].
  destruct (String.eqb_spec k1 k); [discriminate|].
  intros H [Heq|Hin]; [contradiction|]. exact (IH H Hin).
Qed.

Lemma JsMap_get_Some_in m k v :
  JsMap.get m k = Some v -> In (k, v) m.
Proof.
  induction m as [|[k1 v1] m IH]; cbn; [discriminate|].
  destruct (String.eqb_spec k1 k) as [->|Hk].
  - intros [= ->]. left. reflexivity.
  - intros H. right. exact (IH H).
Qed.

Lemma JsMap_delete_notin m k :
  ~ In k (map fst m) -> JsMap.delete m k = m.
Proof.
  unfold JsMap.delete.
  induction m as [|[k1 v1] m IH]; cbn; [reflexivity|].
  intros Hnot. destruct (String.eqb_spec k1 k) as [->|Hk]; cbn.
  - exfalso. apply Hnot. left. reflexivity.
  - f_equal. apply IH. tauto.
Qed.

Lemma JsMap_set_notin m k v :
  ~ In k (map fst m) -> JsMap.set m k v = m ++ [(k, v)].
Proof.
  induction m as [|[k1 v1] m IH]; cbn; [reflexivity|].
  intros Hnot. destruct (String.eqb_spec k1 k) as [->|Hk].
  - exfalso. apply Hnot. left. reflexivity.
  - f_equal. apply IH. tauto.
Qed.

Lemma JsMap_keys_delete m k :
  map fst (JsMap.delete m k)
  = List.filter (fun k' => negb (String.eqb k' k)) (map fst m).
Proof.
  unfold JsMap.delete.
  induction m as [|[k1 v1] m IH]; [reflexivity|].
  cbn. destruct (String.eqb k1 k); cbn; rewrite IH; reflexivity.
Qed.

Lemma JsMap_delete_middle (m1 m2 : JsMap.t V) k v :
  NoDup (map fst (m1 ++ (k, v) :: m2)) ->
  JsMap.delete (m1 ++ (k, v) :: m2) k = m1 ++ m2.
Proof.
  rewrite map_app. cbn. intros Hnd.
  apply NoDup_ListNoDup, NoDup_remove_2 in Hnd. rewrite in_app_iff in Hnd.
  unfold JsMap.delete. rewrite List.filter_app. cbn.
  rewrite String.eqb_refl. cbn.
  fold (JsMap.delete m1 k). fold (JsMap.delete m2 k).
  rewrite !JsMap_delete_notin by tauto. reflexivity.
Qed.

Lemma JsMap_length_set m k v :
  (length (JsMap.set m k v) <= S (length m))%nat.
Proof.
  induction m as [|[k1 v1] m IH]; cbn; [lia|].
  destruct (String.eqb k1 k); cbn; lia.
Qed.

Lemma JsMap_keys_set m k v :
  map fst (JsMap.set m k v)
  = if JsMap.has m k then map fst m else map fst m ++ [k].
Proof.
  unfold JsMap.has.
  induction m as [|[k1 v1] m IH]; cbn; [reflexivity|].
  destruct (String.eqb_spec k1 k) as [->|Hk]; cbn; [reflexivity|].
  rewrite IH. destruct (JsMap.get m k); reflexivity.
Qed.

Lemma wf_store_nil : Spec.wf_store (V := V) [].
Proof. split; constructor. Qed.

Lemma wf_store_delete m k : Spec.wf_store m -> Spec.wf_store (JsMap.delete m k).
Proof.
  intros [Hnd Hne]. unfold Spec.wf_store. rewrite JsMap_keys_delete. split.
  - apply NoDup_ListNoDup, List.NoDup_filter, NoDup_ListNoDup. exact Hnd.
  - rewrite Forall_forall in *. intros x Hx.
    apply list_elem_of_In, filter_In in Hx.
    apply Hne, list_elem_of_In. tauto.
Qed.

Lemma wf_store_set m k v :
  k <> ""%string -> Spec.wf_store m -> Spec.wf_store (JsMap.set m k v).
Proof.
  intros Hk [Hnd Hne]. unfold Spec.wf_store. rewrite JsMap_keys_set.
  unfold JsMap.has. destruct (JsMap.get m k) eqn:Hget; [split; assumption|].
  apply JsMap_get_None_notin in Hget. split.
  - apply NoDup_app. repeat split; try assumption.
    + intros x Hx Hx'. apply list_elem_of_In in Hx, Hx'.
      destruct Hx' as [<-|[]]. contradiction.
    + apply NoDup_singleton.
  - apply Forall_app. split; [assumption|]. constructor; [assumption|constructor].
Qed.

End JsMapFacts.

(** ** The response cache: lookup and expiry *)

Section CacheLookup.
Import ResponseCache.

Lemma JsMap_last_set_fresh {V} (m : JsMap.t V) k v :
  last (JsMap.set (JsMap.delete m k) k v) = Some (k, v).
Proof.
  rewrite JsMap_set_notin.
  - apply last_snoc.
  - apply JsMap_get_None_notin, JsMap_get_delete_eq.
Qed.

(** The entry under a key right after [set] is the one [set] built. *)
Lemma set_lookup c cacheKey data ttlMs now evictNow :
  JsMap.get (cache (set c cacheKey data ttlMs now evictNow)) (generateKey cacheKey)
  = Some (Spec.fresh_entry c cacheKey data ttlMs now).
Proof.
  unfold set. destruct (JsMap.size (cache c) >=? maxEntries c); cbn.
  - unfold evictLRU. destruct (fst (oldest (cache c) evictNow)) as [k|];
      [destruct (String.eqb k "")|]; apply JsMap_get_set_eq.
  - apply JsMap_get_set_eq.
Qed.

(** What a [get] does, by the age of the entry it finds. *)
Lemma get_by_age s cacheKey now :
  let key := generateKey cacheKey in
  let r := get s cacheKey now in
  let hits c := PerformanceMetrics.cacheHits (metrics c) in
  let misses c := PerformanceMetrics.cacheMisses (metrics c) in
  (forall k, k <> key -> JsMap.get (cache (snd r)) k = JsMap.get (cache s) k)
  /\ (forall entry t0 T,
        JsMap.get (cache s) key = Some entry ->
        CacheEntry.timestamp entry = t0 -> CacheEntry.ttl entry = T ->
        (now - t0 <= T ->
           fst r = CacheEntry.data entry
           /\ hits (snd r) = hits s + 1 /\ misses (snd r) = misses s
           /\ last (cache (snd r)) = Some (key, touch entry now)
           /\ CacheEntry.hitCount (touch entry now) = CacheEntry.hitCount entry + 1
           /\ CacheEntry.lastAccess (touch entry now) = now
           /\ CacheEntry.timestamp (touch entry now) = t0
           /\ CacheEntry.ttl (touch entry now) = T)
        /\ (T < now - t0 ->
              fst r = JS.JNull
              /\ hits (snd r) = hits s /\ misses (snd r) = misses s + 1
              /\ JsMap.get (cache (snd r)) key = None))
  /\ (JsMap.get (cache s) key = None ->
        fst r = JS.JNull
        /\ hits (snd r) = hits s /\ misses (snd r) = misses s + 1
        /\ cache (snd r) = cache s).
Proof.
  cbn zeta. unfold get.
  destruct (JsMap.get (cache s) (generateKey cacheKey)) as [e|] eqn:Hget.
  - unfold expired.
    destruct (Z.gtb_spec (now - CacheEntry.timestamp e) (CacheEntry.ttl e))
      as [Hexp|Hlive]; cbn.
    + split; [intros k Hk; apply JsMap_get_delete_ne; exact Hk|].
      split; [|discriminate].
      intros entry t0 T [= <-] <- <-. split; [lia|].
      intros _. repeat split. apply JsMap_get_delete_eq.
    + split.
      { intros k Hk. rewrite JsMap_get_set_ne by exact Hk.
        apply JsMap_get_delete_ne; exact Hk. }
      split; [|discriminate].
      intros entry t0 T [= <-] <- <-. split; [|lia].
      intros _. repeat split. apply JsMap_last_set_fresh.
  - cbn. split; [reflexivity|]. split; [discriminate|].
    intros _. repeat split.
Qed.

Lemma set_keeps_metrics c cacheKey data ttlMs now evictNow :
  metrics (set c cacheKey data ttlMs now evictNow) = metrics c.
Proof.
  unfold set. destruct (JsMap.size (cache c) >=? maxEntries c); [|reflexivity].
  unfold evictLRU. destruct (fst (oldest (cache c) evictNow)) as [k|];
    [destruct (String.eqb k "")|]; reflexivity.
Qed.

(** C6, as the code has it. [set] at [t0] with the argument [ttlMs]
    stores under the key an entry with timestamp [t0], no hits yet, and the
    time-to-live [T = ttlMs || defaultTtlMs]: the argument when it is given
    and not 0, the default of the cache when it is missing or 0. A [get] of
    that entry at [now] with [now - t0 <= T] returns the data that was set,
    counts one hit and no miss, and leaves under the key the entry with its
    hit counter at 1 and [lastAccess = now], at the end of the iteration
    order; a [get] with [now - t0 > T] returns [null], counts one miss and no
    hit, and removes the entry.

    The same holds of whatever entry a store [s] holds under the key, by
    its timestamp [t0] and its time-to-live [T]: hit, hit counter one higher
    and [lastAccess = now] while [now - t0 <= T]; miss and removal after. A
    [get] with no entry under the key returns [null], counts one miss and
    leaves the store as it is. No other key is affected in any case. *)
Theorem get_hit_until_ttl_then_miss c cacheKey data ttlMs t0 evictNow s now :
  let key := generateKey cacheKey in
  let T := JS.opt_num_or ttlMs (defaultTtlMs c) in
  let written := set c cacheKey data ttlMs t0 evictNow in
  let r := get written cacheKey now in
  let hits c := PerformanceMetrics.cacheHits (metrics c) in
  let misses c := PerformanceMetrics.cacheMisses (metrics c) in
  JsMap.get (cache written) key
  = Some (CacheEntry.mk data t0 T (CacheKey.route cacheKey) (CacheKey.params cacheKey)
            (CacheKey.scenario cacheKey) (CacheKey.seed cacheKey) 0 t0)
  /\ (forall given, ttlMs = Some given -> given <> 0 -> T = given)
  /\ (ttlMs = None \/ ttlMs = Some 0 -> T = defaultTtlMs c)
  /\ hits written = hits c /\ misses written = misses c
  /\ (now - t0 <= T ->
        fst r = data
        /\ hits (snd r) = hits c + 1 /\ misses (snd r) = misses c
        /\ last (cache (snd r))
           = Some (key,
                   CacheEntry.mk data t0 T (CacheKey.route cacheKey)
                     (CacheKey.params cacheKey) (CacheKey.scenario cacheKey)
                     (CacheKey.seed cacheKey) 1 now))
  /\ (T < now - t0 ->
        fst r = JS.JNull
        /\ hits (snd r) = hits c /\ misses (snd r) = misses c + 1
        /\ JsMap.get (cache (snd r)) key = None)
  /\ (let r := get s cacheKey now in
      (forall k, k <> key -> JsMap.get (cache (snd r)) k = JsMap.get (cache s) k)
      /\ (forall entry t0 T,
            JsMap.get (cache s) key = Some entry ->
            CacheEntry.timestamp entry = t0 -> CacheEntry.ttl entry = T ->
            (now - t0 <= T ->
               fst r = CacheEntry.data entry
               /\ hits (snd r) = hits s + 1 /\ misses (snd r) = misses s
               /\ last (cache (snd r)) = Some (key, touch entry now)
               /\ CacheEntry.hitCount (touch entry now) = CacheEntry.hitCount entry + 1
               /\ CacheEntry.lastAccess (touch entry now) = now
               /\ CacheEntry.timestamp (touch entry now) = t0
               /\ CacheEntry.ttl (touch entry now) = T)
            /\ (T < now - t0 ->
                  fst r = JS.JNull
                  /\ hits (snd r) = hits s /\ misses (snd r) = misses s + 1
                  /\ JsMap.get (cache (snd r)) key = None))
      /\ (JsMap.get (cache s) key = None ->
            fst r = JS.JNull
            /\ hits (snd r) = hits s /\ misses (snd r) = misses s + 1
            /\ cache (snd r) = cache s)).
Proof.
  cbn zeta.
  pose proof (set_lookup c cacheKey data ttlMs t0 evictNow) as Hentry.
  unfold Spec.fresh_entry in Hentry.
  pose proof (set_keeps_metrics c cacheKey data ttlMs t0 evictNow) as Hmetrics.
  split; [exact Hentry|].
  split.
  { intros given -> Hgiven. unfold JS.opt_num_or, JS.num_or.
    destruct (Z.eqb_spec given 0); [contradiction|reflexivity]. }
  split; [intros [->| ->]; reflexivity|].
  split; [rewrite Hmetrics; reflexivity|].
  split; [rewrite Hmetrics; reflexivity|].
  destruct (get_by_age (set c cacheKey data ttlMs t0 evictNow) cacheKey now)
    as (_ & Hfound & _).
  cbn zeta in Hfound.
  destruct (Hfound _ t0 (JS.opt_num_or ttlMs (defaultTtlMs c)) Hentry
              eq_refl eq_refl) as [Hlive Hlate].
  rewrite Hmetrics in Hlive, Hlate.
  split.
  { intros Hage. destruct (Hlive Hage) as (Hres & Hhit & Hmiss & Hlast & _).
    repeat split; assumption. }
  split; [exact Hlate|].
  exact (get_by_age s cacheKey now).
Qed.

Lemma get_hit_until_ttl_then_miss_witness :
  let ck := CacheKey.mk "/api/users" "limit=5" "baseline" 42 in
  let c := set (new (Some 10) (Some 1000)) ck (JS.JStr "users") (Some 250) 100 100 in
  fst (get c ck 350) = JS.JStr "users"
  /\ fst (get c ck 351) = JS.JNull
  /\ fst (get (new (Some 10) (Some 1000)) ck 100) = JS.JNull.
Proof.
  cbn zeta.
  pose (ck := CacheKey.mk "/api/users" "limit=5" "baseline" 42).
  pose (c0 := new (Some 10) (Some 1000)).
  destruct (get_hit_until_ttl_then_miss c0 ck (JS.JStr "users") (Some 250) 100 100
              c0 350) as (_ & _ & _ & _ & _ & Hlive & _ & _).
  destruct (get_hit_until_ttl_then_miss c0 ck (JS.JStr "users") (Some 250) 100 100
              c0 351) as (_ & _ & _ & _ & _ & _ & Hlate & _).
  destruct (get_hit_until_ttl_then_miss c0 ck (JS.JStr "users") (Some 250) 100 100
              c0 100) as (_ & _ & _ & _ & _ & _ & _ & _ & _ & Habsent).
  split; [apply Hlive; vm_compute; discriminate|].
  split; [apply Hlate; vm_compute; reflexivity|].
  apply Habsent. reflexivity.
Defined.

(** C6, as the specification words it, fails for [T = 0]: an entry set
    with a time-to-live of 0 is given the default of the cache and is still
    returned, and counted as a hit, at an age that exceeds 0. *)
Lemma set_with_zero_ttl_lives_for_default_ttl :
  let ck := CacheKey.mk "/api/users" "limit=5" "baseline" 42 in
  let c := set (new (Some 10) (Some 1000)) ck (JS.JStr "users") (Some 0) 100 100 in
  0 < 101 - 100
  /\ fst (get c ck 101) = JS.JStr "users"
  /\ PerformanceMetrics.cacheHits (metrics (snd (get c ck 101))) = 1
  /\ PerformanceMetrics.cacheMisses (metrics (snd (get c ck 101))) = 0
  /\ fst (get c ck 1100) = JS.JStr "users"
  /\ fst (get c ck 1101) = JS.JNull.
Proof. vm_compute. repeat split; discriminate. Qed.

End CacheLookup.

(** ** The response cache: eviction *)

Section CacheEviction.
Import ResponseCache.

#[local] Abbreviation la kv := (CacheEntry.lastAccess (snd kv)).

(** The scan of [evictLRU] from any starting point: either nothing is
    strictly below the starting time and the accumulator is returned, or
    the scan stops on the first of the entries with the least time. *)
Lemma oldest_scan (m : JsMap.t CacheEntry.t) : forall acc,
  (fold_left oldest_step m acc = acc
   /\ Forall (fun kv => snd acc <= la kv) m)
  \/ (exists m1 k e m2,
        m = m1 ++ (k, e) :: m2
        /\ fold_left oldest_step m acc = (Some k, CacheEntry.lastAccess e)
        /\ CacheEntry.lastAccess e < snd acc
        /\ Spec.first_oldest m1 e m2).
Proof.
  induction m as [|[k e] m IH]; intros [ok ot].
  - left. split; [reflexivity|constructor].
  - cbn [fold_left].
    assert (Hstep : oldest_step (ok, ot) (k, e)
                    = if Z.ltb (CacheEntry.lastAccess e) ot
                      then (Some k, CacheEntry.lastAccess e) else (ok, ot))
      by reflexivity.
    rewrite Hstep. clear Hstep. cbn [fst snd].
    destruct (Z.ltb_spec (CacheEntry.lastAccess e) ot) as [Hlt|Hge].
    + right.
      destruct (IH (Some k, CacheEntry.lastAccess e))
        as [[Hsame Hall]|(m1 & k' & e' & m2 & -> & Hres & Hlt' & Hbefore & Hafter)].
      * exists [], k, e, m. cbn [snd] in Hall.
        repeat split; try assumption; constructor.
      * exists ((k, e) :: m1), k', e', m2. cbn [snd] in Hlt'.
        repeat split; try assumption; [lia|].
        constructor; [exact Hlt'|exact Hbefore].
    + destruct (IH (ok, ot))
        as [[Hsame Hall]|(m1 & k' & e' & m2 & -> & Hres & Hlt' & Hbefore & Hafter)].
      * left. split; [exact Hsame|]. constructor; [exact Hge|exact Hall].
      * right. exists ((k, e) :: m1), k', e', m2. cbn [snd] in Hlt'.
        repeat split; try assumption.
        constructor; [cbn; lia|exact Hbefore].
Qed.

Lemma oldest_is_scan m now :
  oldest m now = fold_left oldest_step m (None, now).
Proof. reflexivity. Qed.

(** With an entry older than the clock reading, [evictLRU] removes the
    first of the oldest entries and nothing else. *)
Lemma evictLRU_removes_first_oldest c now :
  Spec.wf_store (cache c) -> Spec.some_older (cache c) now ->
  exists m1 k e m2,
    cache c = m1 ++ (k, e) :: m2
    /\ Spec.first_oldest m1 e m2
    /\ cache (evictLRU c now) = m1 ++ m2.
Proof.
  intros [Hnd Hne] Hold. unfold evictLRU. rewrite oldest_is_scan.
  destruct (oldest_scan (cache c) (None, now))
    as [[_ Hall]|(m1 & k & e & m2 & Hsplit & Hres & _ & Hfirst)].
  - exfalso. unfold Spec.some_older in Hold.
    rewrite Exists_exists in Hold. destruct Hold as (kv & Hin & Hlt).
    rewrite Forall_forall in Hall. specialize (Hall kv Hin). cbn in Hall. lia.
  - exists m1, k, e, m2. rewrite Hres. cbn [fst].
    assert (Hk : k <> ""%string).
    { rewrite Forall_forall in Hne. apply Hne. rewrite Hsplit, map_app.
      apply list_elem_of_In, in_or_app. right. left. reflexivity. }
    destruct (String.eqb_spec k ""); [contradiction|].
    split; [exact Hsplit|]. split; [exact Hfirst|].
    change (JsMap.delete (cache c) k = m1 ++ m2).
    rewrite Hsplit. apply JsMap_delete_middle. rewrite <- Hsplit. exact Hnd.
Qed.

(** Without one, [evictLRU] removes nothing. *)
Lemma evictLRU_none_older c now :
  Forall (fun kv => now <= la kv) (cache c) -> evictLRU c now = c.
Proof.
  intros Hall. unfold evictLRU. rewrite oldest_is_scan.
  destruct (oldest_scan (cache c) (None, now))
    as [[-> _]|(m1 & k & e & m2 & Hsplit & _ & Hlt & _)]; [reflexivity|].
  exfalso. rewrite Forall_forall in Hall.
  specialize (Hall (k, e)). cbn in *.
  assert (now <= CacheEntry.lastAccess e); [|lia].
  apply Hall. rewrite Hsplit. apply list_elem_of_In, in_or_app. right. left.
  reflexivity.
Qed.

Lemma generateKey_nonempty cacheKey : generateKey cacheKey <> ""%string.
Proof.
  unfold generateKey. destruct (normalizeRoute _); discriminate.
Qed.

Lemma evictLRU_wf c now :
  Spec.wf_store (cache c) -> Spec.wf_store (cache (evictLRU c now)).
Proof.
  intros Hwf. unfold evictLRU.
  destruct (fst (oldest (cache c) now)) as [k|]; [|exact Hwf].
  destruct (String.eqb k ""); [exact Hwf|].
  apply wf_store_delete. exact Hwf.
Qed.

(** The invariant holds of a new cache and is kept by [set] and [get]. *)
Lemma new_wf a b : Spec.wf_store (cache (new a b)).
Proof. apply wf_store_nil. Qed.

Lemma set_wf c cacheKey data ttlMs now evictNow :
  Spec.wf_store (cache c) ->
  Spec.wf_store (cache (set c cacheKey data ttlMs now evictNow)).
Proof.
  intros Hwf. unfold set. cbn.
  apply wf_store_set; [apply generateKey_nonempty|].
  destruct (JsMap.size (cache c) >=? maxEntries c);
    [apply evictLRU_wf|]; exact Hwf.
Qed.

Lemma get_wf c cacheKey now :
  Spec.wf_store (cache c) -> Spec.wf_store (cache (snd (get c cacheKey now))).
Proof.
  intros Hwf. unfold get.
  destruct (JsMap.get (cache c) (generateKey cacheKey)) as [e|]; [|exact Hwf].
  destruct (expired e now); cbn.
  - apply wf_store_delete. exact Hwf.
  - apply wf_store_set; [apply generateKey_nonempty|].
    apply wf_store_delete. exact Hwf.
Qed.

(** C5, as the code has it. Take a store without repeated keys in which,
    whenever it is at capacity, some entry was last accessed before the
    clock reading of [evictLRU]. Then a [set] below capacity evicts
    nothing; a [set] at capacity, of a fresh key or of a present one,
    evicts exactly one entry, the first in iteration order among those
    with the least [lastAccess], before it inserts; and a store within
    [maxEntries] stays within [maxEntries]. *)
Theorem set_evicts_first_oldest_at_capacity c cacheKey data ttlMs now evictNow :
  Spec.wf_store (cache c) ->
  (maxEntries c <= JsMap.size (cache c) -> Spec.some_older (cache c) evictNow) ->
  let key := generateKey cacheKey in
  let entry := Spec.fresh_entry c cacheKey data ttlMs now in
  let c' := set c cacheKey data ttlMs now evictNow in
  (JsMap.size (cache c) < maxEntries c ->
     cache c' = JsMap.set (cache c) key entry)
  /\ (maxEntries c <= JsMap.size (cache c) ->
        exists m1 k e m2,
          cache c = m1 ++ (k, e) :: m2
          /\ Spec.first_oldest m1 e m2
          /\ cache c' = JsMap.set (m1 ++ m2) key entry)
  /\ (JsMap.size (cache c) <= maxEntries c ->
        JsMap.size (cache c') <= maxEntries c).
Proof.
  intros Hwf Hold. cbn zeta. unfold set.
  destruct (Z.geb_spec (JsMap.size (cache c)) (maxEntries c)) as [Hfull|Hroom].
  - destruct (evictLRU_removes_first_oldest c evictNow Hwf)
      as (m1 & k & e & m2 & Hsplit & Hfirst & Hevict); [apply Hold; lia|].
    split; [lia|]. split.
    + intros _. exists m1, k, e, m2. cbn. rewrite Hevict. tauto.
    + intros Hle. cbn. rewrite Hevict. unfold JsMap.size in *.
      pose proof (JsMap_length_set (m1 ++ m2) (generateKey cacheKey)
                    (Spec.fresh_entry c cacheKey data ttlMs now)) as Hlen.
      unfold Spec.fresh_entry in Hlen.
      rewrite Hsplit in Hle. rewrite length_app in *. cbn [length] in Hle. lia.
  - split; [reflexivity|]. split; [lia|].
    intros _. cbn. unfold JsMap.size in *.
    pose proof (JsMap_length_set (cache c) (generateKey cacheKey)
                  (Spec.fresh_entry c cacheKey data ttlMs now)) as Hlen.
    unfold Spec.fresh_entry in Hlen. lia.
Qed.

Lemma set_evicts_first_oldest_at_capacity_witness :
  let a := CacheKey.mk "/api/a" "" "baseline" 42 in
  let b := CacheKey.mk "/api/b" "" "baseline" 42 in
  let d := CacheKey.mk "/api/d" "" "baseline" 42 in
  let c := set (set (new (Some 2) (Some 1000)) a (JS.JNum 1) None 10 10)
               b (JS.JNum 2) None 20 20 in
  Spec.wf_store (cache c)
  /\ (maxEntries c <= JsMap.size (cache c) -> Spec.some_older (cache c) 30)
  /\ JsMap.size (cache (set c d (JS.JNum 3) None 30 30)) <= maxEntries c.
Proof.
  intros a b d c.
  assert (Hwf : Spec.wf_store (cache c)) by (do 2 apply set_wf; apply new_wf).
  assert (Hold : maxEntries c <= JsMap.size (cache c) ->
                 Spec.some_older (cache c) 30)
    by (intros _; apply Exists_cons_hd; cbn; lia).
  split; [exact Hwf|]. split; [exact Hold|].
  apply (set_evicts_first_oldest_at_capacity c d (JS.JNum 3) None 30 30 Hwf Hold).
  vm_compute. discriminate.
Defined.

(** C5, as the specification words it, fails twice. Replacing a present
    key at capacity evicts another entry although no key is new; and an
    insertion at capacity within the millisecond of the last accesses
    evicts nothing, leaving more than [maxEntries] entries. *)
Lemma set_evicts_for_present_key_and_overflows_within_a_millisecond :
  let a := CacheKey.mk "/api/a" "" "baseline" 42 in
  let b := CacheKey.mk "/api/b" "" "baseline" 42 in
  (let c := set (set (new (Some 2) (Some 1000)) a (JS.JNum 1) None 10 10)
                b (JS.JNum 2) None 20 20 in
   JsMap.has (cache c) (generateKey b) = true
   /\ JsMap.size (cache c) = maxEntries c
   /\ map fst (cache (set c b (JS.JNum 3) None 30 30)) = [generateKey b])
  /\ (let c := set (new (Some 1) (Some 1000)) a (JS.JNum 1) None 10 10 in
      JsMap.size (cache c) = maxEntries c
      /\ JsMap.has (cache c) (generateKey b) = false
      /\ map fst (cache (set c b (JS.JNum 2) None 10 10))
         = [generateKey a; generateKey b]
      /\ maxEntries (set c b (JS.JNum 2) None 10 10) = 1).
Proof. vm_compute. repeat split. Qed.

End CacheEviction.

(** ** Cache keys: parameter order *)

Section ParamOrder.
Import ResponseCache.

Lemma key_le_trans_bool (a b c : string) :
  String.leb a b = true -> String.leb b c = true -> String.leb a c = true.
Proof.
  unfold String.leb. revert b c.
  induction a as [|x a IH]; intros [|y b] [|z c]; cbn; try easy.
  unfold Ascii.compare.
  destruct (N.compare_spec (N_of_ascii x) (N_of_ascii y)) as [Hxy|Hxy|Hxy];
    destruct (N.compare_spec (N_of_ascii y) (N_of_ascii z)) as [Hyz|Hyz|Hyz];
    destruct (N.compare_spec (N_of_ascii x) (N_of_ascii z)) as [Hxz|Hxz|Hxz];
    try easy; try lia.
  apply IH.
Qed.

#[local] Instance key_le_transitive : Transitive key_le.
Proof. intros a b c. apply key_le_trans_bool. Qed.

#[local] Instance key_le_antisym : AntiSymm (=) key_le.
Proof. intros a b. apply String.leb_antisym. Qed.

#[local] Instance key_le_total : Total key_le.
Proof. intros a b. apply String.leb_total. Qed.

(** Sorting forgets the order its input came in. *)
Lemma sort_keys_perm (l1 l2 : list string) :
  l1 ≡ₚ l2 -> merge_sort key_le l1 = merge_sort key_le l2.
Proof.
  intros Hperm. apply (Sorted_unique key_le).
  - apply Sorted_merge_sort, _.
  - apply Sorted_merge_sort, _.
  - rewrite !merge_sort_Permutation. exact Hperm.
Qed.

Lemma USP_get_in (l : URLSearchParams.t) k v :
  NoDup (URLSearchParams.keys l) -> In (k, v) l ->
  URLSearchParams.get l k = Some v.
Proof.
  unfold URLSearchParams.keys.
  induction l as [|[k1 v1] l IH]; cbn; [tauto|].
  intros Hnd [Heq|Hin].
  - injection Heq as -> ->. rewrite String.eqb_refl. reflexivity.
  - apply NoDup_cons in Hnd. destruct Hnd as [Hnot Hnd].
    destruct (String.eqb_spec k1 k) as [->|Hne]; [|auto].
    exfalso. apply Hnot, list_elem_of_In, in_map_iff.
    exists (k, v). split; [reflexivity|exact Hin].
Qed.

Lemma USP_get_some_in (l : URLSearchParams.t) k v :
  URLSearchParams.get l k = Some v -> In (k, v) l.
Proof.
  induction l as [|[k1 v1] l IH]; cbn; [discriminate|].
  destruct (String.eqb_spec k1 k) as [->|Hne].
  - intros [= ->]. left. reflexivity.
  - intros H. right. exact (IH H).
Qed.

Lemma USP_get_none_notin (l : URLSearchParams.t) k :
  URLSearchParams.get l k = None -> ~ In k (URLSearchParams.keys l).
Proof.
  induction l as [|[k1 v1] l IH]; cbn; [tauto|].
  destruct (String.eqb_spec k1 k); [discriminate|].
  intros H [Heq|Hin]; [contradiction|]. exact (IH H Hin).
Qed.

(** Without repeated keys the value read under a key does not depend on
    the order of the pairs. *)
Lemma USP_get_perm (l1 l2 : URLSearchParams.t) k :
  NoDup (URLSearchParams.keys l1) -> l1 ≡ₚ l2 ->
  URLSearchParams.get l1 k = URLSearchParams.get l2 k.
Proof.
  intros Hnd Hperm.
  assert (Hnd2 : NoDup (URLSearchParams.keys l2)).
  { unfold URLSearchParams.keys in *. rewrite <- Hperm. exact Hnd. }
  destruct (URLSearchParams.get l1 k) as [v|] eqn:H1.
  - symmetry. apply USP_get_in; [exact Hnd2|].
    apply USP_get_some_in in H1.
    apply list_elem_of_In. rewrite <- Hperm. apply list_elem_of_In. exact H1.
  - destruct (URLSearchParams.get l2 k) as [v|] eqn:H2; [|reflexivity].
    exfalso. apply USP_get_none_notin in H1. apply H1.
    apply USP_get_some_in in H2. unfold URLSearchParams.keys.
    apply list_elem_of_In. rewrite Hperm. apply list_elem_of_In, in_map_iff.
    exists (k, v). split; [reflexivity|exact H2].
Qed.

(** The pairs that [normalizeParams] serializes. *)
Lemma normalizeParams_of_pairs params pairs :
  URLSearchParams.construct params = Some pairs ->
  normalizeParams params
  = URLSearchParams.toString
      (fold_left
         (fun acc key =>
            URLSearchParams.set acc key
              (match URLSearchParams.get pairs key with
               | Some v => JS.str_or v ""
               | None => ""%string
               end))
         (merge_sort key_le (URLSearchParams.keys pairs)) []).
Proof.
  unfold normalizeParams, normalizeParams_with. intros Hctor. rewrite Hctor.
  destruct (String.eqb_spec params "") as [->|_]; [|reflexivity].
  injection Hctor as <-. reflexivity.
Qed.

Lemma fold_left_pointwise {A B} (f g : A -> B -> A) (l : list B) (a : A) :
  (forall x y, f x y = g x y) -> fold_left f l a = fold_left g l a.
Proof.
  intros Hfg. revert a. induction l as [|y l IH]; intros a; [reflexivity|].
  cbn. rewrite Hfg. apply IH.
Qed.

(** C7, as the code has it. Two parameter strings whose parsed pairs are
    permutations of one another, no key occurring twice, give the same
    cache key for the same route, scenario and seed; and whenever the
    [URLSearchParams] constructor throws, the parameter string is its own
    canonical form. *)
Theorem generateKey_ignores_param_order :
  (forall route scenario seed p1 p2 l1 l2,
      URLSearchParams.construct p1 = Some l1 ->
      URLSearchParams.construct p2 = Some l2 ->
      l1 ≡ₚ l2 ->
      NoDup (URLSearchParams.keys l1) ->
      generateKey (CacheKey.mk route p1 scenario seed)
      = generateKey (CacheKey.mk route p2 scenario seed))
  /\ (forall ctor params,
        ctor params = None -> normalizeParams_with ctor params = params).
Proof.
  split.
  - intros route scenario seed p1 p2 l1 l2 H1 H2 Hperm Hnd.
    unfold generateKey. cbn [CacheKey.route CacheKey.params CacheKey.scenario CacheKey.seed].
    rewrite (normalizeParams_of_pairs p1 l1 H1), (normalizeParams_of_pairs p2 l2 H2).
    rewrite (sort_keys_perm (URLSearchParams.keys l1) (URLSearchParams.keys l2))
      by (unfold URLSearchParams.keys; rewrite Hperm; reflexivity).
    do 4 f_equal. apply fold_left_pointwise. intros acc key.
    rewrite (USP_get_perm l1 l2 key Hnd Hperm). reflexivity.
  - intros ctor params Hthrows. unfold normalizeParams_with. rewrite Hthrows.
    destruct (String.eqb_spec params "") as [->|_]; reflexivity.
Qed.

Lemma generateKey_ignores_param_order_witness :
  generateKey (CacheKey.mk "/api/users" "?b=2&a=1" "baseline" 42)
  = generateKey (CacheKey.mk "/api/users" "?a=1&b=2" "baseline" 42)
  /\ normalizeParams_with (fun _ => None) "%E0%A4%A" = "%E0%A4%A"%string.
Proof.
  destruct generateKey_ignores_param_order as [Horder Hraw].
  split.
  - apply (Horder "/api/users" "baseline" 42 "?b=2&a=1" "?a=1&b=2"
                  [("b", "2"); ("a", "1")] [("a", "1"); ("b", "2")])%string.
    + reflexivity.
    + reflexivity.
    + apply perm_swap.
    + apply NoDup_cons. split; [|apply NoDup_singleton].
      intros Hin. apply list_elem_of_In in Hin. cbn in Hin.
      destruct Hin as [Heq|[]]. discriminate Heq.
  - apply Hraw. reflexivity.
Defined.

(** C7, as the specification words it, fails when a key is repeated: the
    two strings below hold the same two pairs in either order, and their
    cache keys differ. *)
Lemma generateKey_depends_on_order_of_repeated_key :
  URLSearchParams.construct "a=1&a=2" = Some [("a", "1"); ("a", "2")]%string
  /\ URLSearchParams.construct "a=2&a=1" = Some [("a", "2"); ("a", "1")]%string
  /\ generateKey (CacheKey.mk "/api/users" "a=1&a=2" "baseline" 42)
     = "/api/users:a=1:baseline:42"%string
  /\ generateKey (CacheKey.mk "/api/users" "a=2&a=1" "baseline" 42)
     = "/api/users:a=2:baseline:42"%string.
Proof. repeat split. Qed.

End ParamOrder.

(** ** Cache keys: which requests share an entry *)

Section KeyIdentity.
Import ResponseCache.

Lemma has_char_append c (a b : string) :
  JS.has_char c (String.append a b) = JS.has_char c a || JS.has_char c b.
Proof.
  induction a as [|x a IH]; [reflexivity|].
  cbn. rewrite IH. apply orb_assoc.
Qed.

Lemma string_append_assoc (a b c : string) :
  String.append (String.append a b) c = String.append a (String.append b c).
Proof. induction a as [|x a IH]; [reflexivity|]. cbn. rewrite IH. reflexivity. Qed.

(** A colon-free prefix is determined by the text up to the first colon. *)
Lemma split_at_first_colon (a a' x x' : string) :
  Spec.colon_free a -> Spec.colon_free a' ->
  String.append a (String ":" x) = String.append a' (String ":" x') ->
  a = a' /\ x = x'.
Proof.
  unfold Spec.colon_free. revert a'.
  induction a as [|c a IH]; intros [|c' a']; cbn.
  - intros _ _ [= ->]. split; reflexivity.
  - intros _ H [= <- _]. discriminate H.
  - intros H _ [= -> _]. discriminate H.
  - intros H H' [= <- Hrest].
    apply orb_false_iff in H, H'. destruct H as [_ H], H' as [_ H'].
    destruct (IH a' H H' Hrest) as [-> ->]. split; reflexivity.
Qed.

(** A colon-free suffix is determined by the text after the last colon. *)
Lemma split_at_last_colon (x x' b b' : string) :
  Spec.colon_free b -> Spec.colon_free b' ->
  String.append x (String ":" b) = String.append x' (String ":" b') ->
  x = x' /\ b = b'.
Proof.
  unfold Spec.colon_free. intros Hb Hb'. revert x'.
  induction x as [|c x IH]; intros [|c' x']; cbn.
  - intros [= ->]. split; reflexivity.
  - intros [= <- ->]. rewrite has_char_append in Hb. cbn in Hb.
    rewrite orb_true_r in Hb. discriminate Hb.
  - intros [= -> <-]. rewrite has_char_append in Hb'. cbn in Hb'.
    rewrite orb_true_r in Hb'. discriminate Hb'.
  - intros [= <- Hrest]. destruct (IH x' Hrest) as [-> ->]. split; reflexivity.
Qed.

Lemma encode_byte_colon_free a k :
  JS.has_char ":" (URLSearchParams.encode_byte a k) = JS.has_char ":" k.
Proof. destruct a as [[] [] [] [] [] [] [] []]; reflexivity. Qed.

Lemma encode_component_colon_free s :
  Spec.colon_free (URLSearchParams.encode_component s).
Proof.
  unfold Spec.colon_free. induction s as [|a s IH]; [reflexivity|].
  cbn. rewrite encode_byte_colon_free. exact IH.
Qed.

Lemma toString_colon_free p : Spec.colon_free (URLSearchParams.toString p).
Proof.
  unfold Spec.colon_free, URLSearchParams.toString.
  assert (Hpair : forall kv, JS.has_char ":" (URLSearchParams.encode_pair kv) = false).
  { intros kv. unfold URLSearchParams.encode_pair.
    rewrite has_char_append. cbn.
    rewrite !encode_component_colon_free. reflexivity. }
  induction p as [|kv p IH]; [reflexivity|].
  cbn [map JS.join]. destruct (map URLSearchParams.encode_pair p) as [|y ys] eqn:Hp.
  - apply Hpair.
  - rewrite !has_char_append, Hpair, IH. reflexivity.
Qed.

Lemma normalizeParams_colon_free params : Spec.colon_free (normalizeParams params).
Proof.
  unfold normalizeParams, normalizeParams_with, URLSearchParams.construct.
  destruct (String.eqb params ""); [reflexivity|]. apply toString_colon_free.
Qed.

Lemma string_of_uint_colon_free d :
  Spec.colon_free (NilEmpty.string_of_uint d).
Proof. unfold Spec.colon_free. induction d; cbn; auto. Qed.

Lemma number_to_string_colon_free n : Spec.colon_free (JS.number_to_string n).
Proof.
  unfold JS.number_to_string. destruct (Z.to_int n); cbn;
    apply string_of_uint_colon_free.
Qed.

Lemma number_to_string_inj n m :
  JS.number_to_string n = JS.number_to_string m -> n = m.
Proof.
  unfold JS.number_to_string. intros H.
  apply (f_equal NilEmpty.int_of_string) in H.
  rewrite !NilEmpty.isi in H. injection H as H.
  rewrite <- (DecimalZ.of_to n), <- (DecimalZ.of_to m), H. reflexivity.
Qed.

Lemma generateKey_components k :
  generateKey k
  = String.append (Spec.route_of k)
      (String ":" (String.append (Spec.params_of k)
         (String ":" (String.append (Spec.scenario_of k)
            (String ":" (JS.number_to_string (Spec.seed_of k))))))).
Proof. reflexivity. Qed.

Lemma join_from_the_right (r p sc d : string) :
  String.append r (String ":" (String.append p
     (String ":" (String.append sc (String ":" d)))))
  = String.append
      (String.append (String.append r (String ":" p)) (String ":" sc))
      (String ":" d).
Proof.
  rewrite (string_append_assoc (String.append r (String ":" p))).
  rewrite (string_append_assoc r). reflexivity.
Qed.

(** With colon-free routes, or colon-free scenario names, the key
    determines its four components. *)
Lemma generateKey_inj a b :
  (Spec.colon_free (Spec.route_of a) /\ Spec.colon_free (Spec.route_of b))
  \/ (Spec.colon_free (Spec.scenario_of a) /\ Spec.colon_free (Spec.scenario_of b)) ->
  generateKey a = generateKey b ->
  Spec.route_of a = Spec.route_of b
  /\ Spec.params_of a = Spec.params_of b
  /\ Spec.scenario_of a = Spec.scenario_of b
  /\ Spec.seed_of a = Spec.seed_of b.
Proof.
  rewrite !generateKey_components. intros [[Ha Hb]|[Ha Hb]] Heq.
  - apply split_at_first_colon in Heq; [|assumption..].
    destruct Heq as [Hr Heq].
    apply split_at_first_colon in Heq; [|apply normalizeParams_colon_free..].
    destruct Heq as [Hp Heq].
    apply split_at_last_colon in Heq; [|apply number_to_string_colon_free..].
    destruct Heq as [Hs Hd]. apply number_to_string_inj in Hd. tauto.
  - rewrite !join_from_the_right in Heq.
    apply split_at_last_colon in Heq; [|apply number_to_string_colon_free..].
    destruct Heq as [Heq Hd]. apply number_to_string_inj in Hd.
    apply split_at_last_colon in Heq; [|assumption..].
    destruct Heq as [Heq Hs].
    apply split_at_last_colon in Heq; [|apply normalizeParams_colon_free..].
    destruct Heq as [Hr Hp]. tauto.
Qed.






End KeyIdentity.

(** ** The manager *)

Section Manager.
Import Effect PerformanceManager.

(** One call, laid out by its three exits: the hit, the return of the
    timeout executor, and its throw. *)
Lemma executeFixtureRequest_run m fixtureFn passthroughFn opts scenario clk :
  let cacheKey := cacheKey_of scenario opts in
  let v := fst (Spec.lookup m opts scenario clk) in
  let c1 := snd (Spec.lookup m opts scenario clk) in
  let tr1 := if Spec.useCache m opts
             then [CacheGet (Spec.request_key scenario opts)] else [] in
  let fetched :=
    TimeoutManager.fetchWithTimeout fixtureFn (Some passthroughFn)
      (atFetch clk) (timeoutManager m) [] in
  executeFixtureRequest fixtureFn passthroughFn opts scenario clk m []
  = if Spec.useCache m opts && JS.not_null v then
      (Returned (mkResponse v true false from_cache (atHit clk - atEntry clk)),
       with_cache m c1, tr1)
    else
      match fst (fst fetched) with
      | Returned o =>
          let c2 := if Spec.stores m opts o
                    then ResponseCache.set c1 cacheKey (TimeoutManager.result o)
                           (ttlMs opts) (atSet clk) (atEvict clk)
                    else c1 in
          let c3 := if TimeoutManager.timedOut o
                    then ResponseCache.updateMetrics c2 (timeout_hit_update c2)
                    else c2 in
          (Returned (mkResponse (TimeoutManager.result o) false
                       (TimeoutManager.timedOut o)
                       (widen (TimeoutManager.source o))
                       (atDone clk - atEntry clk)),
           mk c3 (snd (fst fetched)) (config m) (startTime m),
           tr1 ++ snd fetched
           ++ (if Spec.stores m opts o
               then [CacheSet (Spec.request_key scenario opts)] else []))
      | Threw e =>
          (Threw e,
           mk c1 (snd (fst fetched)) (config m) (startTime m),
           tr1 ++ snd fetched
           ++ (if TimeoutBudget.logTimeouts (PerformanceConfig.timeout (config m))
               then [ConsoleError FixtureRequestFailed] else []))
      end.
Proof.
  cbn zeta. unfold Spec.lookup, Spec.stores, Spec.request_key.
  unfold executeFixtureRequest, bind at 1, gets.
  fold (Spec.useCache m opts).
  generalize (cacheKey_of scenario opts) as cacheKey. intros cacheKey.
  destruct (Spec.useCache m opts) eqn:Huse.
  - unfold cache_get, bind at 1 2, emit. cbn [app].
    destruct (ResponseCache.get (cache m) cacheKey (atGet clk)) as [v c1].
    cbn [fst snd andb].
    destruct (JS.not_null v); [reflexivity|].
    unfold try_catch, bind at 1, zoom.
    cbn [timeoutManager with_cache].
    rewrite fetchWithTimeout_frame.
    destruct (TimeoutManager.fetchWithTimeout fixtureFn (Some passthroughFn)
                (atFetch clk) (timeoutManager m) []) as [[r tm'] evs].
    cbn [fst snd].
    destruct r as [[res timed src]|e].
    + unfold bind, when, cache_set, emit, modify, ret.
      cbn [TimeoutManager.source TimeoutManager.timedOut TimeoutManager.result].
      destruct (PerformanceConfig.enabled (PerformanceConfig.cache (config m))),
        src, timed, (not_false (enableCache opts));
        cbn [andb negb]; rewrite <- ?app_assoc, ?app_nil_r; reflexivity.
    + unfold bind, when, emit, throw, ret.
      destruct (TimeoutBudget.logTimeouts (PerformanceConfig.timeout (config m)));
        rewrite <- ?app_assoc, ?app_nil_r; reflexivity.
  - unfold bind at 1, ret. cbn [fst snd andb].
    unfold try_catch, bind at 1, zoom.
    destruct (TimeoutManager.fetchWithTimeout fixtureFn (Some passthroughFn)
                (atFetch clk) (timeoutManager m) []) as [[r tm'] evs].
    cbn [fst snd app].
    destruct r as [[res timed src]|e].
    + unfold bind, when, cache_set, emit, modify, ret.
      cbn [TimeoutManager.source TimeoutManager.timedOut TimeoutManager.result].
      destruct (PerformanceConfig.enabled (PerformanceConfig.cache (config m))),
        src, timed, (not_false (enableCache opts));
        cbn [andb negb]; rewrite <- ?app_assoc, ?app_nil_r; try reflexivity;
        destruct m; reflexivity.
    + unfold bind, when, emit, throw, ret.
      destruct (TimeoutBudget.logTimeouts (PerformanceConfig.timeout (config m)));
        rewrite <- ?app_assoc, ?app_nil_r; try reflexivity; destruct m; reflexivity.
Qed.

Lemma invoked_app ev (tr1 tr2 : list event) :
  Spec.invoked ev (tr1 ++ tr2) = Spec.invoked ev tr1 || Spec.invoked ev tr2.
Proof. apply existsb_app. Qed.

Lemma invoked_cons ev x (tr : list event) :
  Spec.invoked ev (x :: tr) = event_eqb ev x || Spec.invoked ev tr.
Proof. reflexivity. Qed.

Lemma invoked_mid ev x (tr1 rest tr2 : list event) :
  Spec.invoked ev (tr1 ++ (x :: rest) ++ tr2)
  = Spec.invoked ev tr1
    || (event_eqb ev x || (Spec.invoked ev rest || Spec.invoked ev tr2)).
Proof.
  unfold Spec.invoked. rewrite existsb_app. cbn. rewrite existsb_app.
  reflexivity.
Qed.

(** The timeout executor calls the primary operation first, and never
    touches the cache. *)
Lemma fetchWithTimeout_events tm fetchFn fallbackFn fclk :
  exists rest,
    snd (TimeoutManager.fetchWithTimeout fetchFn fallbackFn fclk tm [])
    = InvokeFixture :: rest
    /\ forall key, Spec.invoked (CacheSet key) rest = false.
Proof.
  destruct tm as [[ms pass logs] hits total].
  destruct fetchFn as [[v|e]|]; cbn.
  - destruct (logs && _); cbn; eexists; split; reflexivity.
  - destruct (TimeoutManager.isTimeout e); cbn; [|eexists; split; reflexivity].
    destruct logs, pass, fallbackFn as [[w|fe]|]; cbn; eexists; split; reflexivity.
  - destruct logs, pass, fallbackFn as [[w|fe]|]; cbn; eexists; split; reflexivity.
Qed.

(** A returned outcome counts one timeout exactly when it timed out, and
    comes from the primary exactly when it did not. *)
Lemma fetchWithTimeout_returned tm fetchFn fallbackFn fclk o :
  fst (fst (TimeoutManager.fetchWithTimeout fetchFn fallbackFn fclk tm [])) = Returned o ->
  TimeoutManager.timeoutHits
    (snd (fst (TimeoutManager.fetchWithTimeout fetchFn fallbackFn fclk tm [])))
  = TimeoutManager.timeoutHits tm + (if TimeoutManager.timedOut o then 1 else 0)
  /\ TimeoutManager.timedOut o
     = match TimeoutManager.source o with
       | TimeoutManager.fixture => false
       | TimeoutManager.passthrough => true
       end.
Proof.
  destruct tm as [[ms pass logs] hits total].
  destruct fetchFn as [[v|e]|]; cbn.
  - destruct (logs && _); cbn; intros [= <-]; cbn; (split; [lia|reflexivity]).
  - destruct (TimeoutManager.isTimeout e); cbn; [|discriminate].
    destruct logs, pass, fallbackFn as [[w|fe]|]; cbn;
      intros [= <-]; cbn; split; reflexivity.
  - destruct logs, pass, fallbackFn as [[w|fe]|]; cbn;
      intros [= <-]; cbn; split; reflexivity.
Qed.

Lemma get_null_leaves_null c cacheKey now :
  fst (ResponseCache.get c cacheKey now) = JS.JNull ->
  Spec.null_under (snd (ResponseCache.get c cacheKey now))
             (ResponseCache.generateKey cacheKey).
Proof.
  unfold Spec.null_under, ResponseCache.get.
  destruct (JsMap.get (ResponseCache.cache c) (ResponseCache.generateKey cacheKey))
    as [e|] eqn:Hget; cbn.
  - destruct (ResponseCache.expired e now); cbn.
    + rewrite JsMap_get_delete_eq. trivial.
    + rewrite JsMap_get_set_eq. cbn. trivial.
  - rewrite Hget. trivial.
Qed.

Lemma get_under_null c cacheKey now :
  Spec.null_under c (ResponseCache.generateKey cacheKey) ->
  fst (ResponseCache.get c cacheKey now) = JS.JNull.
Proof.
  unfold Spec.null_under, ResponseCache.get.
  destruct (JsMap.get (ResponseCache.cache c) (ResponseCache.generateKey cacheKey))
    as [e|]; [|reflexivity].
  destruct (ResponseCache.expired e now); cbn; [reflexivity|auto].
Qed.

Lemma not_null_false v : JS.not_null v = false -> v = JS.JNull.
Proof. destruct v; [reflexivity|discriminate..]. Qed.

(** C10. When a call ends by throwing, the cache is exactly the cache
    the initial lookup left (the cache of the manager when the call does
    not look up): store and counters alike, and no [set] was issued. The
    error thrown is the one the timeout executor threw. *)
Theorem executeFixtureRequest_error_leaves_cache
    m fixtureFn passthroughFn opts scenario clk e m' tr' :
  executeFixtureRequest fixtureFn passthroughFn opts scenario clk m []
  = (Threw e, m', tr') ->
  cache m' = snd (Spec.lookup m opts scenario clk)
  /\ (forall key, Spec.invoked (CacheSet key) tr' = false)
  /\ fst (fst (TimeoutManager.fetchWithTimeout fixtureFn (Some passthroughFn)
                 (atFetch clk) (timeoutManager m) [])) = Threw e.
Proof.
  rewrite executeFixtureRequest_run. cbn zeta.
  destruct (Spec.useCache m opts && JS.not_null _); [discriminate|].
  destruct (fetchWithTimeout_events (timeoutManager m) fixtureFn
              (Some passthroughFn) (atFetch clk)) as (rest & Hevs & Hrest).
  destruct (TimeoutManager.fetchWithTimeout fixtureFn (Some passthroughFn)
              (atFetch clk) (timeoutManager m) []) as [[r tm1] evs].
  cbn [fst snd] in *. subst evs.
  destruct r as [o|e1]; [discriminate|].
  intros [= -> <- <-]. cbn [cache]. split; [reflexivity|]. split; [|reflexivity].
  intros key. rewrite invoked_app, invoked_cons, invoked_app, Hrest.
  destruct (Spec.useCache m opts),
    (TimeoutBudget.logTimeouts (PerformanceConfig.timeout (config m)));
    reflexivity.
Qed.

Lemma executeFixtureRequest_error_leaves_cache_witness :
  let cfg := PerformanceConfig.mk (PerformanceConfig.mkCache true 10 1000 60000)
               (TimeoutBudget.mk 50 true true)
               (PerformanceConfig.mkMetrics true 30000) in
  let opts := mkOptions "/api/products" (Some "GET"%string)
                (Some "category=electronics"%string) (Some true) None in
  let clk := mkReadings 0 0 0 (TimeoutManager.mkReadings 0 50) 60 60 60 in
  let scenario := ScenarioConfig.mk "baseline" 42 in
  let m := new cfg 0 in
  let run := executeFixtureRequest TimeoutManager.TimerFirst
               (JS.Rejected (JS.ErrorObj "backend down")) opts scenario clk m [] in
  fst (fst run) = Threw (JS.ErrorObj "backend down")
  /\ cache (snd (fst run)) = snd (Spec.lookup m opts scenario clk).
Proof.
  intros cfg opts clk scenario m run.
  split; [vm_compute; reflexivity|].
  apply (executeFixtureRequest_error_leaves_cache m TimeoutManager.TimerFirst
           (JS.Rejected (JS.ErrorObj "backend down")) opts scenario clk
           (JS.ErrorObj "backend down") (snd (fst run)) (snd run)).
  vm_compute. reflexivity.
Defined.

Lemma useCache_same_config m1 m2 opts :
  config m1 = config m2 -> Spec.useCache m1 opts = Spec.useCache m2 opts.
Proof. unfold Spec.useCache. intros ->. reflexivity. Qed.

Lemma null_under_same_store c1 c2 key :
  ResponseCache.cache c1 = ResponseCache.cache c2 ->
  Spec.null_under c1 key -> Spec.null_under c2 key.
Proof. unfold Spec.null_under. intros ->. trivial. Qed.

(** A manager whose cache holds nothing but [null] under the key of a
    request runs the fixture path for it. *)
Lemma executeFixtureRequest_attempts_fixture
    m fixtureFn passthroughFn opts scenario clk :
  (Spec.useCache m opts = true ->
   Spec.null_under (cache m) (Spec.request_key scenario opts)) ->
  let run := executeFixtureRequest fixtureFn passthroughFn opts scenario clk m [] in
  Spec.invoked InvokeFixture (snd run) = true
  /\ forall r, fst (fst run) = Returned r ->
       source r <> from_cache /\ fromCache r = false.
Proof.
  intros Hnull. cbn zeta. rewrite executeFixtureRequest_run. cbn zeta.
  assert (Hmiss : Spec.useCache m opts
                  && JS.not_null (fst (Spec.lookup m opts scenario clk)) = false).
  { unfold Spec.lookup. destruct (Spec.useCache m opts); [|reflexivity].
    cbn [andb]. rewrite get_under_null; [reflexivity|]. apply Hnull. reflexivity. }
  rewrite Hmiss.
  destruct (fetchWithTimeout_events (timeoutManager m) fixtureFn
              (Some passthroughFn) (atFetch clk)) as (rest & Hevs & _).
  destruct (TimeoutManager.fetchWithTimeout fixtureFn (Some passthroughFn)
              (atFetch clk) (timeoutManager m) []) as [[r0 tm1] evs].
  cbn [fst snd] in *. subst evs.
  destruct r0 as [o|e]; cbn [fst snd].
  - split.
    + rewrite invoked_mid. cbn [event_eqb orb]. apply orb_true_r.
    + intros r [= <-]. cbn. split; [|reflexivity].
      destruct (TimeoutManager.source o); discriminate.
  - split; [|discriminate].
    rewrite invoked_mid. cbn [event_eqb orb]. apply orb_true_r.
Qed.

(** C3. For a call that returns: a [set] under the key of the request is
    issued exactly when the outcome comes from the fixture, did not time
    out, and caching is enabled both in the configuration and for the
    call. When the outcome comes from the passthrough or timed out, no
    [set] is issued at all, the store is the one the initial lookup left,
    and any later call for the same request and scenario, whatever its
    operations and clock readings, calls the fixture operation again and
    does not answer from the cache.

    When the write is due, the store of the manager afterwards holds,
    under the key of the request, the entry built from the result of the
    call, the reading of the clock inside [set] and the time-to-live of
    the call (the default of the cache when the call gives none or 0), with
    no hits yet; a lookup of the request in the cache returns that result
    for as long as the entry has not outlived its time-to-live. When the
    write is not due, for whichever reason, no [set] is issued and the
    store is the one the initial lookup left. *)
Theorem executeFixtureRequest_caches_only_fixture_results
    m fixtureFn passthroughFn opts scenario clk r m' tr' :
  executeFixtureRequest fixtureFn passthroughFn opts scenario clk m []
  = (Returned r, m', tr') ->
  (Spec.invoked (CacheSet (Spec.request_key scenario opts)) tr' = true
   <-> source r = fixture /\ timedOut r = false
       /\ PerformanceConfig.enabled (PerformanceConfig.cache (config m)) = true
       /\ not_false (enableCache opts) = true)
  /\ (source r = passthrough \/ timedOut r = true ->
      (forall key, Spec.invoked (CacheSet key) tr' = false)
      /\ ResponseCache.cache (cache m')
         = ResponseCache.cache (snd (Spec.lookup m opts scenario clk))
      /\ forall fixtureFn2 passthroughFn2 clk2,
           let again := executeFixtureRequest fixtureFn2 passthroughFn2
                          opts scenario clk2 m' [] in
           Spec.invoked InvokeFixture (snd again) = true
           /\ forall r2, fst (fst again) = Returned r2 ->
                source r2 <> from_cache /\ fromCache r2 = false)
  /\ (source r = fixture -> timedOut r = false ->
      PerformanceConfig.enabled (PerformanceConfig.cache (config m)) = true ->
      not_false (enableCache opts) = true ->
      let T := JS.opt_num_or (ttlMs opts) (ResponseCache.defaultTtlMs (cache m)) in
      JsMap.get (ResponseCache.cache (cache m')) (Spec.request_key scenario opts)
      = Some (CacheEntry.mk (result r) (atSet clk) T
                (url opts)
                (match params opts with Some p => JS.str_or p "" | None => ""%string end)
                (ScenarioConfig.name scenario)
                (JS.num_or (ScenarioConfig.seed scenario) 42)
                0 (atSet clk))
      /\ forall later, later - atSet clk <= T ->
           fst (ResponseCache.get (cache m') (cacheKey_of scenario opts) later)
           = result r)
  /\ (~ (source r = fixture /\ timedOut r = false
         /\ PerformanceConfig.enabled (PerformanceConfig.cache (config m)) = true
         /\ not_false (enableCache opts) = true) ->
      (forall key, Spec.invoked (CacheSet key) tr' = false)
      /\ ResponseCache.cache (cache m')
         = ResponseCache.cache (snd (Spec.lookup m opts scenario clk))).
Proof.
  rewrite executeFixtureRequest_run. cbn zeta.
  destruct (Spec.useCache m opts && JS.not_null _) eqn:Hhit.
  - intros [= <- <- <-]. cbn [source timedOut]. split; [|split; [|split]].
    + split; [|intros [[=] _]].
      destruct (Spec.useCache m opts); cbn; discriminate.
    + intros [[=]|[=]].
    + intros [=].
    + intros _. split; [|reflexivity].
      intros key. destruct (Spec.useCache m opts); reflexivity.
  - pose proof (fetchWithTimeout_returned (timeoutManager m) fixtureFn
                  (Some passthroughFn) (atFetch clk)) as Hret.
    destruct (fetchWithTimeout_events (timeoutManager m) fixtureFn
                (Some passthroughFn) (atFetch clk)) as (rest & Hevs & Hrest).
    destruct (TimeoutManager.fetchWithTimeout fixtureFn (Some passthroughFn)
                (atFetch clk) (timeoutManager m) []) as [[r0 tm1] evs].
    cbn [fst snd] in *. subst evs.
    destruct r0 as [o|e]; [|discriminate].
    destruct (Hret o eq_refl) as [_ Htimed]. clear Hret.
    intros [= <- <- <-]. cbn [source timedOut cache].
    assert (Hset : forall key,
               Spec.invoked (CacheSet key)
                 ((if Spec.useCache m opts
                   then [CacheGet (Spec.request_key scenario opts)] else [])
                  ++ (InvokeFixture :: rest)
                  ++ (if Spec.stores m opts o
                      then [CacheSet (Spec.request_key scenario opts)] else []))
               = Spec.stores m opts o
                 && String.eqb key (Spec.request_key scenario opts)).
    { intros key. rewrite invoked_mid, Hrest.
      destruct (Spec.useCache m opts), (Spec.stores m opts o); cbn;
        rewrite ?orb_false_r; reflexivity. }
    split; [|split; [|split]].
    + rewrite Hset, String.eqb_refl, andb_true_r. unfold Spec.stores.
      destruct o as [res timed src].
      cbn [TimeoutManager.source TimeoutManager.timedOut] in *.
      destruct (PerformanceConfig.enabled _), src, timed,
        (not_false (enableCache opts)); cbn [andb negb widen]; split;
        try discriminate; try tauto; intros (? & ? & ? & ?); discriminate.
    + intros Hdegraded.
      assert (Hno : Spec.stores m opts o = false).
      { unfold Spec.stores. destruct o as [res timed src].
        cbn [TimeoutManager.source TimeoutManager.timedOut] in *.
        destruct Hdegraded as [Hsrc|Ht].
        - destruct src; [discriminate|]. rewrite andb_false_r. reflexivity.
        - rewrite Ht. cbn [negb]. rewrite andb_false_r. reflexivity. }
      rewrite Hno in *.
      split; [intros key; rewrite Hset; reflexivity|].
      assert (Hstore : ResponseCache.cache
                         (if TimeoutManager.timedOut o
                          then ResponseCache.updateMetrics
                                 (snd (Spec.lookup m opts scenario clk))
                                 (timeout_hit_update
                                    (snd (Spec.lookup m opts scenario clk)))
                          else snd (Spec.lookup m opts scenario clk))
                       = ResponseCache.cache (snd (Spec.lookup m opts scenario clk)))
        by (destruct (TimeoutManager.timedOut o); reflexivity).
      split; [exact Hstore|].
      intros fixtureFn2 passthroughFn2 clk2.
      apply executeFixtureRequest_attempts_fixture.
      intros Huse. cbn [cache].
      apply (null_under_same_store (snd (Spec.lookup m opts scenario clk)));
        [symmetry; exact Hstore|].
      assert (Huse' : Spec.useCache m opts = true) by exact Huse.
      rewrite Huse' in Hhit. cbn [andb] in Hhit.
      apply not_null_false in Hhit.
      unfold Spec.lookup in *. rewrite Huse' in *.
      apply get_null_leaves_null. exact Hhit.
    + intros Hsrc Htime Hen Hnf. cbn zeta. cbn [result].
      assert (Hyes : Spec.stores m opts o = true).
      { unfold Spec.stores. rewrite Hen, Hnf, Htime.
        destruct (TimeoutManager.source o); [reflexivity|discriminate Hsrc]. }
      assert (Httl : ResponseCache.defaultTtlMs (snd (Spec.lookup m opts scenario clk))
                     = ResponseCache.defaultTtlMs (cache m)).
      { unfold Spec.lookup. destruct (Spec.useCache m opts); [|reflexivity].
        unfold ResponseCache.get.
        destruct (JsMap.get _ _) as [e|]; [destruct (ResponseCache.expired e _)|];
          reflexivity. }
      rewrite Hyes, Htime.
      pose proof (set_lookup (snd (Spec.lookup m opts scenario clk))
                    (cacheKey_of scenario opts) (TimeoutManager.result o)
                    (ttlMs opts) (atSet clk) (atEvict clk)) as Hentry.
      unfold Spec.fresh_entry in Hentry. rewrite Httl in Hentry.
      split; [exact Hentry|].
      intros later Hlive. unfold ResponseCache.get. rewrite Hentry.
      unfold ResponseCache.expired. cbn [CacheEntry.timestamp CacheEntry.ttl].
      destruct (Z.gtb_spec (later - atSet clk)
                  (JS.opt_num_or (ttlMs opts) (ResponseCache.defaultTtlMs (cache m))));
        [lia|reflexivity].
    + intros Hnot.
      assert (Hno : Spec.stores m opts o = false).
      { unfold Spec.stores. destruct o as [res timed src].
        cbn [TimeoutManager.source TimeoutManager.timedOut widen] in *.
        destruct (PerformanceConfig.enabled _), src, timed,
          (not_false (enableCache opts)); cbn; try reflexivity;
          exfalso; apply Hnot; repeat split. }
      rewrite Hno in *.
      split; [intros key; rewrite Hset; reflexivity|].
      destruct (TimeoutManager.timedOut o); reflexivity.
Qed.

Lemma executeFixtureRequest_caches_only_fixture_results_witness :
  let cfg := PerformanceConfig.mk (PerformanceConfig.mkCache true 10 1000 60000)
               (TimeoutBudget.mk 50 true true)
               (PerformanceConfig.mkMetrics true 30000) in
  let opts := mkOptions "/api/products" (Some "GET"%string)
                (Some "category=electronics"%string) (Some true) None in
  let clk := mkReadings 0 0 0 (TimeoutManager.mkReadings 0 50) 60 60 60 in
  let scenario := ScenarioConfig.mk "baseline" 42 in
  let m := new cfg 0 in
  let run := executeFixtureRequest TimeoutManager.TimerFirst
               (JS.Fulfilled (JS.JStr "live")) opts scenario clk m [] in
  fst (fst run) = Returned (mkResponse (JS.JStr "live") false true passthrough 60)
  /\ ResponseCache.cache (cache (snd (fst run))) = []
  /\ Spec.invoked InvokeFixture
       (snd (executeFixtureRequest
               (TimeoutManager.SettlesFirst (JS.Fulfilled (JS.JStr "fixture")))
               (JS.Fulfilled (JS.JStr "live")) opts scenario clk
               (snd (fst run)) [])) = true
  /\ (let written := executeFixtureRequest
                        (TimeoutManager.SettlesFirst (JS.Fulfilled (JS.JStr "fixture")))
                        (JS.Fulfilled (JS.JStr "live")) opts scenario clk m [] in
      JsMap.get (ResponseCache.cache (cache (snd (fst written))))
        "/api/products:category=electronics:baseline:42"
      = Some (CacheEntry.mk (JS.JStr "fixture") 60 1000 "/api/products"
                "category=electronics" "baseline" 42 0 60)).
Proof.
  intros cfg opts clk scenario m run.
  assert (Hwritten :
            executeFixtureRequest
              (TimeoutManager.SettlesFirst (JS.Fulfilled (JS.JStr "fixture")))
              (JS.Fulfilled (JS.JStr "live")) opts scenario clk m []
            = (Returned (mkResponse (JS.JStr "fixture") false false fixture 60),
               snd (fst (executeFixtureRequest
                           (TimeoutManager.SettlesFirst
                              (JS.Fulfilled (JS.JStr "fixture")))
                           (JS.Fulfilled (JS.JStr "live")) opts scenario clk m [])),
               snd (executeFixtureRequest
                      (TimeoutManager.SettlesFirst (JS.Fulfilled (JS.JStr "fixture")))
                      (JS.Fulfilled (JS.JStr "live")) opts scenario clk m []))
            /\ Spec.request_key scenario opts
               = "/api/products:category=electronics:baseline:42"%string)
    by (vm_compute; split; reflexivity).
  destruct Hwritten as [Hwritten Hkey].
  destruct (executeFixtureRequest_caches_only_fixture_results
              m (TimeoutManager.SettlesFirst (JS.Fulfilled (JS.JStr "fixture")))
              (JS.Fulfilled (JS.JStr "live"))
              opts scenario clk _ _ _ Hwritten) as (_ & _ & Hdue & _).
  destruct (Hdue eq_refl eq_refl eq_refl eq_refl) as [Hentry _].
  rewrite Hkey in Hentry.
  assert (Hrun : run = (Returned (mkResponse (JS.JStr "live") false true passthrough 60),
                        snd (fst run), snd run))
    by (vm_compute; reflexivity).
  destruct (executeFixtureRequest_caches_only_fixture_results
              m TimeoutManager.TimerFirst (JS.Fulfilled (JS.JStr "live"))
              opts scenario clk _ _ _ Hrun) as (_ & Hdegraded & _).
  destruct (Hdegraded (or_introl eq_refl)) as (_ & Hstore & Hagain).
  split; [rewrite Hrun; reflexivity|].
  split; [rewrite Hstore; vm_compute; reflexivity|].
  split; [|exact Hentry].
  apply (Hagain (TimeoutManager.SettlesFirst (JS.Fulfilled (JS.JStr "fixture")))
                (JS.Fulfilled (JS.JStr "live")) clk).
Defined.

Lemma get_counters c cacheKey now :
  let r := ResponseCache.get c cacheKey now in
  let hits c := PerformanceMetrics.cacheHits (ResponseCache.metrics c) in
  let misses c := PerformanceMetrics.cacheMisses (ResponseCache.metrics c) in
  PerformanceMetrics.passthroughCount (ResponseCache.metrics (snd r))
  = PerformanceMetrics.passthroughCount (ResponseCache.metrics c)
  /\ PerformanceMetrics.averageResponseTime (ResponseCache.metrics (snd r))
     = PerformanceMetrics.averageResponseTime (ResponseCache.metrics c)
  /\ PerformanceMetrics.timeoutHits (ResponseCache.metrics (snd r))
     = PerformanceMetrics.timeoutHits (ResponseCache.metrics c)
  /\ (JS.not_null (fst r) = true ->
      hits (snd r) = hits c + 1 /\ misses (snd r) = misses c)
  /\ (~ Spec.valid_entry c (ResponseCache.generateKey cacheKey) now ->
      hits (snd r) = hits c /\ misses (snd r) = misses c + 1).
Proof.
  cbn zeta. unfold ResponseCache.get, Spec.valid_entry.
  destruct (JsMap.get (ResponseCache.cache c) (ResponseCache.generateKey cacheKey))
    as [e|]; [destruct (ResponseCache.expired e now) eqn:Hexp|]; cbn;
    repeat split; try discriminate; try (intros _; split; reflexivity).
  all: exfalso; match goal with H : ~ _ |- _ => apply H end.
  all: exists e; (split; [reflexivity|exact Hexp]).
Qed.

Lemma set_metrics c cacheKey data ttlMs now evictNow :
  ResponseCache.metrics (ResponseCache.set c cacheKey data ttlMs now evictNow)
  = ResponseCache.metrics c.
Proof.
  unfold ResponseCache.set.
  destruct (JsMap.size (ResponseCache.cache c) >=? ResponseCache.maxEntries c);
    [|reflexivity].
  unfold ResponseCache.evictLRU.
  destruct (fst (ResponseCache.oldest (ResponseCache.cache c) evictNow)) as [k|];
    [destruct (String.eqb k "")|]; reflexivity.
Qed.

(** Where [getMetrics] takes its counters from. *)
Lemma getMetrics_counters m now :
  let g := counters (getMetrics m now) in
  let cm := ResponseCache.metrics (cache m) in
  PerformanceMetrics.cacheHits g = PerformanceMetrics.cacheHits cm
  /\ PerformanceMetrics.cacheMisses g = PerformanceMetrics.cacheMisses cm
  /\ PerformanceMetrics.timeoutHits g = TimeoutManager.timeoutHits (timeoutManager m)
  /\ PerformanceMetrics.passthroughCount g = PerformanceMetrics.passthroughCount cm
  /\ PerformanceMetrics.averageResponseTime g
     = PerformanceMetrics.averageResponseTime cm.
Proof. repeat split. Qed.

(** The writes after the timeout executor returned leave the hit, miss,
    passthrough and latency fields of the cache metrics alone. *)
Lemma after_fetch_metrics c1 (stores timed : bool) cacheKey data ttlMs now evictNow :
  let c2 := if stores then ResponseCache.set c1 cacheKey data ttlMs now evictNow
            else c1 in
  let c3 := if timed then ResponseCache.updateMetrics c2 (timeout_hit_update c2)
            else c2 in
  let f (p : PerformanceMetrics.t -> Z) c := p (ResponseCache.metrics c) in
  f PerformanceMetrics.cacheHits c3 = f PerformanceMetrics.cacheHits c1
  /\ f PerformanceMetrics.cacheMisses c3 = f PerformanceMetrics.cacheMisses c1
  /\ f PerformanceMetrics.passthroughCount c3 = f PerformanceMetrics.passthroughCount c1
  /\ f PerformanceMetrics.averageResponseTime c3
     = f PerformanceMetrics.averageResponseTime c1.
Proof.
  cbn zeta. destruct stores, timed; cbn [ResponseCache.updateMetrics
    ResponseCache.with_metrics ResponseCache.metrics PerformanceMetrics.assign
    timeout_hit_update PerformanceMetrics.p_cacheHits
    PerformanceMetrics.p_cacheMisses PerformanceMetrics.p_passthroughCount
    PerformanceMetrics.p_averageResponseTime default
    PerformanceMetrics.cacheHits PerformanceMetrics.cacheMisses
    PerformanceMetrics.passthroughCount PerformanceMetrics.averageResponseTime];
    rewrite ?set_metrics; repeat split.
Qed.

(** C8, as the code has it. After a call that returns, [getMetrics]
    reports: one more timeout exactly when the call timed out; one more
    cache hit and no more misses when the result came from the cache; one
    more miss and no more hits when the cache was consulted and held no
    unexpired entry under the key; hits and misses unchanged when the cache
    was not consulted. [passthroughCount] and [averageResponseTime] are
    reported with the value they had before the call, whatever its path
    and latency. *)
Theorem executeFixtureRequest_counters
    m fixtureFn passthroughFn opts scenario clk r m' tr' now now' :
  executeFixtureRequest fixtureFn passthroughFn opts scenario clk m []
  = (Returned r, m', tr') ->
  let g := counters (getMetrics m now) in
  let g' := counters (getMetrics m' now') in
  PerformanceMetrics.passthroughCount g' = PerformanceMetrics.passthroughCount g
  /\ PerformanceMetrics.averageResponseTime g'
     = PerformanceMetrics.averageResponseTime g
  /\ PerformanceMetrics.timeoutHits g'
     = PerformanceMetrics.timeoutHits g + (if timedOut r then 1 else 0)
  /\ (source r = from_cache ->
      PerformanceMetrics.cacheHits g' = PerformanceMetrics.cacheHits g + 1
      /\ PerformanceMetrics.cacheMisses g' = PerformanceMetrics.cacheMisses g)
  /\ (Spec.useCache m opts = true ->
      ~ Spec.valid_entry (cache m) (Spec.request_key scenario opts) (atGet clk) ->
      PerformanceMetrics.cacheHits g' = PerformanceMetrics.cacheHits g
      /\ PerformanceMetrics.cacheMisses g' = PerformanceMetrics.cacheMisses g + 1)
  /\ (Spec.useCache m opts = false ->
      PerformanceMetrics.cacheHits g' = PerformanceMetrics.cacheHits g
      /\ PerformanceMetrics.cacheMisses g' = PerformanceMetrics.cacheMisses g).
Proof.
  rewrite executeFixtureRequest_run. cbn zeta.
  destruct (getMetrics_counters m now) as (-> & -> & -> & -> & ->).
  destruct (getMetrics_counters m' now') as (-> & -> & -> & -> & ->).
  pose proof (get_counters (cache m) (cacheKey_of scenario opts) (atGet clk))
    as Hget. cbn zeta in Hget.
  destruct Hget as (Hpass & Havg & _ & Hhit & Hmiss).
  unfold Spec.lookup, Spec.request_key.
  destruct (Spec.useCache m opts) eqn:Huse; cbn [andb fst snd].
  - destruct (JS.not_null _) eqn:Hnn.
    + intros [= <- <- <-]. cbn [cache timeoutManager timedOut source with_cache].
      destruct (Hhit eq_refl) as [Hh Hm].
      repeat split; try assumption; try lia; try discriminate.
      all: match goal with
           | H : ~ Spec.valid_entry _ _ _ |- _ => destruct (Hmiss H); lia
           end.
    + pose proof (fetchWithTimeout_returned (timeoutManager m) fixtureFn
                    (Some passthroughFn) (atFetch clk)) as Hret.
      destruct (TimeoutManager.fetchWithTimeout fixtureFn (Some passthroughFn)
                  (atFetch clk) (timeoutManager m) []) as [[r0 tm1] evs].
      cbn [fst snd] in *.
      destruct r0 as [o|e]; [|discriminate].
      destruct (Hret o eq_refl) as [Hhits _]. clear Hret.
      intros [= <- <- <-]. cbn [cache timeoutManager timedOut source].
      destruct (after_fetch_metrics
                  (snd (ResponseCache.get (cache m) (cacheKey_of scenario opts)
                          (atGet clk)))
                  (Spec.stores m opts o) (TimeoutManager.timedOut o)
                  (cacheKey_of scenario opts) (TimeoutManager.result o)
                  (ttlMs opts) (atSet clk) (atEvict clk))
        as (Hc & Hm & Hp & Ha).
      cbn zeta in Hc, Hm, Hp, Ha. rewrite Hc, Hm, Hp, Ha.
      repeat split; try assumption; try discriminate.
      all: match goal with
           | H : widen ?s = from_cache |- _ => destruct s; discriminate H
           | H : ~ Spec.valid_entry _ _ _ |- _ => destruct (Hmiss H); assumption
           end.
  - pose proof (fetchWithTimeout_returned (timeoutManager m) fixtureFn
                  (Some passthroughFn) (atFetch clk)) as Hret.
    destruct (TimeoutManager.fetchWithTimeout fixtureFn (Some passthroughFn)
                (atFetch clk) (timeoutManager m) []) as [[r0 tm1] evs].
    cbn [fst snd] in *.
    destruct r0 as [o|e]; [|discriminate].
    destruct (Hret o eq_refl) as [Hhits _]. clear Hret.
    intros [= <- <- <-]. cbn [cache timeoutManager timedOut source].
    destruct (after_fetch_metrics (cache m)
                (Spec.stores m opts o) (TimeoutManager.timedOut o)
                (cacheKey_of scenario opts) (TimeoutManager.result o)
                (ttlMs opts) (atSet clk) (atEvict clk))
      as (Hc & Hm & Hp & Ha).
    cbn zeta in Hc, Hm, Hp, Ha. rewrite Hc, Hm, Hp, Ha.
    repeat split; try assumption; try discriminate.
    all: match goal with
         | H : widen ?s = from_cache |- _ => destruct s; discriminate H
         end.
Qed.

Lemma executeFixtureRequest_counters_witness :
  let cfg := PerformanceConfig.mk (PerformanceConfig.mkCache true 10 1000 60000)
               (TimeoutBudget.mk 50 true true)
               (PerformanceConfig.mkMetrics true 30000) in
  let opts := mkOptions "/api/products" (Some "GET"%string)
                (Some "category=electronics"%string) (Some true) None in
  let clk := mkReadings 0 0 0 (TimeoutManager.mkReadings 0 50) 60 60 60 in
  let scenario := ScenarioConfig.mk "baseline" 42 in
  let m := new cfg 0 in
  let run := executeFixtureRequest TimeoutManager.TimerFirst
               (JS.Fulfilled (JS.JStr "live")) opts scenario clk m [] in
  let g := counters (getMetrics m 0) in
  let g' := counters (getMetrics (snd (fst run)) 60) in
  PerformanceMetrics.timeoutHits g' = PerformanceMetrics.timeoutHits g + 1
  /\ PerformanceMetrics.cacheMisses g' = PerformanceMetrics.cacheMisses g + 1.
Proof.
  intros cfg opts clk scenario m run g g'.
  assert (Hrun : run = (Returned (mkResponse (JS.JStr "live") false true passthrough 60),
                        snd (fst run), snd run))
    by (vm_compute; reflexivity).
  destruct (executeFixtureRequest_counters
              m TimeoutManager.TimerFirst (JS.Fulfilled (JS.JStr "live"))
              opts scenario clk _ _ _ 0 60 Hrun)
    as (_ & _ & Htimeouts & _ & Hmiss & _).
  split; [exact Htimeouts|].
  apply Hmiss; [reflexivity|].
  intros (entry & Hentry & _). vm_compute in Hentry. discriminate Hentry.
Defined.

(** C8, as the specification words it, fails: a call answered by the
    passthrough after 60 ms leaves [passthroughCount] and
    [averageResponseTime] at 0 in what [getMetrics] reports. *)
Lemma getMetrics_ignores_passthrough_and_latency :
  let cfg := PerformanceConfig.mk (PerformanceConfig.mkCache true 10 1000 60000)
               (TimeoutBudget.mk 50 true true)
               (PerformanceConfig.mkMetrics true 30000) in
  let opts := mkOptions "/api/products" (Some "GET"%string)
                (Some "category=electronics"%string) (Some true) None in
  let clk := mkReadings 0 0 0 (TimeoutManager.mkReadings 0 50) 60 60 60 in
  let scenario := ScenarioConfig.mk "baseline" 42 in
  let m := new cfg 0 in
  let run := executeFixtureRequest TimeoutManager.TimerFirst
               (JS.Fulfilled (JS.JStr "live")) opts scenario clk m [] in
  fst (fst run) = Returned (mkResponse (JS.JStr "live") false true passthrough 60)
  /\ Spec.invoked InvokePassthrough (snd run) = true
  /\ PerformanceMetrics.passthroughCount (counters (getMetrics m 0)) = 0
  /\ PerformanceMetrics.passthroughCount
       (counters (getMetrics (snd (fst run)) 60)) = 0
  /\ PerformanceMetrics.averageResponseTime
       (counters (getMetrics (snd (fst run)) 60)) = 0.
Proof. vm_compute. repeat split. Qed.

(** A hit on an entry whose data is not [null]: the call returns the
    data with [source = 'cache'], and neither the timeout executor nor an
    operation runs. *)
Lemma executeFixtureRequest_serves_entry
    m fixtureFn passthroughFn opts scenario clk entry :
  Spec.useCache m opts = true ->
  JsMap.get (ResponseCache.cache (cache m)) (Spec.request_key scenario opts)
  = Some entry ->
  ResponseCache.expired entry (atGet clk) = false ->
  CacheEntry.data entry <> JS.JNull ->
  let run := executeFixtureRequest fixtureFn passthroughFn opts scenario clk m [] in
  fst (fst run)
  = Returned (mkResponse (CacheEntry.data entry) true false from_cache
                (atHit clk - atEntry clk))
  /\ timeoutManager (snd (fst run)) = timeoutManager m
  /\ snd run = [CacheGet (Spec.request_key scenario opts)].
Proof.
  intros Huse Hentry Hlive Hdata. cbn zeta.
  rewrite executeFixtureRequest_run. cbn zeta.
  unfold Spec.lookup, Spec.request_key in *. rewrite Huse.
  unfold ResponseCache.get. rewrite Hentry, Hlive. cbn [fst snd andb].
  destruct (CacheEntry.data entry) eqn:Hd; try contradiction;
    cbn; rewrite ?Hd; repeat split.
Qed.

(** C4 at an entry whose data is [null]. A fixture operation that
    resolves with [null] in time is cached; [has] confirms a valid entry
    under the key; yet the next identical call, whose fixture operation is
    too slow, is not answered from the cache: the cache counts a hit, the
    manager calls the fixture operation, the budget runs out and the
    passthrough answers, with [timedOut = true]. *)
Lemma executeFixtureRequest_null_entry_not_served :
  let cfg := PerformanceConfig.mk (PerformanceConfig.mkCache true 10 1000 60000)
               (TimeoutBudget.mk 50 true true)
               (PerformanceConfig.mkMetrics true 30000) in
  let opts := mkOptions "/api/products" (Some "GET"%string)
                (Some "category=electronics"%string) (Some true) None in
  let scenario := ScenarioConfig.mk "baseline" 42 in
  let clk1 := mkReadings 0 0 0 (TimeoutManager.mkReadings 0 20) 20 20 20 in
  let clk2 := mkReadings 100 100 100 (TimeoutManager.mkReadings 100 150) 160 160 160 in
  let first := executeFixtureRequest
                 (TimeoutManager.SettlesFirst (JS.Fulfilled JS.JNull))
                 (JS.Fulfilled (JS.JStr "live")) opts scenario clk1 (new cfg 0) [] in
  let m1 := snd (fst first) in
  let second := executeFixtureRequest TimeoutManager.TimerFirst
                  (JS.Fulfilled (JS.JStr "live")) opts scenario clk2 m1 [] in
  fst (fst first) = Returned (mkResponse JS.JNull false false fixture 20)
  /\ fst (ResponseCache.has (cache m1) (cacheKey_of scenario opts) 100) = true
  /\ fst (fst second)
     = Returned (mkResponse (JS.JStr "live") false true passthrough 60)
  /\ snd second
     = [CacheGet (Spec.request_key scenario opts); InvokeFixture;
        ConsoleWarn FixtureTimeoutFallingBack; InvokePassthrough]
  /\ PerformanceMetrics.cacheHits
       (counters (getMetrics (snd (fst second)) 160)) = 1.
Proof. vm_compute. repeat split. Qed.

End Manager.


(** ** The response cache: sweep, presence test, round trip *)

Section CacheMaintenance.
Import ResponseCache.

Lemma filter_filter {A} (f g : A -> bool) (l : list A) :
  List.filter f (List.filter g l) = List.filter (fun x => g x && f x) l.
Proof.
  induction l as [|x l IH]; [reflexivity|].
  cbn. destruct (g x); cbn; [destruct (f x)|]; rewrite IH; reflexivity.
Qed.

(** Deleting a list of keys, one after the other, is one filter. *)
Lemma fold_delete_filter {V} (ks : list string) : forall m : JsMap.t V,
  fold_left JsMap.delete ks m
  = List.filter (fun kv => negb (existsb (String.eqb (fst kv)) ks)) m.
Proof.
  induction ks as [|k ks IH]; intros m; cbn.
  - induction m as [|kv m IHm]; [reflexivity|]. cbn. f_equal. exact IHm.
  - rewrite IH. unfold JsMap.delete. rewrite filter_filter.
    apply filter_ext. intros kv. rewrite negb_orb. reflexivity.
Qed.

Lemma JsMap_get_in {V} (m : JsMap.t V) k v :
  NoDup (map fst m) -> In (k, v) m -> JsMap.get m k = Some v.
Proof.
  induction m as [|[k1 v1] m IH]; cbn; [tauto|].
  intros Hnd [Heq|Hin].
  - injection Heq as -> ->. rewrite String.eqb_refl. reflexivity.
  - apply NoDup_cons in Hnd. destruct Hnd as [Hnot Hnd].
    destruct (String.eqb_spec k1 k) as [->|Hne]; [|auto].
    exfalso. apply Hnot, list_elem_of_In, in_map_iff.
    exists (k, v). split; [reflexivity|exact Hin].
Qed.

(** Looking up in a filtered store without repeated keys. *)
Lemma JsMap_get_filter {V} (P : string * V -> bool) (m : JsMap.t V) k :
  NoDup (map fst m) ->
  JsMap.get (List.filter P m) k
  = match JsMap.get m k with
    | Some v => if P (k, v) then Some v else None
    | None => None
    end.
Proof.
  induction m as [|[k1 v1] m IH]; cbn; [reflexivity|].
  intros Hnd. apply NoDup_cons in Hnd. destruct Hnd as [Hnot Hnd].
  destruct (String.eqb_spec k1 k) as [->|Hne].
  - destruct (P (k, v1)); cbn.
    + rewrite String.eqb_refl. reflexivity.
    + rewrite (IH Hnd).
      destruct (JsMap.get m k) as [v|] eqn:Hget; [|reflexivity].
      exfalso. apply Hnot, list_elem_of_In, in_map_iff.
      exists (k, v). split; [reflexivity|]. apply JsMap_get_Some_in. exact Hget.
  - destruct (P (k1, v1)); cbn.
    + destruct (String.eqb_spec k1 k); [contradiction|]. apply IH. exact Hnd.
    + apply IH. exact Hnd.
Qed.

(** X1. On a store without repeated keys, [cleanup] removes exactly the
    entries that have expired at the clock reading and keeps the others in
    their order; capacity, default TTL and counters are untouched. *)
Theorem cleanup_removes_exactly_expired c now :
  Spec.wf_store (cache c) ->
  cache (cleanup c now)
  = List.filter (fun kv => negb (expired (snd kv) now)) (cache c)
  /\ Inv.none_expired (cache (cleanup c now)) now
  /\ metrics (cleanup c now) = metrics c
  /\ maxEntries (cleanup c now) = maxEntries c
  /\ defaultTtlMs (cleanup c now) = defaultTtlMs c.
Proof.
  intros [Hnd _].
  assert (Hstore : cache (cleanup c now)
                   = List.filter (fun kv => negb (expired (snd kv) now)) (cache c)).
  { unfold cleanup. cbn [cache with_cache]. rewrite fold_delete_filter.
    apply filter_ext_in. intros [k e] Hin. cbn [fst snd]. f_equal.
    destruct (expired e now) eqn:Hexp.
    - apply existsb_exists. exists k. split; [|apply String.eqb_refl].
      apply in_map_iff. exists (k, e). split; [reflexivity|].
      apply filter_In. split; [exact Hin|exact Hexp].
    - apply not_true_is_false. intros Hex.
      apply existsb_exists in Hex. destruct Hex as (k' & Hk' & Heq).
      apply String.eqb_eq in Heq. subst k'.
      apply in_map_iff in Hk'. destruct Hk' as ([k2 e2] & Hfst & Hin2).
      cbn in Hfst. subst k2. apply filter_In in Hin2. destruct Hin2 as [Hin2 Hexp2].
      cbn in Hexp2.
      assert (Some e = Some e2) as [= <-].
      { rewrite <- (JsMap_get_in (cache c) k e Hnd Hin).
        apply JsMap_get_in; assumption. }
      congruence. }
  split; [exact Hstore|]. split; [|repeat split].
  unfold Inv.none_expired. rewrite Hstore. apply Forall_forall. intros kv Hin.
  apply list_elem_of_In, filter_In in Hin. destruct Hin as [_ Hlive].
  apply negb_true_iff. exact Hlive.
Qed.

Lemma cleanup_removes_exactly_expired_witness :
  let a := CacheKey.mk "/api/a" "" "baseline" 42 in
  let b := CacheKey.mk "/api/b" "" "baseline" 42 in
  let c := set (set (new (Some 10) (Some 1000)) a (JS.JNum 1) (Some 50) 0 0)
               b (JS.JNum 2) None 0 0 in
  map fst (cache (cleanup c 100)) = [generateKey b].
Proof.
  intros a b c.
  assert (Hwf : Spec.wf_store (cache c)) by (do 2 apply set_wf; apply new_wf).
  destruct (cleanup_removes_exactly_expired c 100 Hwf) as [-> _].
  vm_compute. reflexivity.
Defined.

(** X2. Sweeping first makes no difference to a lookup at the same clock
    reading: [get] after [cleanup] returns what [get] alone returns. *)
Theorem get_after_cleanup c cacheKey now :
  Spec.wf_store (cache c) ->
  fst (get (cleanup c now) cacheKey now) = fst (get c cacheKey now).
Proof.
  intros Hwf. destruct (cleanup_removes_exactly_expired c now Hwf) as [Hstore _].
  destruct Hwf as [Hnd _].
  unfold get. rewrite Hstore, (JsMap_get_filter _ _ _ Hnd). cbn [snd].
  destruct (JsMap.get (cache c) (generateKey cacheKey)) as [e|]; [|reflexivity].
  destruct (expired e now) eqn:Hexp; cbn; [reflexivity|].
  rewrite Hexp. reflexivity.
Qed.

Lemma get_after_cleanup_witness :
  let a := CacheKey.mk "/api/a" "" "baseline" 42 in
  let c := set (new (Some 10) (Some 1000)) a (JS.JNum 1) (Some 50) 0 0 in
  fst (get (cleanup c 100) a 100) = fst (get c a 100).
Proof.
  intros a c. apply get_after_cleanup. apply set_wf, new_wf.
Defined.

(** X3. [has] answers [true] exactly when the store holds an unexpired
    entry under the key, in which case [get] at the same reading returns
    that entry's data; unlike [get] it counts nothing and does not touch the
    entry, and it changes the store only by removing an expired entry. *)
Theorem has_is_get_without_counting c cacheKey now :
  let key := generateKey cacheKey in
  (fst (has c cacheKey now) = true <-> Spec.valid_entry c key now)
  /\ metrics (snd (has c cacheKey now)) = metrics c
  /\ (fst (has c cacheKey now) = true -> snd (has c cacheKey now) = c)
  /\ cache (snd (has c cacheKey now))
     = (if fst (has c cacheKey now) then cache c else JsMap.delete (cache c) key)
  /\ (fst (has c cacheKey now) = true ->
      fst (get c cacheKey now)
      = match JsMap.get (cache c) key with
        | Some entry => CacheEntry.data entry
        | None => JS.JNull
        end).
Proof.
  cbn zeta. unfold has, get, Spec.valid_entry.
  destruct (JsMap.get (cache c) (generateKey cacheKey)) as [e|] eqn:Hget.
  - destruct (expired e now) eqn:Hexp; cbn.
    + repeat split; try discriminate.
      intros (e' & [= <-] & Hlive). congruence.
    + repeat split. exists e. split; [reflexivity|exact Hexp].
  - cbn. repeat split; try discriminate.
    + intros (e' & [=] & _).
    + symmetry. apply JsMap_delete_notin, JsMap_get_None_notin. exact Hget.
Qed.

(** X4. What [set] stores is what [get] returns under the same key for as
    long as the entry has not expired, whatever the store held and whether
    or not the [set] had to evict: the entry just written is never the one
    evicted. The time-to-live is the one given, or the default when none
    or 0 is given. *)
Theorem get_after_set_returns_data c cacheKey cacheKey' data ttlMs now evictNow later :
  generateKey cacheKey' = generateKey cacheKey ->
  later - now <= JS.opt_num_or ttlMs (defaultTtlMs c) ->
  fst (get (set c cacheKey data ttlMs now evictNow) cacheKey' later) = data.
Proof.
  intros Hkey Hlive. unfold get. rewrite Hkey, set_lookup.
  unfold expired, Spec.fresh_entry. cbn.
  destruct (Z.gtb_spec (later - now) (JS.opt_num_or ttlMs (defaultTtlMs c)));
    [lia|reflexivity].
Qed.

Lemma get_after_set_returns_data_witness :
  fst (get (set (new (Some 1) (Some 1000))
                (CacheKey.mk "/api/users" "?b=2&a=1" "baseline" 42)
                (JS.JStr "users") None 0 0)
           (CacheKey.mk "/API//users?x" "a=1&b=2" "" 0) 1000)
  = JS.JStr "users".
Proof.
  apply get_after_set_returns_data; [vm_compute; reflexivity|vm_compute; discriminate].
Defined.

(** X5. Reading protects from eviction. In a store without repeated keys
    whose entries were all accessed no later than [t], a [get] at [t] that
    hits moves the entry out of the way of the next eviction: as long as
    the store holds an entry under another key, a following [set] under a
    different key, evicting or not, leaves the entry that was read in
    place, with its counter and [lastAccess] as the [get] left them. *)
Theorem read_entry_survives_next_set
    c cacheKey entry t other cacheKey2 data ttlMs now evictNow :
  Spec.wf_store (cache c) ->
  Inv.accessed_by (cache c) t ->
  JsMap.get (cache c) (generateKey cacheKey) = Some entry ->
  expired entry t = false ->
  other <> generateKey cacheKey ->
  JsMap.has (cache c) other = true ->
  generateKey cacheKey2 <> generateKey cacheKey ->
  JsMap.get (cache (set (snd (get c cacheKey t)) cacheKey2 data ttlMs now evictNow))
            (generateKey cacheKey)
  = Some (touch entry t).
Proof.
  intros [Hnd _] Hacc Hentry Hlive Hother Hhas Hkey2.
  set (key := generateKey cacheKey) in *.
  set (rest := JsMap.delete (cache c) key).
  assert (Hread : cache (snd (get c cacheKey t)) = rest ++ [(key, touch entry t)]).
  { unfold get. fold key. rewrite Hentry, Hlive. cbn [snd cache].
    apply JsMap_set_notin, JsMap_get_None_notin, JsMap_get_delete_eq. }
  assert (Hget1 : JsMap.get (cache (snd (get c cacheKey t))) key
                  = Some (touch entry t)).
  { unfold get. fold key. rewrite Hentry, Hlive. cbn [snd cache].
    apply JsMap_get_set_eq. }
  unfold set. cbn [cache with_cache]. fold key.
  rewrite JsMap_get_set_ne by (intros Heq; apply Hkey2; symmetry; exact Heq).
  destruct (JsMap.size _ >=? maxEntries _); [|exact Hget1].
  unfold evictLRU. rewrite oldest_is_scan.
  destruct (oldest_scan (cache (snd (get c cacheKey t))) (None, evictNow))
    as [[-> _]|(m1 & k0 & e0 & m2 & Hsplit & -> & _ & Hbefore & _)];
    [exact Hget1|].
  cbn [fst]. destruct (String.eqb k0 ""); [exact Hget1|].
  cbn [cache with_cache].
  rewrite JsMap_get_delete_ne; [exact Hget1|].
  intros <-.
  (* the entry that was read would have to be older than the others *)
  unfold JsMap.has in Hhas.
  destruct (JsMap.get (cache c) other) as [e1|] eqn:Hget_other; [|discriminate].
  assert (Hin_rest : In (other, e1) rest).
  { unfold rest, JsMap.delete. apply filter_In. split.
    - apply JsMap_get_Some_in. exact Hget_other.
    - cbn. apply negb_true_iff, String.eqb_neq. exact Hother. }
  assert (Hle : CacheEntry.lastAccess e1 <= t).
  { unfold Inv.accessed_by in Hacc. rewrite Forall_forall in Hacc.
    apply (Hacc (other, e1)), list_elem_of_In, JsMap_get_Some_in. exact Hget_other. }
  rewrite Hread in Hsplit.
  destruct m2 as [|x m2 _] using rev_ind.
  - apply app_inj_tail in Hsplit. destruct Hsplit as [<- [= <-]].
    rewrite Forall_forall in Hbefore.
    specialize (Hbefore (other, e1) (proj2 (list_elem_of_In _ _) Hin_rest)).
    cbn in Hbefore. lia.
  - rewrite app_comm_cons, app_assoc in Hsplit.
    apply app_inj_tail in Hsplit. destruct Hsplit as [Hrest _].
    assert (Hnot : ~ In key (map fst rest))
      by (apply JsMap_get_None_notin, JsMap_get_delete_eq).
    apply Hnot. rewrite Hrest, map_app. apply in_or_app. right. left. reflexivity.
Qed.

Lemma read_entry_survives_next_set_witness :
  let a := CacheKey.mk "/api/a" "" "baseline" 42 in
  let b := CacheKey.mk "/api/b" "" "baseline" 42 in
  let d := CacheKey.mk "/api/d" "" "baseline" 42 in
  let c := set (set (new (Some 2) (Some 1000)) a (JS.JNum 1) None 10 10)
               b (JS.JNum 2) None 20 20 in
  map fst (cache (set (snd (get c a 30)) d (JS.JNum 3) None 40 40))
  = [generateKey a; generateKey d]
  /\ JsMap.has (cache (set (snd (get c a 30)) d (JS.JNum 3) None 40 40))
               (generateKey a) = true.
Proof.
  intros a b d c. split; [vm_compute; reflexivity|].
  unfold JsMap.has.
  rewrite (read_entry_survives_next_set c a
             (Spec.fresh_entry (new (Some 2) (Some 1000)) a (JS.JNum 1) None 10)
             30 (generateKey b) d (JS.JNum 3) None 40 40).
  - reflexivity.
  - do 2 apply set_wf. apply new_wf.
  - repeat constructor; vm_compute; discriminate.
  - vm_compute. reflexivity.
  - vm_compute. reflexivity.
  - vm_compute. discriminate.
  - vm_compute. reflexivity.
  - vm_compute. discriminate.
Defined.

Lemma cleanup_wf c now :
  Spec.wf_store (cache c) -> Spec.wf_store (cache (cleanup c now)).
Proof.
  intros Hwf. destruct (cleanup_removes_exactly_expired c now Hwf) as [-> _].
  destruct Hwf as [Hnd Hne]. split.
  - apply NoDup_ListNoDup.
    assert (Hgen : forall (m : JsMap.t CacheEntry.t) P,
               List.NoDup (map fst m) -> List.NoDup (map fst (List.filter P m))).
    { intros m P. induction m as [|[k e] m IH]; cbn; [trivial|].
      intros Hm. apply List.NoDup_cons_iff in Hm. destruct Hm as [Hnot Hm].
      destruct (P (k, e)); cbn; [|auto].
      apply List.NoDup_cons; [|auto].
      intros Hin. apply Hnot. apply in_map_iff in Hin.
      destruct Hin as (kv & Hfst & Hin). apply filter_In in Hin.
      apply in_map_iff. exists kv. tauto. }
    apply Hgen, NoDup_ListNoDup. exact Hnd.
  - rewrite Forall_forall in *. intros k Hk. apply Hne.
    apply list_elem_of_In, in_map_iff in Hk. destruct Hk as (kv & Hfst & Hin).
    apply filter_In in Hin. apply list_elem_of_In, in_map_iff.
    exists kv. tauto.
Qed.

(** X6. The store never holds two entries under one key, nor an entry
    under the empty key: this holds of a new cache and of a cleared or
    destroyed one, and every method keeps it. *)
Theorem store_keys_stay_unique
    c cacheKey data ttlMs now evictNow opt_max opt_ttl update :
  Spec.wf_store (cache (new opt_max opt_ttl))
  /\ (Spec.wf_store (cache c) ->
      Spec.wf_store (cache (set c cacheKey data ttlMs now evictNow))
      /\ Spec.wf_store (cache (snd (get c cacheKey now)))
      /\ Spec.wf_store (cache (snd (has c cacheKey now)))
      /\ Spec.wf_store (cache (cleanup c now))
      /\ Spec.wf_store (cache (evictLRU c now))
      /\ Spec.wf_store (cache (updateMetrics c update)))
  /\ Spec.wf_store (cache (clear c))
  /\ Spec.wf_store (cache (CacheLifecycle.destroy c)).
Proof.
  split; [apply new_wf|]. split; [|split; apply wf_store_nil].
  intros Hwf. split; [apply set_wf; exact Hwf|].
  split; [apply get_wf; exact Hwf|].
  split.
  { unfold has. destruct (JsMap.get (cache c) (generateKey cacheKey)) as [e|];
      [|exact Hwf].
    destruct (expired e now); [|exact Hwf]. apply wf_store_delete. exact Hwf. }
  split; [apply cleanup_wf; exact Hwf|].
  split; [apply evictLRU_wf; exact Hwf|exact Hwf].
Qed.

Lemma store_keys_stay_unique_witness :
  let a := CacheKey.mk "/api/a" "" "baseline" 42 in
  Spec.wf_store
    (cache (set (set (new (Some 2) (Some 1000)) a (JS.JNum 1) None 10 10)
                a (JS.JNum 2) None 20 20)).
Proof.
  intros a.
  destruct (store_keys_stay_unique (new (Some 2) (Some 1000)) a (JS.JNum 1) None 10 10
              None None (PerformanceMetrics.mkPartial None None None None None None None None))
    as (_ & Hkeep & _).
  destruct (Hkeep (new_wf _ _)) as [Hset _].
  destruct (store_keys_stay_unique
              (set (new (Some 2) (Some 1000)) a (JS.JNum 1) None 10 10)
              a (JS.JNum 2) None 20 20
              None None (PerformanceMetrics.mkPartial None None None None None None None None))
    as (_ & Hkeep2 & _).
  destruct (Hkeep2 Hset) as [Hset2 _]. exact Hset2.
Defined.

End CacheMaintenance.


(** ** Cache keys: the normalized route *)

Section RouteNormalization.
Import ResponseCache.

Lemma before_first_free c s : JS.has_char c (JS.before_first c s) = false.
Proof.
  induction s as [|a s IH]; [reflexivity|].
  cbn. destruct (Ascii.eqb a c) eqn:Hac; [reflexivity|]. cbn. rewrite Hac. exact IH.
Qed.

Lemma before_first_id c s : JS.has_char c s = false -> JS.before_first c s = s.
Proof.
  induction s as [|a s IH]; [reflexivity|].
  cbn. destruct (Ascii.eqb a c); [discriminate|]. cbn. intros H. rewrite IH; auto.
Qed.

Lemma before_first_append c r q :
  JS.has_char c r = false -> JS.before_first c (String.append r (String c q)) = r.
Proof.
  induction r as [|a r IH]; cbn.
  - rewrite Ascii.eqb_refl. reflexivity.
  - destruct (Ascii.eqb a c); [discriminate|]. cbn. intros H. rewrite IH; auto.
Qed.

Lemma lower_char_facts a :
  JS.lower_char (JS.lower_char a) = JS.lower_char a
  /\ Inv.is_upper (JS.lower_char a) = false
  /\ Ascii.eqb (JS.lower_char a) "?" = Ascii.eqb a "?"
  /\ Ascii.eqb (JS.lower_char a) "/" = Ascii.eqb a "/"
  /\ (Inv.is_upper a = false -> JS.lower_char a = a).
Proof.
  destruct a as [[] [] [] [] [] [] [] []]; repeat split; discriminate.
Qed.

Lemma toLowerCase_no_upper s : Inv.has_upper (JS.toLowerCase s) = false.
Proof.
  induction s as [|a s IH]; [reflexivity|].
  cbn. rewrite IH. destruct (lower_char_facts a) as (_ & -> & _). reflexivity.
Qed.

Lemma toLowerCase_id s : Inv.has_upper s = false -> JS.toLowerCase s = s.
Proof.
  induction s as [|a s IH]; [reflexivity|].
  cbn. intros H. apply orb_false_iff in H. destruct H as [Ha Hs].
  destruct (lower_char_facts a) as (_ & _ & _ & _ & Hid).
  rewrite (Hid Ha), (IH Hs). reflexivity.
Qed.

Lemma toLowerCase_question s :
  JS.has_char "?" (JS.toLowerCase s) = JS.has_char "?" s.
Proof.
  induction s as [|a s IH]; [reflexivity|].
  cbn. rewrite IH. destruct (lower_char_facts a) as (_ & _ & -> & _). reflexivity.
Qed.

Lemma toLowerCase_before_first s :
  JS.toLowerCase (JS.before_first "?" s) = JS.before_first "?" (JS.toLowerCase s).
Proof.
  induction s as [|a s IH]; [reflexivity|].
  cbn. destruct (lower_char_facts a) as (_ & _ & -> & _).
  destruct (Ascii.eqb a "?"); [reflexivity|]. cbn. rewrite IH. reflexivity.
Qed.

Lemma toLowerCase_idem s : JS.toLowerCase (JS.toLowerCase s) = JS.toLowerCase s.
Proof. apply toLowerCase_id, toLowerCase_no_upper. Qed.

Lemma collapse_slashes_unfold a s :
  JS.collapse_slashes (String a s)
  = if Ascii.eqb a "/" then
      match s with
      | String b _ => if Ascii.eqb b "/" then JS.collapse_slashes s
                      else String a (JS.collapse_slashes s)
      | EmptyString => String a EmptyString
      end
    else String a (JS.collapse_slashes s).
Proof. destruct s; reflexivity. Qed.

(** [collapse_slashes] drops characters and adds none. *)
Lemma collapse_slashes_keeps_free (p : ascii -> bool) s :
  (fix free (x : string) : bool :=
     match x with
     | EmptyString => true
     | String a x' => negb (p a) && free x'
     end) s = true ->
  (fix free (x : string) : bool :=
     match x with
     | EmptyString => true
     | String a x' => negb (p a) && free x'
     end) (JS.collapse_slashes s) = true.
Proof.
  induction s as [|a s IH]; [reflexivity|].
  intros H. apply andb_true_iff in H. destruct H as [Ha Hs].
  rewrite collapse_slashes_unfold.
  destruct (Ascii.eqb a "/").
  - destruct s as [|b s']; [rewrite Ha; reflexivity|].
    destruct (Ascii.eqb b "/"); [exact (IH Hs)|].
    rewrite Ha. exact (IH Hs).
  - rewrite Ha. exact (IH Hs).
Qed.

Lemma free_is_no_char c s :
  (fix free (x : string) : bool :=
     match x with
     | EmptyString => true
     | String a x' => negb (Ascii.eqb a c) && free x'
     end) s = negb (JS.has_char c s).
Proof.
  induction s as [|a s IH]; [reflexivity|].
  cbn [JS.has_char]. rewrite IH, negb_orb. reflexivity.
Qed.

Lemma free_is_no_upper s :
  (fix free (x : string) : bool :=
     match x with
     | EmptyString => true
     | String a x' => negb (Inv.is_upper a) && free x'
     end) s = negb (Inv.has_upper s).
Proof.
  induction s as [|a s IH]; [reflexivity|].
  cbn [Inv.has_upper]. rewrite IH, negb_orb. reflexivity.
Qed.

Lemma collapse_slashes_question s :
  JS.has_char "?" s = false -> JS.has_char "?" (JS.collapse_slashes s) = false.
Proof.
  intros H. apply negb_true_iff. rewrite <- free_is_no_char.
  apply (collapse_slashes_keeps_free (fun a => Ascii.eqb a "?")).
  rewrite free_is_no_char, H. reflexivity.
Qed.

Lemma collapse_slashes_upper s :
  Inv.has_upper s = false -> Inv.has_upper (JS.collapse_slashes s) = false.
Proof.
  intros H. apply negb_true_iff. rewrite <- free_is_no_upper.
  apply (collapse_slashes_keeps_free Inv.is_upper).
  rewrite free_is_no_upper, H. reflexivity.
Qed.

Lemma has_double_slash_unfold a s :
  Inv.has_double_slash (String a s)
  = match s with
    | String b _ => (Ascii.eqb a "/" && Ascii.eqb b "/") || Inv.has_double_slash s
    | EmptyString => false
    end.
Proof. destruct s; reflexivity. Qed.

Lemma collapse_slashes_no_double s :
  Inv.has_double_slash (JS.collapse_slashes s) = false.
Proof.
  induction s as [|a s IH]; [reflexivity|].
  rewrite collapse_slashes_unfold.
  destruct (Ascii.eqb a "/") eqn:Ha.
  - destruct s as [|b s']; [reflexivity|].
    destruct (Ascii.eqb b "/") eqn:Hb; [exact IH|].
    rewrite has_double_slash_unfold.
    rewrite collapse_slashes_unfold, Hb in *.
    rewrite Hb, andb_false_r. exact IH.
  - rewrite has_double_slash_unfold.
    destruct (JS.collapse_slashes s); [reflexivity|].
    rewrite Ha. exact IH.
Qed.

Lemma collapse_slashes_id s :
  Inv.has_double_slash s = false -> JS.collapse_slashes s = s.
Proof.
  induction s as [|a s IH]; [reflexivity|].
  rewrite has_double_slash_unfold, collapse_slashes_unfold.
  destruct s as [|b s'].
  - intros _. destruct (Ascii.eqb a "/"); reflexivity.
  - intros H. apply orb_false_iff in H. destruct H as [Hab Hs].
    rewrite (IH Hs).
    destruct (Ascii.eqb a "/"); [|reflexivity].
    cbn in Hab. rewrite Hab. reflexivity.
Qed.

(** X7. The normalized route is a canonical form: it contains no query
    string, no ASCII upper-case letter and no two slashes in a row, and
    normalizing it again changes nothing. *)
Theorem normalizeRoute_canonical route :
  let n := normalizeRoute route in
  JS.has_char "?" n = false
  /\ Inv.has_upper n = false
  /\ Inv.has_double_slash n = false
  /\ normalizeRoute n = n.
Proof.
  cbn zeta. unfold normalizeRoute.
  assert (Hq : JS.has_char "?" (JS.collapse_slashes
                 (JS.toLowerCase (JS.before_first "?" route))) = false).
  { apply collapse_slashes_question. rewrite toLowerCase_question.
    apply before_first_free. }
  assert (Hu : Inv.has_upper (JS.collapse_slashes
                 (JS.toLowerCase (JS.before_first "?" route))) = false).
  { apply collapse_slashes_upper, toLowerCase_no_upper. }
  pose proof (collapse_slashes_no_double
                (JS.toLowerCase (JS.before_first "?" route))) as Hd.
  repeat split; try assumption.
  rewrite (before_first_id _ _ Hq), (toLowerCase_id _ Hu).
  apply collapse_slashes_id. exact Hd.
Qed.

(** X8. Only the path of the URL enters the cache key, without regard to
    letter case: a query string appended to the route, or a change of case,
    gives the same normalized route and so the same key. Two URLs that
    differ in their query strings alone share one cache entry unless
    [params] tells them apart. *)
Theorem generateKey_ignores_query_and_case route query params scenario seed :
  JS.has_char "?" route = false ->
  normalizeRoute (String.append route (String "?" query)) = normalizeRoute route
  /\ normalizeRoute (JS.toLowerCase route) = normalizeRoute route
  /\ generateKey (CacheKey.mk (String.append route (String "?" query))
                              params scenario seed)
     = generateKey (CacheKey.mk route params scenario seed)
  /\ generateKey (CacheKey.mk (JS.toLowerCase route) params scenario seed)
     = generateKey (CacheKey.mk route params scenario seed).
Proof.
  intros Hfree.
  assert (H1 : normalizeRoute (String.append route (String "?" query))
               = normalizeRoute route).
  { unfold normalizeRoute. rewrite (before_first_append _ _ _ Hfree).
    rewrite (before_first_id _ _ Hfree). reflexivity. }
  assert (H2 : normalizeRoute (JS.toLowerCase route) = normalizeRoute route).
  { unfold normalizeRoute. rewrite <- toLowerCase_before_first, toLowerCase_idem.
    reflexivity. }
  repeat split; try assumption; unfold generateKey; cbn [CacheKey.route];
    rewrite ?H1, ?H2; reflexivity.
Qed.

Lemma generateKey_ignores_query_and_case_witness :
  generateKey (CacheKey.mk "/api/Users?limit=5" "" "baseline" 42)
  = generateKey (CacheKey.mk "/api/Users" "" "baseline" 42).
Proof.
  apply (generateKey_ignores_query_and_case "/api/Users" "limit=5" "" "baseline" 42).
  reflexivity.
Defined.

End RouteNormalization.


(** ** Cache keys: the normalized parameters *)

Section ParamCanonical.
Import ResponseCache.

#[local] Existing Instances key_le_transitive key_le_antisym key_le_total.

(** The serializer escapes the characters the parser gives a meaning to. *)
Lemma encode_byte_escapes a k :
  JS.has_char "&" (URLSearchParams.encode_byte a k) = JS.has_char "&" k
  /\ JS.has_char "=" (URLSearchParams.encode_byte a k) = JS.has_char "=" k
  /\ JS.has_char "?" (URLSearchParams.encode_byte a k) = JS.has_char "?" k.
Proof. destruct a as [[] [] [] [] [] [] [] []]; repeat split. Qed.

Lemma encode_component_escapes s :
  JS.has_char "&" (URLSearchParams.encode_component s) = false
  /\ JS.has_char "=" (URLSearchParams.encode_component s) = false
  /\ JS.has_char "?" (URLSearchParams.encode_component s) = false.
Proof.
  induction s as [|a s (IH1 & IH2 & IH3)]; [repeat split|].
  cbn [URLSearchParams.encode_component].
  destruct (encode_byte_escapes a (URLSearchParams.encode_component s))
    as (-> & -> & ->).
  repeat split; assumption.
Qed.

(** Decoding undoes encoding, byte by byte. *)
Lemma decode_encode_byte a k :
  URLSearchParams.decode_component (URLSearchParams.encode_byte a k)
  = String a (URLSearchParams.decode_component k).
Proof. destruct a as [[] [] [] [] [] [] [] []]; reflexivity. Qed.

Lemma decode_encode_component s :
  URLSearchParams.decode_component (URLSearchParams.encode_component s) = s.
Proof.
  induction s as [|a s IH]; [reflexivity|].
  cbn [URLSearchParams.encode_component]. rewrite decode_encode_byte, IH.
  reflexivity.
Qed.

Lemma after_first_append c r q :
  JS.has_char c r = false ->
  JS.after_first c (String.append r (String c q)) = Some q.
Proof.
  induction r as [|a r IH]; cbn.
  - rewrite Ascii.eqb_refl. reflexivity.
  - destruct (Ascii.eqb a c); [discriminate|]. cbn. exact IH.
Qed.

Lemma parse_encode_pair kv :
  URLSearchParams.parse_pair (URLSearchParams.encode_pair kv) = kv.
Proof.
  destruct kv as [k v]. unfold URLSearchParams.parse_pair, URLSearchParams.encode_pair.
  cbn [fst snd].
  destruct (encode_component_escapes k) as (_ & Heq & _).
  rewrite (after_first_append _ _ _ Heq), (before_first_append _ _ _ Heq).
  rewrite !decode_encode_component. reflexivity.
Qed.

Lemma encode_pair_shape kv :
  JS.has_char "&" (URLSearchParams.encode_pair kv) = false
  /\ JS.has_char "?" (URLSearchParams.encode_pair kv) = false
  /\ String.eqb (URLSearchParams.encode_pair kv) "" = false.
Proof.
  unfold URLSearchParams.encode_pair.
  destruct (encode_component_escapes (fst kv)) as (Ha & _ & Hq).
  destruct (encode_component_escapes (snd kv)) as (Ha' & _ & Hq').
  rewrite !has_char_append. cbn [JS.has_char]. rewrite Ha, Ha', Hq, Hq'.
  repeat split. destruct (URLSearchParams.encode_component (fst kv)); reflexivity.
Qed.

Lemma split_on_free c s : JS.has_char c s = false -> JS.split_on c s = [s].
Proof.
  induction s as [|a s IH]; [reflexivity|].
  cbn. destruct (Ascii.eqb a c); [discriminate|]. cbn. intros H.
  rewrite (IH H). reflexivity.
Qed.

Lemma split_on_append c r q :
  JS.has_char c r = false ->
  JS.split_on c (String.append r (String c q)) = r :: JS.split_on c q.
Proof.
  induction r as [|a r IH]; cbn.
  - rewrite Ascii.eqb_refl. reflexivity.
  - destruct (Ascii.eqb a c); [discriminate|]. cbn. intros H.
    rewrite (IH H). reflexivity.
Qed.

(** Parsing what the serializer wrote gives the pairs back. *)
Lemma parse_toString pairs :
  URLSearchParams.parse (URLSearchParams.toString pairs) = pairs.
Proof.
  unfold URLSearchParams.parse, URLSearchParams.toString.
  induction pairs as [|kv pairs IH]; [reflexivity|].
  destruct (encode_pair_shape kv) as (Hamp & _ & Hne).
  cbn [map JS.join].
  destruct (map URLSearchParams.encode_pair pairs) as [|y ys] eqn:Hrest.
  - destruct pairs; [|discriminate].
    rewrite (split_on_free _ _ Hamp). cbn. rewrite Hne, parse_encode_pair.
    reflexivity.
  - change (String.append "&" ?x) with (String "&" x).
    rewrite (split_on_append _ _ _ Hamp). cbn [flat_map].
    rewrite Hne, parse_encode_pair. cbn [app]. f_equal. exact IH.
Qed.

Lemma toString_question_free pairs :
  JS.has_char "?" (URLSearchParams.toString pairs) = false.
Proof.
  unfold URLSearchParams.toString.
  induction pairs as [|kv pairs IH]; [reflexivity|].
  destruct (encode_pair_shape kv) as (_ & Hq & _).
  cbn [map JS.join]. destruct (map URLSearchParams.encode_pair pairs) as [|y ys].
  - exact Hq.
  - rewrite !has_char_append, Hq, IH. reflexivity.
Qed.

Lemma strip_question_id s :
  JS.has_char "?" s = false -> URLSearchParams.strip_question s = s.
Proof.
  destruct s as [|a rest]; [reflexivity|].
  cbn. destruct (Ascii.eqb a "?"); [discriminate|reflexivity].
Qed.

Lemma construct_toString pairs :
  URLSearchParams.construct (URLSearchParams.toString pairs) = Some pairs.
Proof.
  unfold URLSearchParams.construct.
  rewrite (strip_question_id _ (toString_question_free pairs)), parse_toString.
  reflexivity.
Qed.

Lemma normalizeParams_sorted_pairs params pairs :
  URLSearchParams.construct params = Some pairs ->
  normalizeParams params = URLSearchParams.toString (Inv.sorted_pairs pairs).
Proof. apply normalizeParams_of_pairs. Qed.

Lemma USP_get_none_iff (l : URLSearchParams.t) k :
  URLSearchParams.get l k = None <-> ~ In k (URLSearchParams.keys l).
Proof.
  split; [apply USP_get_none_notin|].
  induction l as [|[k1 v1] l IH]; cbn; [reflexivity|].
  intros Hnot. destruct (String.eqb_spec k1 k) as [->|Hne]; [tauto|].
  apply IH. tauto.
Qed.

Lemma USP_remove_notin (l : URLSearchParams.t) k :
  ~ In k (URLSearchParams.keys l) -> URLSearchParams.remove l k = l.
Proof.
  unfold URLSearchParams.remove.
  induction l as [|[k1 v1] l IH]; cbn; [reflexivity|].
  intros Hnot. destruct (String.eqb_spec k1 k) as [->|Hne]; [tauto|].
  cbn. f_equal. apply IH. tauto.
Qed.

Lemma USP_set_absent (l : URLSearchParams.t) k v :
  URLSearchParams.get l k = None -> URLSearchParams.set l k v = l ++ [(k, v)].
Proof.
  induction l as [|[k1 v1] l IH]; cbn; [reflexivity|].
  destruct (String.eqb_spec k1 k); [discriminate|].
  intros H. rewrite (IH H). reflexivity.
Qed.

Lemma USP_keys_set_present (l : URLSearchParams.t) k v w :
  NoDup (URLSearchParams.keys l) ->
  URLSearchParams.get l k = Some w ->
  URLSearchParams.keys (URLSearchParams.set l k v) = URLSearchParams.keys l.
Proof.
  unfold URLSearchParams.keys.
  induction l as [|[k1 v1] l IH]; cbn; [discriminate|].
  intros Hnd. apply NoDup_cons in Hnd. destruct Hnd as [Hnot Hnd].
  destruct (String.eqb_spec k1 k) as [->|Hne].
  - intros _. cbn. f_equal. rewrite USP_remove_notin; [reflexivity|].
    intros Hin. apply Hnot, list_elem_of_In. exact Hin.
  - intros H. cbn. f_equal. apply IH; assumption.
Qed.

Lemma StronglySorted_drop_middle (l1 l2 : list string) k :
  StronglySorted key_le (l1 ++ k :: l2) -> StronglySorted key_le (l1 ++ l2).
Proof.
  rewrite !StronglySorted_app, StronglySorted_cons.
  intros (Hcross & H1 & _ & H2). repeat split; try assumption.
  intros x1 x2 Hx1 Hx2. apply Hcross; [exact Hx1|]. right. exact Hx2.
Qed.

(** Rebuilding the pairs key by key, from keys in sorted order, leaves
    the keys sorted and without repetition. *)
Lemma rebuilt_keys_sorted (f : string -> string) (keys : list string) :
  forall acc : URLSearchParams.t,
    NoDup (URLSearchParams.keys acc) ->
    StronglySorted key_le (URLSearchParams.keys acc ++ keys) ->
    let r := fold_left (fun acc key => URLSearchParams.set acc key (f key)) keys acc in
    NoDup (URLSearchParams.keys r) /\ StronglySorted key_le (URLSearchParams.keys r).
Proof.
  induction keys as [|k keys IH]; intros acc Hnd Hsorted; cbn zeta.
  - rewrite app_nil_r in Hsorted. split; assumption.
  - cbn [fold_left].
    destruct (URLSearchParams.get acc k) as [w|] eqn:Hget.
    + apply IH.
      * rewrite (USP_keys_set_present acc k (f k) w Hnd Hget). exact Hnd.
      * rewrite (USP_keys_set_present acc k (f k) w Hnd Hget).
        apply (StronglySorted_drop_middle _ _ k). exact Hsorted.
    + rewrite (USP_set_absent acc k (f k) Hget).
      assert (Hkeys : URLSearchParams.keys (acc ++ [(k, f k)])
                      = URLSearchParams.keys acc ++ [k])
        by (unfold URLSearchParams.keys; rewrite map_app; reflexivity).
      apply IH.
      * rewrite Hkeys. apply NoDup_app. repeat split.
        -- exact Hnd.
        -- intros x Hx Hx'. apply list_elem_of_In in Hx'.
           destruct Hx' as [<-|[]].
           apply USP_get_none_notin in Hget. apply Hget, list_elem_of_In. exact Hx.
        -- apply NoDup_singleton.
      * rewrite Hkeys, <- app_assoc. exact Hsorted.
Qed.

Lemma sorted_pairs_keys pairs :
  NoDup (URLSearchParams.keys (Inv.sorted_pairs pairs))
  /\ StronglySorted key_le (URLSearchParams.keys (Inv.sorted_pairs pairs)).
Proof.
  unfold Inv.sorted_pairs.
  apply (rebuilt_keys_sorted _ (merge_sort key_le (URLSearchParams.keys pairs)) []).
  - constructor.
  - cbn. apply StronglySorted_merge_sort; apply _.
Qed.

Lemma str_or_empty v : JS.str_or v "" = v.
Proof. unfold JS.str_or. destruct (String.eqb_spec v ""); congruence. Qed.

(** Rebuilding pairs without repeated keys, key by key in their own
    order, gives the same pairs. *)
Lemma rebuild_same (pairs : URLSearchParams.t) :
  NoDup (URLSearchParams.keys pairs) ->
  forall done todo : URLSearchParams.t,
    pairs = done ++ todo ->
    fold_left
      (fun acc key =>
         URLSearchParams.set acc key
           (match URLSearchParams.get pairs key with
            | Some v => JS.str_or v ""
            | None => ""%string
            end))
      (URLSearchParams.keys todo) done
    = pairs.
Proof.
  intros Hnd done todo. revert done.
  induction todo as [|[k v] todo IH]; intros done Hsplit; cbn.
  - rewrite app_nil_r in Hsplit. congruence.
  - assert (Hget : URLSearchParams.get pairs k = Some v).
    { apply USP_get_in; [exact Hnd|]. rewrite Hsplit. apply in_or_app.
      right. left. reflexivity. }
    rewrite Hget, str_or_empty.
    assert (Habs : URLSearchParams.get done k = None).
    { apply USP_get_none_iff. intros Hin.
      rewrite Hsplit in Hnd. unfold URLSearchParams.keys in Hnd.
      rewrite map_app in Hnd. apply NoDup_app in Hnd.
      destruct Hnd as (_ & Hdisj & _).
      apply (Hdisj k); [apply list_elem_of_In; exact Hin|].
      left. }
    rewrite (USP_set_absent _ _ _ Habs).
    apply IH. rewrite Hsplit, <- app_assoc. reflexivity.
Qed.

Lemma sorted_pairs_fixpoint pairs :
  NoDup (URLSearchParams.keys pairs) ->
  StronglySorted key_le (URLSearchParams.keys pairs) ->
  Inv.sorted_pairs pairs = pairs.
Proof.
  intros Hnd Hsorted. unfold Inv.sorted_pairs.
  assert (Hsort : merge_sort key_le (URLSearchParams.keys pairs)
                  = URLSearchParams.keys pairs).
  { apply (StronglySorted_unique key_le).
    - apply StronglySorted_merge_sort; apply _.
    - exact Hsorted.
    - apply merge_sort_Permutation. }
  rewrite Hsort. apply (rebuild_same pairs Hnd [] pairs). reflexivity.
Qed.

(** X9. The normalized parameter string is a canonical form: parsed
    again it gives pairs whose keys are in ascending order without
    repetition, and normalizing it again changes nothing. *)
Theorem normalizeParams_canonical params :
  exists pairs,
    URLSearchParams.construct (normalizeParams params) = Some pairs
    /\ NoDup (URLSearchParams.keys pairs)
    /\ StronglySorted key_le (URLSearchParams.keys pairs)
    /\ normalizeParams (normalizeParams params) = normalizeParams params.
Proof.
  destruct (URLSearchParams.construct params) as [parsed|] eqn:Hctor;
    [|discriminate].
  rewrite (normalizeParams_sorted_pairs params parsed Hctor).
  exists (Inv.sorted_pairs parsed).
  destruct (sorted_pairs_keys parsed) as [Hnd Hsorted].
  split; [apply construct_toString|]. split; [exact Hnd|]. split; [exact Hsorted|].
  rewrite (normalizeParams_sorted_pairs _ _ (construct_toString _)).
  rewrite (sorted_pairs_fixpoint _ Hnd Hsorted). reflexivity.
Qed.

(** X10. One leading question mark is ignored: "?a=1&b=2" and "a=1&b=2"
    have the same normal form, and the lone "?" has the normal form of the
    empty string. *)
Theorem normalizeParams_ignores_leading_question params :
  (forall a rest, params = String a rest -> Ascii.eqb a "?" = false) ->
  normalizeParams (String "?" params) = normalizeParams params.
Proof.
  intros Hhead.
  rewrite (normalizeParams_sorted_pairs (String "?" params)
             (URLSearchParams.parse params) eq_refl).
  destruct params as [|a rest]; [reflexivity|].
  symmetry. apply normalizeParams_sorted_pairs.
  unfold URLSearchParams.construct. cbn [URLSearchParams.strip_question].
  rewrite (Hhead a rest eq_refl). reflexivity.
Qed.

Lemma normalizeParams_ignores_leading_question_witness :
  normalizeParams "?b=2&a=1" = normalizeParams "b=2&a=1".
Proof.
  apply normalizeParams_ignores_leading_question.
  intros a rest [= <- _]. reflexivity.
Defined.

End ParamCanonical.


(** ** The timeout executor: outcomes and counters *)

Section TimeoutOutcomes.
Import Effect TimeoutManager.

(** X11. When the budget runs out: with passthrough enabled and a
    fallback supplied, the fallback is called once and decides the result,
    its value with [timedOut = true] and [source = 'passthrough'], or its own
    error, which replaces the timeout error; otherwise the fallback is not
    called and the call throws the [Error] "Fixture timeout after <budget>ms".
    Either way one timeout and one request are counted. *)
Theorem fetchWithTimeout_on_exhausted_budget tm fallbackFn clk :
  let run := fetchWithTimeout TimerFirst fallbackFn clk tm [] in
  let cfg := config tm in
  timeoutHits (snd (fst run)) = timeoutHits tm + 1
  /\ totalRequests (snd (fst run)) = totalRequests tm + 1
  /\ (forall v, TimeoutBudget.enablePassthrough cfg = true ->
                fallbackFn = Some (JS.Fulfilled v) ->
                fst (fst run) = Returned (mkOutcome v true passthrough)
                /\ Spec.invoked InvokePassthrough (snd run) = true)
  /\ (forall fe, TimeoutBudget.enablePassthrough cfg = true ->
                 fallbackFn = Some (JS.Rejected fe) ->
                 fst (fst run) = Threw fe
                 /\ Spec.invoked InvokePassthrough (snd run) = true)
  /\ (TimeoutBudget.enablePassthrough cfg = false \/ fallbackFn = None ->
      fst (fst run)
      = Threw (JS.ErrorObj
                 (String.append "Fixture timeout after "
                    (String.append
                       (JS.number_to_string (TimeoutBudget.fixtureTimeoutMs cfg))
                       "ms")))
      /\ Spec.invoked InvokePassthrough (snd run) = false).
Proof.
  destruct tm as [[ms pass logs] hits total]. cbn zeta. cbn [config].
  cbn [TimeoutBudget.enablePassthrough TimeoutBudget.fixtureTimeoutMs].
  split; [destruct logs, pass, fallbackFn as [[w|fe]|]; reflexivity|].
  split; [destruct logs, pass, fallbackFn as [[w|fe]|]; reflexivity|].
  split; [intros v -> ->; destruct logs; split; reflexivity|].
  split; [intros fe -> ->; destruct logs; split; reflexivity|].
  intros [->| ->]; destruct logs; try destruct pass;
    try destruct fallbackFn as [[w|fe]|]; split; reflexivity.
Qed.

Lemma fetchWithTimeout_on_exhausted_budget_witness :
  fst (fst (fetchWithTimeout TimerFirst None (mkReadings 0 50)
              (new (TimeoutBudget.mk 50 true true)) []))
  = Threw (JS.ErrorObj "Fixture timeout after 50ms").
Proof.
  destruct (fetchWithTimeout_on_exhausted_budget
              (new (TimeoutBudget.mk 50 true true)) None (mkReadings 0 50))
    as (_ & _ & _ & _ & Hnone).
  destruct (Hnone (or_intror eq_refl)) as [Hthrow _]. exact Hthrow.
Defined.

(** X12. Provenance of a returned outcome. An outcome with
    [source = 'fixture'] is never timed out and carries the value the
    primary operation resolved with before the timer; an outcome with
    [source = 'passthrough'] is always timed out and carries the value of the
    fallback, which was supplied and enabled, the primary having been taken
    for a timeout. There is no third kind. *)
Theorem fetchWithTimeout_outcome_provenance tm fetchFn fallbackFn clk o :
  fst (fst (fetchWithTimeout fetchFn fallbackFn clk tm [])) = Returned o ->
  (source o = fixture /\ timedOut o = false
   /\ fetchFn = SettlesFirst (JS.Fulfilled (result o)))
  \/ (source o = passthrough /\ timedOut o = true
      /\ fallbackFn = Some (JS.Fulfilled (result o))
      /\ Spec.timeout_like fetchFn = true
      /\ TimeoutBudget.enablePassthrough (config tm) = true).
Proof.
  destruct tm as [[ms pass logs] hits total].
  destruct fetchFn as [[v|e]|]; cbn.
  - destruct (logs && _); cbn; intros [= <-]; left; repeat split.
  - destruct (isTimeout e) eqn:He; cbn; [|discriminate].
    destruct logs, pass, fallbackFn as [[w|fe]|]; cbn; intros [= <-];
      right; repeat split.
  - destruct logs, pass, fallbackFn as [[w|fe]|]; cbn; intros [= <-];
      right; repeat split.
Qed.

Lemma fetchWithTimeout_outcome_provenance_witness :
  Spec.timeout_like TimerFirst = true
  /\ fst (fst (fetchWithTimeout TimerFirst (Some (JS.Fulfilled (JS.JStr "live")))
                 (mkReadings 0 50) (new (TimeoutBudget.mk 50 true true)) []))
     = Returned (mkOutcome (JS.JStr "live") true passthrough).
Proof.
  assert (Hrun : fst (fst (fetchWithTimeout TimerFirst
                             (Some (JS.Fulfilled (JS.JStr "live")))
                             (mkReadings 0 50)
                             (new (TimeoutBudget.mk 50 true true)) []))
                 = Returned (mkOutcome (JS.JStr "live") true passthrough))
    by reflexivity.
  destruct (fetchWithTimeout_outcome_provenance _ _ _ _ _ Hrun)
    as [(Hsrc & _)|(_ & _ & _ & Hlike & _)]; [discriminate Hsrc|].
  split; [exact Hlike|exact Hrun].
Defined.

(** What one call does to the two counters. *)
Lemma fetchWithTimeout_counters tm fetchFn fallbackFn clk tr :
  let tm' := snd (fst (fetchWithTimeout fetchFn fallbackFn clk tm tr)) in
  totalRequests tm' = totalRequests tm + 1
  /\ timeoutHits tm'
     = timeoutHits tm + (if Spec.timeout_like fetchFn then 1 else 0).
Proof.
  destruct tm as [[ms pass logs] hits total].
  destruct fetchFn as [[v|e]|]; cbn.
  - destruct (logs && _); cbn; split; lia.
  - destruct (isTimeout e); cbn; [|split; lia].
    destruct logs, pass, fallbackFn as [[w|fe]|]; cbn; split; lia.
  - destruct logs, pass, fallbackFn as [[w|fe]|]; cbn; split; lia.
Qed.

Lemma rate_bounds a b : 0 <= a <= b -> (0 <= rate a b)%Q /\ (rate a b <= 1)%Q.
Proof.
  intros [Ha Hab]. unfold rate. destruct (Z.ltb_spec 0 b) as [Hb|Hb].
  - destruct b as [|p|p]; try lia.
    unfold Qle, Qdiv, Qmult, Qinv, inject_Z. cbn.
    rewrite ?Z.mul_1_r, ?Pos.mul_1_l. split; lia.
  - split; unfold Qle; cbn; lia.
Qed.

(** A call run in one piece is its two steps run one after the other. *)
Lemma fetchWithTimeout_by_steps tm fetchFn fallbackFn clk tr :
  fetchWithTimeout fetchFn fallbackFn clk tm tr
  = (let! timeoutMs := TimeoutSteps.enter in
     TimeoutSteps.resume timeoutMs fetchFn fallbackFn clk) tm tr.
Proof.
  destruct tm as [[ms pass logs] hits total].
  unfold fetchWithTimeout, TimeoutSteps.enter, TimeoutSteps.resume.
  destruct fetchFn as [[v|e]|];
    unfold bind, try_catch, modify, gets, emit, race, await, ret, throw, when;
    cbn [config bump_totalRequests TimeoutBudget.fixtureTimeoutMs
         TimeoutBudget.logTimeouts TimeoutBudget.enablePassthrough].
  - destruct (logs && _); reflexivity.
  - destruct (isTimeout e); [|reflexivity].
    cbn [config bump_timeoutHits TimeoutBudget.fixtureTimeoutMs
         TimeoutBudget.logTimeouts TimeoutBudget.enablePassthrough].
    destruct logs, pass, fallbackFn as [[w|fe]|]; reflexivity.
  - destruct (isTimeout (timeout_error ms)); [|reflexivity].
    cbn [config bump_timeoutHits TimeoutBudget.fixtureTimeoutMs
         TimeoutBudget.logTimeouts TimeoutBudget.enablePassthrough].
    destruct logs, pass, fallbackFn as [[w|fe]|]; reflexivity.
Qed.

Lemma enter_counters tm tr :
  exists timeoutMs tm' tr',
    TimeoutSteps.enter tm tr = (Returned timeoutMs, tm', tr')
    /\ totalRequests tm' = totalRequests tm + 1
    /\ timeoutHits tm' = timeoutHits tm.
Proof.
  destruct tm as [[ms pass logs] hits total]. cbn.
  eexists _, _, _. split; [reflexivity|]. cbn. split; reflexivity.
Qed.

Lemma resume_counters timeoutMs fetchFn fallbackFn clk tm tr :
  let tm' := snd (fst (TimeoutSteps.resume timeoutMs fetchFn fallbackFn clk tm tr)) in
  totalRequests tm' = totalRequests tm
  /\ timeoutHits tm'
     = timeoutHits tm + (if Spec.timeout_like fetchFn then 1 else 0).
Proof.
  destruct tm as [[ms pass logs] hits total].
  unfold TimeoutSteps.resume, Spec.timeout_like.
  destruct fetchFn as [[v|e]|];
    unfold bind, try_catch, modify, gets, emit, race, await, ret, throw, when;
    cbn [config TimeoutBudget.fixtureTimeoutMs
         TimeoutBudget.logTimeouts TimeoutBudget.enablePassthrough].
  - destruct (logs && _); cbn; split; lia.
  - destruct (isTimeout e); [|cbn; split; lia].
    cbn [config bump_timeoutHits TimeoutBudget.fixtureTimeoutMs
         TimeoutBudget.logTimeouts TimeoutBudget.enablePassthrough].
    destruct logs, pass, fallbackFn as [[w|fe]|]; cbn; split; lia.
  - assert (Hlike : isTimeout (timeout_error timeoutMs) = true)
      by apply timeout_error_isTimeout.
    rewrite Hlike.
    cbn [config bump_timeoutHits TimeoutBudget.fixtureTimeoutMs
         TimeoutBudget.logTimeouts TimeoutBudget.enablePassthrough].
    destruct logs, pass, fallbackFn as [[w|fe]|]; cbn; split; lia.
Qed.

(** While every [reset] comes at rest, the calls that await their race
    are requests counted and not yet timeouts. *)
Lemma run_counters schedule : forall w,
  TimeoutSteps.resets_at_rest (length (TimeoutSteps.pending w)) schedule = true ->
  0 <= timeoutHits (TimeoutSteps.manager w) ->
  timeoutHits (TimeoutSteps.manager w) + Z.of_nat (length (TimeoutSteps.pending w))
  <= totalRequests (TimeoutSteps.manager w) ->
  let w' := TimeoutSteps.run schedule w in
  0 <= timeoutHits (TimeoutSteps.manager w')
  /\ timeoutHits (TimeoutSteps.manager w') + Z.of_nat (length (TimeoutSteps.pending w'))
     <= totalRequests (TimeoutSteps.manager w').
Proof.
  induction schedule as [|a rest IH]; intros w Hrest Hpos Hle; [cbn; auto|].
  cbn zeta. unfold TimeoutSteps.run. cbn [fold_left].
  apply IH; clear IH; destruct a as [|i fetchFn fallbackFn clk|];
    cbn [TimeoutSteps.step TimeoutSteps.resets_at_rest] in *.
  - destruct (enter_counters (TimeoutSteps.manager w) (TimeoutSteps.trace w))
      as (ms & tm' & tr' & -> & _ & _). cbn.
    rewrite length_app, Nat.add_1_r. exact Hrest.
  - destruct (TimeoutSteps.pending w !! i) as [ms|] eqn:Hi.
    + destruct (TimeoutSteps.resume ms fetchFn fallbackFn clk _ _) as [[r tm'] tr'].
      cbn [TimeoutSteps.pending]. rewrite length_delete by eauto.
      apply lookup_lt_Some in Hi. apply Nat.ltb_lt in Hi. rewrite Hi in Hrest.
      rewrite Nat.sub_1_r. exact Hrest.
    + apply lookup_ge_None in Hi.
      destruct (Nat.ltb_spec i (length (TimeoutSteps.pending w))); [lia|].
      exact Hrest.
  - apply andb_prop in Hrest. exact (proj2 Hrest).
  - destruct (enter_counters (TimeoutSteps.manager w) (TimeoutSteps.trace w))
      as (ms & tm' & tr' & -> & _ & Hh). cbn. lia.
  - destruct (TimeoutSteps.pending w !! i) as [ms|] eqn:Hi; [|exact Hpos].
    pose proof (resume_counters ms fetchFn fallbackFn clk (TimeoutSteps.manager w)
                  (TimeoutSteps.trace w)) as [_ Hh]. cbn zeta in Hh.
    destruct (TimeoutSteps.resume ms fetchFn fallbackFn clk _ _) as [[r tm'] tr'].
    cbn [fst snd TimeoutSteps.manager] in *.
    destruct (Spec.timeout_like fetchFn); lia.
  - cbn. lia.
  - destruct (enter_counters (TimeoutSteps.manager w) (TimeoutSteps.trace w))
      as (ms & tm' & tr' & -> & Ht & Hh). cbn.
    rewrite length_app. cbn [length]. lia.
  - destruct (TimeoutSteps.pending w !! i) as [ms|] eqn:Hi; [|exact Hle].
    pose proof (resume_counters ms fetchFn fallbackFn clk (TimeoutSteps.manager w)
                  (TimeoutSteps.trace w)) as [Ht Hh]. cbn zeta in Ht, Hh.
    destruct (TimeoutSteps.resume ms fetchFn fallbackFn clk _ _) as [[r tm'] tr'].
    cbn [fst snd TimeoutSteps.manager TimeoutSteps.pending] in *.
    rewrite length_delete by eauto. apply lookup_lt_Some in Hi.
    destruct (Spec.timeout_like fetchFn); lia.
  - apply andb_prop in Hrest. destruct Hrest as [Hzero _].
    apply Nat.eqb_eq in Hzero. cbn. rewrite Hzero. cbn. lia.
Qed.

(** X13. Every timeout belongs to a request as long as [reset] is not
    called while a call awaits its race. Whatever calls start on a new
    manager and in whatever order their races settle, with [reset] called
    only at moments when no call is pending, [0 <= timeoutHits], every
    pending call is a request counted and not yet a timeout, so
    [timeoutHits <= totalRequests], and the timeout rate that [getStats]
    reports lies between 0 and 1. A [reset] that falls between the start of
    a call and the timeout of its race breaks this: the timeout is counted
    after the request was forgotten, and one more timed-out call later the
    manager reports 2 timeouts for 1 request, a timeout rate of 2. A call
    during which nothing else happens is its two steps in a row. *)
Theorem timeout_counters_under_interleaving
    cfg schedule fallbackFn clk tm fetchFn tr :
  (TimeoutSteps.resets_at_rest 0 schedule = true ->
   let w := TimeoutSteps.run schedule (TimeoutSteps.start cfg) in
   Inv.timeout_counters (TimeoutSteps.manager w)
   /\ timeoutHits (TimeoutSteps.manager w)
      + Z.of_nat (length (TimeoutSteps.pending w))
      <= totalRequests (TimeoutSteps.manager w)
   /\ (0 <= s_timeoutRate (getStats (TimeoutSteps.manager w)))%Q
   /\ (s_timeoutRate (getStats (TimeoutSteps.manager w)) <= 1)%Q)
  /\ (let w := TimeoutSteps.run
                 [TimeoutSteps.Enter; TimeoutSteps.Reset;
                  TimeoutSteps.RaceSettles 0 TimerFirst fallbackFn clk;
                  TimeoutSteps.Enter;
                  TimeoutSteps.RaceSettles 0 TimerFirst fallbackFn clk]
                 (TimeoutSteps.start cfg) in
      timeoutHits (TimeoutSteps.manager w) = 2
      /\ totalRequests (TimeoutSteps.manager w) = 1
      /\ TimeoutSteps.pending w = []
      /\ (s_timeoutRate (getStats (TimeoutSteps.manager w)) == 2)%Q)
  /\ (let w := TimeoutSteps.run
                 [TimeoutSteps.Enter;
                  TimeoutSteps.RaceSettles 0 fetchFn fallbackFn clk]
                 (TimeoutSteps.mkWorld tm [] tr) in
      TimeoutSteps.manager w
      = snd (fst (fetchWithTimeout fetchFn fallbackFn clk tm tr))
      /\ TimeoutSteps.trace w = snd (fetchWithTimeout fetchFn fallbackFn clk tm tr)
      /\ TimeoutSteps.pending w = []).
Proof.
  split; [|split].
  - intros Hrest. cbn zeta.
    destruct (run_counters schedule (TimeoutSteps.start cfg) Hrest)
      as [Hpos Hle]; [cbn; lia..|].
    cbn zeta in Hpos, Hle.
    assert (Hinv : Inv.timeout_counters
                     (TimeoutSteps.manager
                        (TimeoutSteps.run schedule (TimeoutSteps.start cfg))))
      by (unfold Inv.timeout_counters; lia).
    split; [exact Hinv|]. split; [exact Hle|].
    apply (rate_bounds _ _ Hinv).
  - destruct cfg as [ms pass logs].
    destruct logs, pass, fallbackFn as [[w|fe]|]; cbn; repeat split.
  - rewrite fetchWithTimeout_by_steps.
    unfold TimeoutSteps.run. cbn [fold_left TimeoutSteps.step
      TimeoutSteps.manager TimeoutSteps.trace TimeoutSteps.pending].
    unfold bind.
    destruct (enter_counters tm tr) as (ms & tm' & tr' & -> & _ & _).
    cbn [app lookup list_lookup TimeoutSteps.pending TimeoutSteps.manager
         TimeoutSteps.trace].
    destruct (TimeoutSteps.resume ms fetchFn fallbackFn clk tm' tr')
      as [[r tm2] tr2].
    cbn. repeat split.
Qed.

Lemma timeout_counters_under_interleaving_witness :
  let clk := mkReadings 0 50 in
  let w := TimeoutSteps.run
             [TimeoutSteps.Enter; TimeoutSteps.Enter;
              TimeoutSteps.RaceSettles 1 TimerFirst None clk;
              TimeoutSteps.RaceSettles 0
                (SettlesFirst (JS.Fulfilled (JS.JStr "fixture"))) None clk;
              TimeoutSteps.Reset; TimeoutSteps.Enter;
              TimeoutSteps.RaceSettles 0 TimerFirst None clk;
              TimeoutSteps.Enter]
             (TimeoutSteps.start (TimeoutBudget.mk 50 true true)) in
  Inv.timeout_counters (TimeoutSteps.manager w)
  /\ timeoutHits (TimeoutSteps.manager w) = 1
  /\ totalRequests (TimeoutSteps.manager w) = 2.
Proof.
  intros clk w.
  destruct (timeout_counters_under_interleaving
              (TimeoutBudget.mk 50 true true)
              [TimeoutSteps.Enter; TimeoutSteps.Enter;
               TimeoutSteps.RaceSettles 1 TimerFirst None clk;
               TimeoutSteps.RaceSettles 0
                 (SettlesFirst (JS.Fulfilled (JS.JStr "fixture"))) None clk;
               TimeoutSteps.Reset; TimeoutSteps.Enter;
               TimeoutSteps.RaceSettles 0 TimerFirst None clk;
               TimeoutSteps.Enter]
              None clk (new (TimeoutBudget.mk 50 true true)) TimerFirst [])
    as (Hkeep & _).
  destruct (Hkeep eq_refl) as (Hinv & _).
  split; [exact Hinv|]. vm_compute. split; reflexivity.
Defined.

Lemma settle_all_counters requests : forall fallbacks clks index tm tr,
  let tm' := snd (fst (settle_all requests fallbacks clks index tm tr)) in
  totalRequests tm' = totalRequests tm + Z.of_nat (length requests)
  /\ timeoutHits tm' = timeoutHits tm + Inv.timeouts_among requests.
Proof.
  unfold Inv.timeouts_among.
  induction requests as [|fetchFn rest IH]; intros fallbacks clks index tm tr.
  - cbn. split; lia.
  - cbn zeta.
    set (one := fetchWithTimeout fetchFn (fallback_at fallbacks index)
                                 (clks index) tm tr).
    assert (Hrun : snd (fst (settle_all (fetchFn :: rest) fallbacks clks index tm tr))
                   = snd (fst (settle_all rest fallbacks clks (S index)
                                 (snd (fst one)) (snd one)))).
    { cbn [settle_all]. unfold bind, settle. fold one.
      destruct one as [[r tm1] tr1]. cbn [fst snd].
      destruct (settle_all rest fallbacks clks (S index) tm1 tr1)
        as [[[rs|e] tm2] tr2]; reflexivity. }
    rewrite Hrun.
    destruct (IH fallbacks clks (S index) (snd (fst one)) (snd one)) as [IHt IHh].
    destruct (fetchWithTimeout_counters tm fetchFn (fallback_at fallbacks index)
                (clks index) tr) as [Ht Hh].
    fold one in Ht, Hh. rewrite IHt, IHh, Ht, Hh.
    cbn [List.filter length]. destruct (Spec.timeout_like fetchFn);
      cbn [length]; split; lia.
Qed.

(** X14. A batch of N requests counts N requests and as many timeouts
    as there are requests taken for a timeout, whatever the fallbacks do;
    the configuration is left alone. *)
Theorem fetchMultipleWithTimeout_counters tm requests fallbacks clks :
  let tm' := snd (fst (fetchMultipleWithTimeout requests fallbacks clks tm [])) in
  totalRequests tm' = totalRequests tm + Z.of_nat (length requests)
  /\ timeoutHits tm' = timeoutHits tm + Inv.timeouts_among requests
  /\ config tm' = config tm.
Proof.
  cbn zeta. unfold fetchMultipleWithTimeout, bind.
  pose proof (settle_all_counters requests fallbacks clks 0%nat tm []) as Hc.
  destruct (settle_all_spec requests fallbacks clks 0%nat tm [])
    as (tm1 & tr1 & Hall & Hcfg).
  cbn zeta in Hc. rewrite Hall in *. cbn [fst snd] in *.
  destruct Hc as [Ht Hh]. repeat split; assumption.
Qed.

Lemma index_timeout_in_digits d tail :
  String.index 0 "timeout" tail = None ->
  String.index 0 "timeout" (String.append (NilEmpty.string_of_uint d) tail) = None.
Proof.
  intros Htail. induction d; cbn; rewrite ?IHd; try reflexivity; exact Htail.
Qed.

Lemma index_timeout_in_number n :
  String.index 0 "timeout" (String.append (JS.number_to_string n) "ms") = None.
Proof.
  unfold JS.number_to_string. destruct (Z.to_int n) as [d|d]; cbn.
  - apply index_timeout_in_digits. reflexivity.
  - rewrite index_timeout_in_digits; reflexivity.
Qed.

(** The default message of [createTimeoutPromise] says "timed out", not
    "timeout". *)
Lemma default_rejection_wording timeoutMs :
  exists message,
    TimeoutUtil.timeout_rejection timeoutMs None = JS.ErrorObj message
    /\ JS.includes message "timed out" = true
    /\ JS.includes message "timeout" = false.
Proof.
  eexists. split; [reflexivity|].
  pose proof (index_timeout_in_number timeoutMs) as Hnum. revert Hnum.
  generalize (String.append (JS.number_to_string timeoutMs) "ms") as tail.
  intros tail Htail. split; [reflexivity|].
  unfold JS.includes. cbn. rewrite Htail. reflexivity.
Qed.

(** X15. [isTimeoutError] recognises whatever [fetchWithTimeout] takes
    for a timeout, but not the other way round: the rejection that
    [withTimeout] produces with its default message is a timeout for
    [isTimeoutError] and an ordinary failure for [fetchWithTimeout]. A
    primary operation wrapped in [withTimeout] whose inner timer fires
    before the budget is therefore not answered by the fallback: the inner
    rejection reaches the caller and no timeout is counted. *)
Theorem inner_default_timeout_is_not_a_budget_timeout
    tm fallbackFn clk innerMs name :
  (forall e, isTimeout e = true -> TimeoutUtil.isTimeoutError name e = true)
  /\ TimeoutUtil.isTimeoutError name (TimeoutUtil.timeout_rejection innerMs None) = true
  /\ isTimeout (TimeoutUtil.timeout_rejection innerMs None) = false
  /\ fetchWithTimeout
       (SettlesFirst (TimeoutUtil.withTimeout TimerFirst innerMs None))
       fallbackFn clk tm []
     = (Threw (TimeoutUtil.timeout_rejection innerMs None),
        bump_totalRequests tm, [InvokeFixture]).
Proof.
  destruct (default_rejection_wording innerMs) as (message & Hmsg & Hyes & Hno).
  split.
  { intros [m|v] He; cbn in *; [rewrite He; reflexivity|discriminate]. }
  split; [rewrite Hmsg; cbn; rewrite Hyes, orb_true_r; reflexivity|].
  assert (Hnot : isTimeout (TimeoutUtil.timeout_rejection innerMs None) = false)
    by (rewrite Hmsg; exact Hno).
  split; [exact Hnot|].
  cbn [TimeoutUtil.withTimeout].
  generalize dependent (TimeoutUtil.timeout_rejection innerMs None).
  intros e _ He. destruct tm as [[ms pass logs] hits total].
  cbn. rewrite He. reflexivity.
Qed.

Lemma inner_default_timeout_is_not_a_budget_timeout_witness :
  TimeoutUtil.isTimeoutError "Error" (timeout_error 35) = true.
Proof.
  destruct (inner_default_timeout_is_not_a_budget_timeout
              (new (TimeoutBudget.mk 35 true true)) None (mkReadings 0 5) 10 "Error")
    as [Hsub _].
  apply Hsub. reflexivity.
Defined.

End TimeoutOutcomes.

(** ** The manager: classification, bypass, warm cache, reset, configuration *)

Section ManagerBehaviour.
Import Effect PerformanceManager.

(** X16. The response of a call that returns is classified consistently:
    [fromCache] holds exactly when [source] is 'cache', a cached response is
    never timed out and never [null], [timedOut] holds exactly when [source]
    is 'passthrough', and the latency is measured from entry to the reading
    after the hit, or after the timeout executor, as the case may be. *)
Theorem executeFixtureRequest_classification
    m fixtureFn passthroughFn opts scenario clk r m' tr' :
  executeFixtureRequest fixtureFn passthroughFn opts scenario clk m []
  = (Returned r, m', tr') ->
  (fromCache r = true <-> source r = from_cache)
  /\ (timedOut r = true <-> source r = passthrough)
  /\ (source r = from_cache ->
      timedOut r = false /\ JS.not_null (result r) = true
      /\ latencyMs r = atHit clk - atEntry clk
      /\ Spec.useCache m opts = true)
  /\ (source r <> from_cache -> latencyMs r = atDone clk - atEntry clk).
Proof.
  rewrite executeFixtureRequest_run. cbn zeta.
  destruct (Spec.useCache m opts) eqn:Huse; cbn [andb].
  - destruct (JS.not_null _) eqn:Hnn.
    + intros [= <- <- <-]. cbn. repeat split; try discriminate; try tauto.
    + pose proof (fetchWithTimeout_returned (timeoutManager m) fixtureFn
                    (Some passthroughFn) (atFetch clk)) as Hret.
      destruct (TimeoutManager.fetchWithTimeout _ _ _ _ _) as [[r0 tm1] evs].
      cbn [fst snd] in *. destruct r0 as [[res timed src]|e]; [|discriminate].
      destruct (Hret _ eq_refl) as [_ Htimed]. cbn in Htimed. subst timed.
      intros [= <- <- <-]. cbn. destruct src; cbn;
        repeat split; try discriminate; try tauto.
  - pose proof (fetchWithTimeout_returned (timeoutManager m) fixtureFn
                  (Some passthroughFn) (atFetch clk)) as Hret.
    destruct (TimeoutManager.fetchWithTimeout _ _ _ _ _) as [[r0 tm1] evs].
    cbn [fst snd] in *. destruct r0 as [[res timed src]|e]; [|discriminate].
    destruct (Hret _ eq_refl) as [_ Htimed]. cbn in Htimed. subst timed.
    intros [= <- <- <-]. cbn. destruct src; cbn;
      repeat split; try discriminate; try tauto.
Qed.

Lemma executeFixtureRequest_classification_witness :
  let cfg := PerformanceConfig.mk (PerformanceConfig.mkCache true 10 1000 60000)
               (TimeoutBudget.mk 50 true true)
               (PerformanceConfig.mkMetrics true 30000) in
  let opts := mkOptions "/api/products" None None None None in
  let clk := mkReadings 0 0 0 (TimeoutManager.mkReadings 0 50) 60 60 60 in
  let run := executeFixtureRequest TimeoutManager.TimerFirst
               (JS.Fulfilled (JS.JStr "live")) opts
               (ScenarioConfig.mk "baseline" 42) clk (new cfg 0) [] in
  fst (fst run) = Returned (mkResponse (JS.JStr "live") false true passthrough 60)
  /\ source (mkResponse (JS.JStr "live") false true passthrough 60) = passthrough.
Proof.
  intros cfg opts clk run.
  assert (Hrun : run = (Returned (mkResponse (JS.JStr "live") false true passthrough 60),
                        snd (fst run), snd run))
    by (vm_compute; reflexivity).
  destruct (executeFixtureRequest_classification
              (new cfg 0) TimeoutManager.TimerFirst (JS.Fulfilled (JS.JStr "live"))
              opts (ScenarioConfig.mk "baseline" 42) clk _ _ _ Hrun)
    as (_ & Htimed & _).
  split; [rewrite Hrun; reflexivity|]. apply Htimed. reflexivity.
Defined.

(** The cache and the timeout manager after any call, by exit. *)
Lemma executeFixtureRequest_state m fixtureFn passthroughFn opts scenario clk :
  let run := executeFixtureRequest fixtureFn passthroughFn opts scenario clk m [] in
  let m' := snd (fst run) in
  config m' = config m
  /\ startTime m' = startTime m
  /\ TimeoutManager.config (timeoutManager m') = TimeoutManager.config (timeoutManager m)
  /\ ResponseCache.maxEntries (cache m') = ResponseCache.maxEntries (cache m)
  /\ ResponseCache.defaultTtlMs (cache m') = ResponseCache.defaultTtlMs (cache m).
Proof.
  cbn zeta. rewrite executeFixtureRequest_run. cbn zeta.
  assert (Hlook : ResponseCache.maxEntries (snd (Spec.lookup m opts scenario clk))
                  = ResponseCache.maxEntries (cache m)
                  /\ ResponseCache.defaultTtlMs (snd (Spec.lookup m opts scenario clk))
                     = ResponseCache.defaultTtlMs (cache m)).
  { unfold Spec.lookup. destruct (Spec.useCache m opts); [|split; reflexivity].
    unfold ResponseCache.get.
    destruct (JsMap.get _ _) as [e|]; [destruct (ResponseCache.expired e _)|];
      split; reflexivity. }
  destruct Hlook as [Hmax Httl].
  destruct (Spec.useCache m opts && JS.not_null _).
  - cbn. repeat split; assumption.
  - pose proof (fetchWithTimeout_config (timeoutManager m) fixtureFn
                  (Some passthroughFn) (atFetch clk) []) as Hcfg.
    destruct (TimeoutManager.fetchWithTimeout _ _ _ _ _) as [[r0 tm1] evs].
    cbn [fst snd] in *. destruct r0 as [o|e]; cbn [fst snd config startTime
      timeoutManager cache].
    + repeat split; try assumption;
        destruct (Spec.stores m opts o), (TimeoutManager.timedOut o);
        cbn; rewrite ?Hmax, ?Httl; try reflexivity;
        unfold ResponseCache.set;
        destruct (JsMap.size _ >=? ResponseCache.maxEntries _);
        cbn; try assumption;
        unfold ResponseCache.evictLRU;
        destruct (fst (ResponseCache.oldest _ _)) as [k|];
        try destruct (String.eqb k ""); cbn; assumption.
    + repeat split; assumption.
Qed.

Lemma fetchWithTimeout_no_cache_calls tm fetchFn fallbackFn fclk key :
  Spec.invoked (CacheGet key)
    (snd (TimeoutManager.fetchWithTimeout fetchFn fallbackFn fclk tm [])) = false
  /\ Spec.invoked (CacheSet key)
       (snd (TimeoutManager.fetchWithTimeout fetchFn fallbackFn fclk tm [])) = false.
Proof.
  destruct tm as [[ms pass logs] hits total].
  destruct fetchFn as [[v|e]|]; cbn.
  - destruct (logs && _); cbn; split; reflexivity.
  - destruct (TimeoutManager.isTimeout e); cbn; [|split; reflexivity].
    destruct logs, pass, fallbackFn as [[w|fe]|]; cbn; split; reflexivity.
  - destruct logs, pass, fallbackFn as [[w|fe]|]; cbn; split; reflexivity.
Qed.

(** X17. A call that does not consult the cache, because caching is off
    in the configuration or [enableCache] is [false], leaves the store as it
    is, even when it holds a valid entry for the request, counts neither a
    hit nor a miss, issues no [get] and no [set], and always runs the
    fixture operation. *)
Theorem executeFixtureRequest_bypasses_disabled_cache
    m fixtureFn passthroughFn opts scenario clk :
  Spec.useCache m opts = false ->
  let run := executeFixtureRequest fixtureFn passthroughFn opts scenario clk m [] in
  let c' := cache (snd (fst run)) in
  ResponseCache.cache c' = ResponseCache.cache (cache m)
  /\ PerformanceMetrics.cacheHits (ResponseCache.metrics c')
     = PerformanceMetrics.cacheHits (ResponseCache.metrics (cache m))
  /\ PerformanceMetrics.cacheMisses (ResponseCache.metrics c')
     = PerformanceMetrics.cacheMisses (ResponseCache.metrics (cache m))
  /\ (forall key, Spec.invoked (CacheGet key) (snd run) = false
                  /\ Spec.invoked (CacheSet key) (snd run) = false)
  /\ Spec.invoked InvokeFixture (snd run) = true
  /\ (forall r, fst (fst run) = Returned r -> source r <> from_cache).
Proof.
  intros Huse. cbn zeta.
  destruct (executeFixtureRequest_attempts_fixture m fixtureFn passthroughFn
              opts scenario clk) as [Hinvoked Hsrc];
    [rewrite Huse; discriminate|].
  cbn zeta in Hinvoked, Hsrc.
  assert (Hstores : forall o, Spec.stores m opts o = false).
  { intros o. unfold Spec.stores. unfold Spec.useCache in Huse.
    destruct (PerformanceConfig.enabled _); [|reflexivity].
    cbn in Huse. rewrite Huse. apply andb_false_r. }
  split; [|split; [|split; [|split; [|split; [exact Hinvoked|]]]]].
  5: { intros r Hr. apply (Hsrc r Hr). }
  all: rewrite executeFixtureRequest_run; cbn zeta;
    unfold Spec.lookup; rewrite Huse; cbn [andb fst snd].
  all: pose proof (fetchWithTimeout_no_cache_calls (timeoutManager m) fixtureFn
                     (Some passthroughFn) (atFetch clk)) as Hnone.
  all: destruct (TimeoutManager.fetchWithTimeout _ _ _ _ _) as [[r0 tm1] evs].
  all: cbn [fst snd] in *.
  all: destruct r0 as [o|e]; cbn [fst snd cache]; rewrite ?Hstores.
  all: try (destruct (TimeoutManager.timedOut o); reflexivity).
  all: try reflexivity.
  all: intros key; destruct (Hnone key) as [Hg Hs];
    rewrite !invoked_app, Hg, Hs; cbn [app Spec.invoked existsb orb];
    try destruct (TimeoutBudget.logTimeouts _); split; reflexivity.
Qed.

Lemma executeFixtureRequest_bypasses_disabled_cache_witness :
  let cfg := PerformanceConfig.mk (PerformanceConfig.mkCache true 10 1000 60000)
               (TimeoutBudget.mk 50 true true)
               (PerformanceConfig.mkMetrics true 30000) in
  let opts := mkOptions "/api/products" None None (Some false) None in
  let clk := mkReadings 0 0 0 (TimeoutManager.mkReadings 0 20) 20 20 20 in
  let run := executeFixtureRequest
               (TimeoutManager.SettlesFirst (JS.Fulfilled (JS.JStr "fixture")))
               (JS.Fulfilled (JS.JStr "live")) opts
               (ScenarioConfig.mk "baseline" 42) clk (new cfg 0) [] in
  Spec.useCache (new cfg 0) opts = false
  /\ ResponseCache.cache (cache (snd (fst run))) = [].
Proof.
  intros cfg opts clk run. split; [reflexivity|].
  destruct (executeFixtureRequest_bypasses_disabled_cache
              (new cfg 0)
              (TimeoutManager.SettlesFirst (JS.Fulfilled (JS.JStr "fixture")))
              (JS.Fulfilled (JS.JStr "live")) opts
              (ScenarioConfig.mk "baseline" 42) clk eq_refl) as [Hstore _].
  exact Hstore.
Defined.

(** X18. A warm cache answers. When a call with caching on returns a
    fixture result other than [null], a later call for the same request and
    scenario, made while the entry has not outlived its time-to-live (the
    one of the first call, or the default of the cache), returns that result
    with [source = 'cache']; it issues one [get], calls neither operation,
    and leaves the timeout manager, its request counter included, as it
    was. *)
Theorem executeFixtureRequest_warm_cache_answers
    m fixtureFn passthroughFn opts scenario clk r m' tr'
    fixtureFn2 passthroughFn2 clk2 :
  executeFixtureRequest fixtureFn passthroughFn opts scenario clk m []
  = (Returned r, m', tr') ->
  Spec.useCache m opts = true ->
  source r = fixture ->
  result r <> JS.JNull ->
  atGet clk2 - atSet clk
  <= JS.opt_num_or (ttlMs opts) (ResponseCache.defaultTtlMs (cache m)) ->
  executeFixtureRequest fixtureFn2 passthroughFn2 opts scenario clk2 m' []
  = (Returned (mkResponse (result r) true false from_cache
                 (atHit clk2 - atEntry clk2)),
     with_cache m' (snd (ResponseCache.get (cache m')
                           (cacheKey_of scenario opts) (atGet clk2))),
     [CacheGet (Spec.request_key scenario opts)])
  /\ timeoutManager
       (snd (fst (executeFixtureRequest fixtureFn2 passthroughFn2 opts scenario
                    clk2 m' [])))
     = timeoutManager m'.
Proof.
  intros Hrun Huse Hsrc Hdata Hlive.
  pose proof (executeFixtureRequest_state m fixtureFn passthroughFn opts scenario clk)
    as Hstate. cbn zeta in Hstate. rewrite Hrun in Hstate. cbn [fst snd] in Hstate.
  destruct Hstate as (Hcfg & _ & _ & _ & _).
  assert (Hcache : exists c1,
             ResponseCache.defaultTtlMs c1 = ResponseCache.defaultTtlMs (cache m)
             /\ cache m' = ResponseCache.set c1 (cacheKey_of scenario opts) (result r)
                             (ttlMs opts) (atSet clk) (atEvict clk)).
  { revert Hrun. rewrite executeFixtureRequest_run. cbn zeta.
    assert (Httl : ResponseCache.defaultTtlMs (snd (Spec.lookup m opts scenario clk))
                   = ResponseCache.defaultTtlMs (cache m)).
    { unfold Spec.lookup. rewrite Huse. unfold ResponseCache.get.
      destruct (JsMap.get _ _) as [e|]; [destruct (ResponseCache.expired e _)|];
        reflexivity. }
    destruct (Spec.useCache m opts && JS.not_null _).
    - intros [= <- <- <-]. discriminate Hsrc.
    - pose proof (fetchWithTimeout_returned (timeoutManager m) fixtureFn
                    (Some passthroughFn) (atFetch clk)) as Hret.
      destruct (TimeoutManager.fetchWithTimeout _ _ _ _ _) as [[r0 tm1] evs].
      cbn [fst snd] in *. destruct r0 as [[res timed src]|e]; [|discriminate].
      destruct (Hret _ eq_refl) as [_ Htimed]. cbn in Htimed. subst timed.
      intros [= <- <- <-]. cbn in Hsrc. destruct src; [|discriminate].
      exists (snd (Spec.lookup m opts scenario clk)). split; [exact Httl|].
      unfold Spec.stores, Spec.useCache in *.
      cbn [TimeoutManager.source TimeoutManager.timedOut TimeoutManager.result
           result cache negb].
      apply andb_true_iff in Huse. destruct Huse as [-> ->]. reflexivity. }
  destruct Hcache as (c1 & Httl & Hcache).
  assert (Huse' : Spec.useCache m' opts = true)
    by (rewrite <- Huse; apply useCache_same_config; exact Hcfg).
  destruct (executeFixtureRequest_serves_entry m' fixtureFn2 passthroughFn2 opts
              scenario clk2
              (Spec.fresh_entry c1 (cacheKey_of scenario opts) (result r)
                                (ttlMs opts) (atSet clk)))
    as (Hres & Htm & Htrace).
  - exact Huse'.
  - rewrite Hcache. apply set_lookup.
  - unfold ResponseCache.expired, Spec.fresh_entry. cbn. rewrite Httl.
    destruct (Z.gtb_spec (atGet clk2 - atSet clk)
                (JS.opt_num_or (ttlMs opts) (ResponseCache.defaultTtlMs (cache m))));
      [lia|reflexivity].
  - exact Hdata.
  - cbn zeta in Hres, Htm, Htrace. split; [|exact Htm].
    revert Hres Htm Htrace. rewrite executeFixtureRequest_run. cbn zeta.
    unfold Spec.lookup. rewrite Huse'.
    destruct (true && JS.not_null _); cbn [fst snd].
    + intros [= Hres] _ _. cbn [fst snd] in *. rewrite Hres. reflexivity.
    + destruct (TimeoutManager.fetchWithTimeout _ _ _ _ _) as [[[o|e] tm1] evs];
        cbn [fst snd]; intros [=].
Qed.

Lemma executeFixtureRequest_warm_cache_answers_witness :
  let cfg := PerformanceConfig.mk (PerformanceConfig.mkCache true 10 1000 60000)
               (TimeoutBudget.mk 50 true true)
               (PerformanceConfig.mkMetrics true 30000) in
  let opts := mkOptions "/api/products" None (Some "category=electronics"%string)
                None None in
  let scenario := ScenarioConfig.mk "baseline" 42 in
  let clk := mkReadings 0 0 0 (TimeoutManager.mkReadings 0 20) 20 20 20 in
  let clk2 := mkReadings 100 100 101 (TimeoutManager.mkReadings 101 151) 160 160 160 in
  let first := executeFixtureRequest
                 (TimeoutManager.SettlesFirst (JS.Fulfilled (JS.JStr "fixture")))
                 (JS.Fulfilled (JS.JStr "live")) opts scenario clk (new cfg 0) [] in
  fst (fst (executeFixtureRequest TimeoutManager.TimerFirst
              (JS.Rejected (JS.ErrorObj "backend down")) opts scenario clk2
              (snd (fst first)) []))
  = Returned (mkResponse (JS.JStr "fixture") true false from_cache 1).
Proof.
  intros cfg opts scenario clk clk2 first.
  assert (Hfirst : first = (Returned (mkResponse (JS.JStr "fixture") false false fixture 20),
                            snd (fst first), snd first))
    by (vm_compute; reflexivity).
  destruct (executeFixtureRequest_warm_cache_answers
              (new cfg 0)
              (TimeoutManager.SettlesFirst (JS.Fulfilled (JS.JStr "fixture")))
              (JS.Fulfilled (JS.JStr "live")) opts scenario clk _ _ _
              TimeoutManager.TimerFirst (JS.Rejected (JS.ErrorObj "backend down"))
              clk2 Hfirst) as [Hhit _].
  - reflexivity.
  - reflexivity.
  - discriminate.
  - vm_compute. discriminate.
  - rewrite Hhit. reflexivity.
Defined.

(** X19. [reset] empties the store and sets every counter that
    [getMetrics] reports to zero, restarts the uptime, and keeps the
    configuration, the capacity and the default time-to-live; the first
    call after it runs the fixture operation, whatever the request.
    [destroy] empties the store too, but keeps the counters. *)
Theorem reset_clears_store_and_counters m now later :
  let m' := reset m now in
  let g := counters (getMetrics m' later) in
  ResponseCache.cache (cache m') = []
  /\ PerformanceMetrics.cacheHits g = 0 /\ PerformanceMetrics.cacheMisses g = 0
  /\ PerformanceMetrics.timeoutHits g = 0 /\ PerformanceMetrics.totalRequests g = 0
  /\ PerformanceMetrics.passthroughCount g = 0
  /\ PerformanceMetrics.averageResponseTime g = 0
  /\ uptime (getMetrics m' later) = later - now
  /\ config m' = config m
  /\ ResponseCache.maxEntries (cache m') = ResponseCache.maxEntries (cache m)
  /\ ResponseCache.defaultTtlMs (cache m') = ResponseCache.defaultTtlMs (cache m)
  /\ (forall fixtureFn passthroughFn opts scenario clk,
        Spec.invoked InvokeFixture
          (snd (executeFixtureRequest fixtureFn passthroughFn opts scenario clk m' []))
        = true)
  /\ ResponseCache.cache (cache (ManagerConfig.destroy m)) = []
  /\ ResponseCache.metrics (cache (ManagerConfig.destroy m))
     = ResponseCache.metrics (cache m)
  /\ timeoutManager (ManagerConfig.destroy m) = timeoutManager m.
Proof.
  cbn zeta. repeat split.
  intros fixtureFn passthroughFn opts scenario clk.
  apply executeFixtureRequest_attempts_fixture. intros _. exact I.
Qed.

(** X20. [updateConfig] never reaches the cache: the store, the counters,
    the capacity and the default time-to-live of the running cache stay as
    they are, whatever [cache] section the update carries; only the
    [enabled] flag of that section, read from the configuration at each
    call, takes effect. A [timeout] section replaces the budget of the
    timeout manager and keeps its counters. *)
Theorem updateConfig_leaves_cache m update :
  let m' := ManagerConfig.updateConfig m update in
  cache m' = cache m
  /\ startTime m' = startTime m
  /\ TimeoutManager.timeoutHits (timeoutManager m')
     = TimeoutManager.timeoutHits (timeoutManager m)
  /\ TimeoutManager.totalRequests (timeoutManager m')
     = TimeoutManager.totalRequests (timeoutManager m)
  /\ (forall section, ManagerConfig.p_cache update = Some section ->
        PerformanceConfig.cache (ManagerConfig.getConfig m') = section
        /\ forall opts, Spec.useCache m' opts
                        = PerformanceConfig.enabled section
                          && not_false (enableCache opts))
  /\ (forall budget, ManagerConfig.p_timeout update = Some budget ->
        TimeoutConfig.getConfig (timeoutManager m') = budget
        /\ PerformanceConfig.timeout (ManagerConfig.getConfig m') = budget)
  /\ (ManagerConfig.p_timeout update = None ->
        timeoutManager m' = timeoutManager m).
Proof.
  cbn zeta. unfold ManagerConfig.updateConfig, ManagerConfig.getConfig,
    TimeoutConfig.getConfig, Spec.useCache.
  cbn [cache startTime timeoutManager config].
  split; [reflexivity|]. split; [reflexivity|].
  split; [destruct (ManagerConfig.p_timeout update); reflexivity|].
  split; [destruct (ManagerConfig.p_timeout update); reflexivity|].
  split; [intros section ->; split; reflexivity|].
  split; [|intros ->; reflexivity].
  intros [ms pass logs] ->. split; reflexivity.
Qed.

Lemma updateConfig_leaves_cache_witness :
  let cfg := PerformanceConfig.mk (PerformanceConfig.mkCache true 10 1000 60000)
               (TimeoutBudget.mk 50 true true)
               (PerformanceConfig.mkMetrics true 30000) in
  let update := ManagerConfig.mkPartial
                  (Some (PerformanceConfig.mkCache true 500 9000 60000)) None None in
  PerformanceConfig.maxEntries
    (PerformanceConfig.cache
       (ManagerConfig.getConfig (ManagerConfig.updateConfig (new cfg 0) update)))
  = 500
  /\ ResponseCache.maxEntries (cache (ManagerConfig.updateConfig (new cfg 0) update))
     = 10.
Proof.
  intros cfg update.
  destruct (updateConfig_leaves_cache (new cfg 0) update)
    as (Hcache & _ & _ & _ & Hsection & _).
  destruct (Hsection _ eq_refl) as [-> _].
  rewrite Hcache. split; reflexivity.
Defined.

End ManagerBehaviour.

(** ** The manager over many calls, and the scenario engine *)

Section ManagerInvariants.
Import Effect PerformanceManager.

(** X21. The manager and its timeout manager always hold the same
    timeout budget: the constructor sets both from the same section, and
    [updateConfig], [executeFixtureRequest] and [reset] keep them equal; so
    the budget that [getMetrics] reports is the one of [getConfig]. *)
Theorem budget_stays_in_sync
    m fixtureFn passthroughFn opts scenario clk update cfg now :
  Inv.budget_in_sync (new cfg now)
  /\ (Inv.budget_in_sync m ->
      Inv.budget_in_sync (ManagerConfig.updateConfig m update)
      /\ Inv.budget_in_sync
           (snd (fst (executeFixtureRequest fixtureFn passthroughFn opts
                        scenario clk m [])))
      /\ Inv.budget_in_sync (reset m now)
      /\ budgetMs (m_timeout (getMetrics m now))
         = TimeoutBudget.fixtureTimeoutMs
             (PerformanceConfig.timeout (ManagerConfig.getConfig m))
      /\ ts_passthroughEnabled (m_timeout (getMetrics m now))
         = TimeoutBudget.enablePassthrough
             (PerformanceConfig.timeout (ManagerConfig.getConfig m))).
Proof.
  split; [reflexivity|]. unfold Inv.budget_in_sync. intros Hsync.
  split; [|split; [|split; [|split]]].
  - unfold ManagerConfig.updateConfig. cbn [config timeoutManager].
    cbn [PerformanceConfig.timeout].
    destruct (ManagerConfig.p_timeout update) as [[ms pass logs]|]; cbn.
    + reflexivity.
    + exact Hsync.
  - destruct (executeFixtureRequest_state m fixtureFn passthroughFn opts scenario clk)
      as (Hcfg & _ & Htm & _).
    rewrite Hcfg, Htm. exact Hsync.
  - cbn. exact Hsync.
  - unfold ManagerConfig.getConfig. rewrite Hsync. reflexivity.
  - unfold ManagerConfig.getConfig. rewrite Hsync. reflexivity.
Qed.

Lemma budget_stays_in_sync_witness :
  let cfg := PerformanceConfig.mk (PerformanceConfig.mkCache true 10 1000 60000)
               (TimeoutBudget.mk 50 true true)
               (PerformanceConfig.mkMetrics true 30000) in
  let update := ManagerConfig.mkPartial None (Some (TimeoutBudget.mk 80 false true))
                  None in
  budgetMs (m_timeout (getMetrics (ManagerConfig.updateConfig (new cfg 0) update) 5))
  = 80.
Proof.
  intros cfg update.
  destruct (budget_stays_in_sync (new cfg 0)
              (TimeoutManager.SettlesFirst (JS.Fulfilled (JS.JStr "fixture")))
              (JS.Fulfilled (JS.JStr "live"))
              (mkOptions "/api/products" None None None None)
              (ScenarioConfig.mk "baseline" 42)
              (mkReadings 0 0 0 (TimeoutManager.mkReadings 0 20) 20 20 20)
              update cfg 0) as [Hnew Hkeep].
  destruct (Hkeep Hnew) as (Hupdated & _).
  destruct (budget_stays_in_sync (ManagerConfig.updateConfig (new cfg 0) update)
              (TimeoutManager.SettlesFirst (JS.Fulfilled (JS.JStr "fixture")))
              (JS.Fulfilled (JS.JStr "live"))
              (mkOptions "/api/products" None None None None)
              (ScenarioConfig.mk "baseline" 42)
              (mkReadings 0 0 0 (TimeoutManager.mkReadings 0 20) 20 20 20)
              update cfg 5) as [_ Hkeep'].
  destruct (Hkeep' Hupdated) as (_ & _ & _ & Hbudget & _).
  rewrite Hbudget. reflexivity.
Defined.

(** X22. [totalRequests], as [getMetrics] reports it, counts the runs of
    the timeout executor and not the calls of [executeFixtureRequest]: a
    call answered from the cache leaves it as it is, every other call adds
    one, also when the call throws. Calls answered from the cache are
    therefore counted in [cacheHits] and not in [totalRequests]. *)
Theorem totalRequests_counts_executor_runs
    m fixtureFn passthroughFn opts scenario clk now now' :
  let run := executeFixtureRequest fixtureFn passthroughFn opts scenario clk m [] in
  let g := counters (getMetrics m now) in
  let g' := counters (getMetrics (snd (fst run)) now') in
  match fst (fst run) with
  | Returned r =>
      PerformanceMetrics.totalRequests g'
      = PerformanceMetrics.totalRequests g
        + (match source r with from_cache => 0 | _ => 1 end)
      /\ (source r = from_cache ->
          PerformanceMetrics.cacheHits g' = PerformanceMetrics.cacheHits g + 1)
  | Threw _ =>
      PerformanceMetrics.totalRequests g' = PerformanceMetrics.totalRequests g + 1
  end.
Proof.
  cbn zeta. rewrite executeFixtureRequest_run. cbn zeta.
  destruct (Spec.useCache m opts && JS.not_null _) eqn:Hserved.
  - cbn [fst snd source]. split.
    + cbn. lia.
    + intros _. apply andb_prop in Hserved. destruct Hserved as [Huse Hnn].
      unfold Spec.lookup in *. rewrite Huse in *.
      cbn [snd fst cache getMetrics counters PerformanceMetrics.cacheHits].
      unfold ResponseCache.get in *.
      destruct (JsMap.get _ _) as [e|];
        [destruct (ResponseCache.expired e _)|]; cbn in Hnn |- *;
        try discriminate Hnn; reflexivity.
  - pose proof (fetchWithTimeout_counters (timeoutManager m) fixtureFn
                  (Some passthroughFn) (atFetch clk) []) as [Htotal _].
    cbn zeta in Htotal.
    destruct (TimeoutManager.fetchWithTimeout _ _ _ _ _) as [[r0 tm1] evs].
    cbn [fst snd] in *. destruct r0 as [o|e]; cbn [fst snd].
    + split.
      * cbn [source getMetrics counters PerformanceMetrics.totalRequests
             timeoutManager TimeoutManager.getStats TimeoutManager.s_totalRequests].
        rewrite Htotal. destruct (TimeoutManager.source o); reflexivity.
      * destruct (TimeoutManager.source o); discriminate.
    + cbn [getMetrics counters PerformanceMetrics.totalRequests
           timeoutManager TimeoutManager.getStats TimeoutManager.s_totalRequests].
      exact Htotal.
Qed.

End ManagerInvariants.

Section ScenarioSwitch.
Import ResponseCache.

Lemma registered_names name :
  ScenarioEngine.registered ScenarioEngine.new name = true ->
  name = "baseline"%string \/ name = "heavyTail"%string \/ name = "fraudSpike"%string.
Proof.
  unfold ScenarioEngine.registered, ScenarioEngine.new. cbn.
  destruct (String.eqb_spec name "baseline"); [auto|].
  destruct (String.eqb_spec name "heavyTail"); [auto|].
  destruct (String.eqb_spec name "fraudSpike"); [auto|].
  discriminate.
Qed.

Lemma setScenario_scenarios e config :
  ScenarioEngine.scenarios (snd (ScenarioEngine.setScenario e config))
  = ScenarioEngine.scenarios e.
Proof.
  unfold ScenarioEngine.setScenario.
  destruct (ScenarioEngine.registered e _); reflexivity.
Qed.

Lemma setScenario_run configs e :
  ScenarioEngine.scenarios e = ScenarioEngine.scenarios ScenarioEngine.new ->
  ScenarioEngine.registered ScenarioEngine.new
    (ScenarioConfig.name (ScenarioEngine.currentScenario e)) = true ->
  let e' := fold_left (fun e c => snd (ScenarioEngine.setScenario e c)) configs e in
  ScenarioEngine.scenarios e' = ScenarioEngine.scenarios ScenarioEngine.new
  /\ ScenarioEngine.registered ScenarioEngine.new
       (ScenarioConfig.name (ScenarioEngine.currentScenario e')) = true
  /\ (ScenarioEngine.currentScenario e' = ScenarioEngine.currentScenario e
      \/ In (ScenarioEngine.currentScenario e') configs).
Proof.
  revert e. induction configs as [|c configs IH]; intros e Hreg Hcur.
  - cbn. auto.
  - cbn [fold_left]. cbn zeta.
    specialize (IH (snd (ScenarioEngine.setScenario e c))).
    rewrite setScenario_scenarios in IH. specialize (IH Hreg).
    unfold ScenarioEngine.setScenario in *.
    destruct (ScenarioEngine.registered e (ScenarioConfig.name c)) eqn:Hc;
      cbn [snd ScenarioEngine.currentScenario] in IH.
    + unfold ScenarioEngine.registered in Hc. rewrite Hreg in Hc.
      destruct (IH Hc) as (H1 & H2 & [H3|H3]).
      * split; [exact H1|]. split; [exact H2|]. right. left. symmetry. exact H3.
      * split; [exact H1|]. split; [exact H2|]. right. right. exact H3.
    + destruct (IH Hcur) as (H1 & H2 & [H3|H3]).
      * split; [exact H1|]. split; [exact H2|]. left. exact H3.
      * split; [exact H1|]. split; [exact H2|]. right. right. exact H3.
Qed.

(** X23. Whatever sequence of [setScenario] calls an engine has seen, its
    current scenario is named "baseline", "heavyTail" or "fraudSpike", and
    is the initial one ("baseline" with seed 42) or one of the configurations
    passed in, seed included, which is not checked. A call with another name
    answers [false] and leaves the engine as it was; a call with one of the
    three names answers [true] and makes the configuration current. *)
Theorem setScenario_keeps_registered_name configs config :
  let e := fold_left (fun e c => snd (ScenarioEngine.setScenario e c)) configs
             ScenarioEngine.new in
  let current := ScenarioEngine.getCurrentScenario e in
  (ScenarioConfig.name current = "baseline"%string
   \/ ScenarioConfig.name current = "heavyTail"%string
   \/ ScenarioConfig.name current = "fraudSpike"%string)
  /\ (current = ScenarioConfig.mk "baseline" 42 \/ In current configs)
  /\ (fst (ScenarioEngine.setScenario e config) = false ->
      snd (ScenarioEngine.setScenario e config) = e
      /\ ScenarioEngine.registered ScenarioEngine.new (ScenarioConfig.name config)
         = false)
  /\ (fst (ScenarioEngine.setScenario e config) = true ->
      ScenarioEngine.getCurrentScenario (snd (ScenarioEngine.setScenario e config))
      = config
      /\ ScenarioEngine.registered ScenarioEngine.new (ScenarioConfig.name config)
         = true).
Proof.
  cbn zeta.
  destruct (setScenario_run configs ScenarioEngine.new eq_refl eq_refl)
    as (Hreg & Hcur & Hfrom).
  cbn zeta in Hreg, Hcur, Hfrom.
  set (e := fold_left _ configs ScenarioEngine.new) in *.
  unfold ScenarioEngine.getCurrentScenario.
  split; [apply registered_names; exact Hcur|].
  split; [exact Hfrom|].
  unfold ScenarioEngine.setScenario, ScenarioEngine.registered. rewrite Hreg.
  destruct (existsb _ _); cbn; split; intros; try discriminate; auto.
Qed.

Lemma registered_colon_free name :
  ScenarioEngine.registered ScenarioEngine.new name = true ->
  Spec.colon_free name /\ JS.str_or name "baseline" = name.
Proof.
  intros H. destruct (registered_names name H) as [->|[->| ->]];
    split; reflexivity.
Qed.

Lemma num_or_idem n d : JS.num_or (JS.num_or n d) d = JS.num_or n d.
Proof.
  unfold JS.num_or. destruct (Z.eqb_spec n 0) as [_|Hn].
  - destruct (d =? 0); reflexivity.
  - destruct (Z.eqb_spec n 0); [contradiction|reflexivity].
Qed.

(** X24. Requests made under two registered scenarios share a cache key
    exactly when route and parameters normalize alike, the scenario names
    are the same and the seeds are the same once 0 is read as 42: what was
    cached under one scenario or seed is not looked up under another, a
    seed of 0 and a seed of 42 apart. *)
Theorem registered_scenarios_share_key_iff s1 s2 opts1 opts2 :
  ScenarioEngine.registered ScenarioEngine.new (ScenarioConfig.name s1) = true ->
  ScenarioEngine.registered ScenarioEngine.new (ScenarioConfig.name s2) = true ->
  Spec.request_key s1 opts1 = Spec.request_key s2 opts2
  <-> (normalizeRoute (PerformanceManager.url opts1)
       = normalizeRoute (PerformanceManager.url opts2)
       /\ Spec.params_of (PerformanceManager.cacheKey_of s1 opts1)
          = Spec.params_of (PerformanceManager.cacheKey_of s2 opts2)
       /\ ScenarioConfig.name s1 = ScenarioConfig.name s2
       /\ JS.num_or (ScenarioConfig.seed s1) 42 = JS.num_or (ScenarioConfig.seed s2) 42).
Proof.
  intros H1 H2.
  destruct (registered_colon_free _ H1) as [Hc1 Hs1].
  destruct (registered_colon_free _ H2) as [Hc2 Hs2].
  unfold Spec.request_key. split.
  - intros Hkey. apply generateKey_inj in Hkey.
    + destruct Hkey as (Hr & Hp & Hs & Hd).
      unfold Spec.route_of, Spec.scenario_of, Spec.seed_of in *.
      cbn [PerformanceManager.cacheKey_of CacheKey.route CacheKey.scenario
           CacheKey.seed] in *.
      rewrite Hs1, Hs2 in Hs. rewrite !num_or_idem in Hd. auto.
    + right. unfold Spec.scenario_of.
      cbn [PerformanceManager.cacheKey_of CacheKey.scenario].
      rewrite Hs1, Hs2. split; assumption.
  - intros (Hr & Hp & Hs & Hd). rewrite !generateKey_components.
    unfold Spec.route_of, Spec.scenario_of, Spec.seed_of in *.
    cbn [PerformanceManager.cacheKey_of CacheKey.route CacheKey.scenario
         CacheKey.seed] in *.
    rewrite Hr, Hp, Hs, !num_or_idem, Hd. reflexivity.
Qed.

Lemma registered_scenarios_share_key_iff_witness :
  let opts := PerformanceManager.mkOptions "/api/products" None
                (Some "category=electronics"%string) None None in
  Spec.request_key (ScenarioConfig.mk "heavyTail" 0) opts
  = Spec.request_key (ScenarioConfig.mk "heavyTail" 42) opts
  /\ Spec.request_key (ScenarioConfig.mk "heavyTail" 42) opts
     <> Spec.request_key (ScenarioConfig.mk "fraudSpike" 42) opts.
Proof.
  intros opts. split.
  - apply (registered_scenarios_share_key_iff
             (ScenarioConfig.mk "heavyTail" 0) (ScenarioConfig.mk "heavyTail" 42)
             opts opts eq_refl eq_refl).
    repeat split.
  - intros Hkey.
    apply (registered_scenarios_share_key_iff
             (ScenarioConfig.mk "heavyTail" 42) (ScenarioConfig.mk "fraudSpike" 42)
             opts opts eq_refl eq_refl) in Hkey.
    destruct Hkey as (_ & _ & Hname & _). vm_compute in Hname. discriminate Hname.
Defined.

End ScenarioSwitch.
